(** * Invoice builder: totals, history (undo/redo), validation, start-up

    A shallow embedding of the invoice application's logic (the [App]
    component and [InvoicePreview]) and the properties proved about it.

    Numbers.  A JavaScript number is modelled by [num]: [NaN], the two
    infinities, and the finite values as exact decimals [m * 10^e].  The
    program only adds, subtracts, multiplies and divides by the literal
    [100], and exact decimals are closed under all four.  Binary64 rounding
    and overflow are not modelled, and the two zeros are one value: [nadd],
    [nmul], [div100] and the string conversions give the exact value where
    the program gives the binary64 value nearest to it.  The properties below
    therefore evaluate arithmetic only where the binary64 result is the
    exact one (small whole numbers, halves, a product with 1, a sum with 0),
    and otherwise relate two runs of the program to each other.

    Strings.  A JavaScript string is a Rocq [string] (code units below 256).
    [String], [parseFloat], [parseInt] and [Number] follow ECMAScript's
    Number::toString, parseFloat, parseInt and StringToNumber on them.

    Texts.  [JSON.stringify] and [JSON.parse] are modelled on the same
    strings (module [JSON]), as far as the record the component stores and
    shares needs them.

    State.  The component's state variables form the record [State]; an
    event handler is a function on it.  Item objects are kept in a heap,
    since [updateItem] writes to objects that recorded snapshots share.  A
    handler that can throw returns an [option]; the start-up effect returns
    an [outcome]. *)

From Stdlib Require Import ZArith Lia List Ascii String Bool.
From stdpp Require Import base gmap strings list.

Local Open Scope Z_scope.

(** ** JavaScript numbers *)

Module JS.

Inductive num : Type :=
  | NaN
  | Inf (neg : bool)
  | Fin (m e : Z).

(** Removes the factors of ten of a mantissa; [fuel] bounds the loop. *)
Fixpoint strip10 (fuel : nat) (m e : Z) : Z * Z :=
  match fuel with
  | O => (m, e)
  | S f => if m mod 10 =? 0 then strip10 f (m / 10) (e + 1) else (m, e)
  end.

(** The canonical mantissa and exponent of [m * 10^e]. *)
Definition canon (m e : Z) : Z * Z :=
  if m =? 0 then (0, 0) else strip10 (S (Z.to_nat (Z.log2 (Z.abs m)))) m e.

Definition norm (m e : Z) : num := let '(m', e') := canon m e in Fin m' e'.

(** Canonical representations: zero is [Fin 0 0], and a mantissa other than
    zero is no multiple of ten. *)
Definition wf (x : num) : Prop :=
  match x with
  | Fin m e => if m =? 0 then e = 0 else m mod 10 <> 0
  | _ => True
  end.

Definition zero : num := Fin 0 0.
Definition one : num := Fin 1 0.
Definition of_Z (z : Z) : num := norm z 0.

Definition nneg (x : num) : num :=
  match x with
  | NaN => NaN
  | Inf b => Inf (negb b)
  | Fin m e => Fin (- m) e
  end.

(** [x + y], exactly. *)
Definition nadd (x y : num) : num :=
  match x, y with
  | NaN, _ | _, NaN => NaN
  | Inf a, Inf b => if eqb a b then Inf a else NaN
  | Inf a, Fin _ _ => Inf a
  | Fin _ _, Inf b => Inf b
  | Fin m1 e1, Fin m2 e2 =>
      let e := Z.min e1 e2 in
      norm (m1 * 10 ^ (e1 - e) + m2 * 10 ^ (e2 - e)) e
  end.

Definition nsub (x y : num) : num := nadd x (nneg y).

(** [x * y], exactly. *)
Definition nmul (x y : num) : num :=
  match x, y with
  | NaN, _ | _, NaN => NaN
  | Inf a, Inf b => Inf (xorb a b)
  | Inf a, Fin m _ | Fin m _, Inf a =>
      if m =? 0 then NaN else Inf (xorb a (m <? 0))
  | Fin m1 e1, Fin m2 e2 => norm (m1 * m2) (e1 + e2)
  end.

(** [x / 100], exactly.  Every division of the program has the literal
    divisor 100; on an exact decimal it lowers the exponent by two. *)
Definition div100 (x : num) : num :=
  match x with
  | NaN => NaN
  | Inf b => Inf b
  | Fin m e => norm m (e - 2)
  end.

(** [x < y]; false as soon as one side is [NaN]. *)
Definition nlt (x y : num) : bool :=
  match x, y with
  | NaN, _ | _, NaN => false
  | Inf a, Inf b => a && negb b
  | Inf a, Fin _ _ => a
  | Fin _ _, Inf b => negb b
  | Fin m1 e1, Fin m2 e2 =>
      let e := Z.min e1 e2 in
      m1 * 10 ^ (e1 - e) <? m2 * 10 ^ (e2 - e)
  end.

(** [x >= y]. *)
Definition nge (x y : num) : bool :=
  match x, y with
  | NaN, _ | _, NaN => false
  | _, _ => negb (nlt x y)
  end.

(** ToBoolean on a number: [NaN] and zero are falsy. *)
Definition truthy (x : num) : bool :=
  match x with
  | NaN => false
  | Inf _ => true
  | Fin m _ => negb (m =? 0)
  end.

(** [x || d] on numbers. *)
Definition nor (x d : num) : num := if truthy x then x else d.

Definition is_nan (x : num) : bool :=
  match x with
  | NaN => true
  | _ => false
  end.

(** *** Characters and digit strings *)

Definition code (c : ascii) : Z := Z.of_N (N_of_ascii c).

Definition is_digit (c : ascii) : bool := (48 <=? code c) && (code c <=? 57).
Definition digit_val (c : ascii) : Z := code c - 48.
Definition digit_char (d : Z) : ascii := ascii_of_N (Z.to_N (48 + d)).

Definition is_hex (c : ascii) : bool :=
  is_digit c || ((97 <=? code c) && (code c <=? 102))
             || ((65 <=? code c) && (code c <=? 70)).
Definition hex_val (c : ascii) : Z :=
  if is_digit c then digit_val c
  else if 97 <=? code c then code c - 87 else code c - 55.

Definition is_octal (c : ascii) : bool := (48 <=? code c) && (code c <=? 55).
Definition is_binary (c : ascii) : bool := (48 <=? code c) && (code c <=? 49).

(** StrWhiteSpaceChar among the code units below 256: TAB, LF, VT, FF, CR,
    SP and NBSP. *)
Definition is_space (c : ascii) : bool :=
  ((9 <=? code c) && (code c <=? 13)) || (code c =? 32) || (code c =? 160).

(** The value of a digit string in radix [r], most significant digit first. *)
Definition digits_val (r : Z) (val : ascii -> Z) (l : list ascii) : Z :=
  fold_left (fun acc c => r * acc + val c) l 0.

Definition dec_val : list ascii -> Z := digits_val 10 digit_val.

Fixpoint digits_aux (fuel : nat) (n : Z) (acc : list ascii) : list ascii :=
  match fuel with
  | O => acc
  | S f =>
      let acc' := digit_char (n mod 10) :: acc in
      if n <? 10 then acc' else digits_aux f (n / 10) acc'
  end.

(** The decimal digits of [n >= 0], most significant first; ["0"] for 0. *)
Definition digits (n : Z) : list ascii :=
  digits_aux (S (Z.to_nat (Z.log2 n))) n [].

Definition zeros (n : Z) : list ascii := repeat "0"%char (Z.to_nat n).

(** *** Number::toString (radix 10) *)

(** The digits of [m * 10^e] for a canonical [m > 0]: with [k] the number of
    digits of [m] and [n = k + e], the four layouts of Number::toString. *)
Definition unsigned_chars (m e : Z) : list ascii :=
  let s := digits m in
  let k := Z.of_nat (length s) in
  let n := k + e in
  if (k <=? n) && (n <=? 21) then s ++ zeros (n - k)
  else if (0 <? n) && (n <=? 21) then
    take (Z.to_nat n) s ++ "."%char :: drop (Z.to_nat n) s
  else if (-6 <? n) && (n <=? 0) then
    "0"%char :: "."%char :: zeros (- n) ++ s
  else
    let ex := n - 1 in
    let sign := if ex <? 0 then "-"%char else "+"%char in
    match s with
    | [] => []
    | [d] => d :: "e"%char :: sign :: digits (Z.abs ex)
    | d :: rest => d :: "."%char :: rest ++ "e"%char :: sign :: digits (Z.abs ex)
    end.

Definition num_chars (x : num) : list ascii :=
  match x with
  | NaN => list_ascii_of_string "NaN"
  | Inf false => list_ascii_of_string "Infinity"
  | Inf true => list_ascii_of_string "-Infinity"
  | Fin m e =>
      let '(m', e') := canon m e in
      if m' =? 0 then ["0"%char]
      else if m' <? 0 then "-"%char :: unsigned_chars (- m') e'
      else unsigned_chars m' e'
  end.

(** [String(x)] for a number [x]. *)
Definition String (x : num) : string := string_of_list_ascii (num_chars x).

(** *** parseFloat, parseInt and Number *)

Fixpoint trim_start (l : list ascii) : list ascii :=
  match l with
  | c :: t => if is_space c then trim_start t else l
  | [] => []
  end.

Definition trim (l : list ascii) : list ascii :=
  rev (trim_start (rev (trim_start l))).

(** The longest prefix whose characters satisfy [p], and the rest. *)
Fixpoint span (p : ascii -> bool) (l : list ascii) : list ascii * list ascii :=
  match l with
  | c :: t => if p c then let '(a, b) := span p t in (c :: a, b) else ([], l)
  | [] => ([], [])
  end.

(** An optional sign: whether it is a minus, and what follows. *)
Definition split_sign (l : list ascii) : bool * list ascii :=
  match l with
  | c :: t =>
      if Ascii.eqb c "-" then (true, t)
      else if Ascii.eqb c "+" then (false, t) else (false, l)
  | [] => (false, l)
  end.

Fixpoint starts_with (p l : list ascii) : bool :=
  match p, l with
  | [], _ => true
  | a :: p', b :: l' => Ascii.eqb a b && starts_with p' l'
  | _ :: _, [] => false
  end.

(** The longest ExponentPart at the head of [l]: its value and what
    follows; [0] and [l] itself when there is none. *)
Definition exponent_part (l : list ascii) : Z * list ascii :=
  match l with
  | c :: t =>
      if Ascii.eqb c "e" || Ascii.eqb c "E" then
        let '(neg, t') := split_sign t in
        let '(ds, rest) := span is_digit t' in
        match ds with
        | [] => (0, l)
        | _ => ((if neg then - dec_val ds else dec_val ds), rest)
        end
      else (0, l)
  | [] => (0, l)
  end.

(** The longest StrUnsignedDecimalLiteral at the head of [l]: its value and
    what follows. *)
Definition unsigned_decimal (l : list ascii) : option (num * list ascii) :=
  if starts_with (list_ascii_of_string "Infinity") l then
    Some (Inf false, drop 8 l)
  else
    let '(d1, r1) := span is_digit l in
    let '(d2, r2) :=
      match r1 with
      | c :: t => if Ascii.eqb c "." then span is_digit t else ([], r1)
      | [] => ([], r1)
      end in
    match d1 ++ d2 with
    | [] => None
    | ds =>
        let '(ex, r3) := exponent_part r2 in
        Some (norm (dec_val ds) (ex - Z.of_nat (length d2)), r3)
    end.

Definition parseFloat_chars (chars : list ascii) : num :=
  let '(neg, t) := split_sign (trim_start chars) in
  match unsigned_decimal t with
  | Some (v, _) => if neg then nneg v else v
  | None => NaN
  end.

(** [Number.parseFloat(s)]. *)
Definition parseFloat (s : string) : num :=
  parseFloat_chars (list_ascii_of_string s).

(** The digits [parseInt] reads after the sign.  With no radix argument a
    ["0x"] or ["0X"] prefix selects radix 16. *)
Definition read_integer (neg : bool) (t : list ascii) : num :=
  let '(hex, t') :=
    match t with
    | c0 :: c1 :: r =>
        if Ascii.eqb c0 "0" && (Ascii.eqb c1 "x" || Ascii.eqb c1 "X")
        then (true, r) else (false, t)
    | _ => (false, t)
    end in
  let '(ds, _) := span (if hex then is_hex else is_digit) t' in
  match ds with
  | [] => NaN
  | _ =>
      let v := if hex then digits_val 16 hex_val ds else dec_val ds in
      of_Z (if neg then - v else v)
  end.

Definition parseInt_chars (chars : list ascii) : num :=
  let '(neg, t) := split_sign (trim_start chars) in
  read_integer neg t.

(** [Number.parseInt(s)]. *)
Definition parseInt (s : string) : num :=
  parseInt_chars (list_ascii_of_string s).

(** A NonDecimalIntegerLiteral's digits: all of [l] in radix [r]. *)
Definition nondecimal (r : Z) (p : ascii -> bool) (val : ascii -> Z)
    (l : list ascii) : num :=
  match l with
  | [] => NaN
  | _ => if forallb p l then of_Z (digits_val r val l) else NaN
  end.

(** StringToNumber: the whole trimmed string must be a numeric literal; the
    empty string is [0]. *)
Definition StringToNumber_chars (chars : list ascii) : num :=
  let t := trim chars in
  let decimal :=
    let '(neg, u) := split_sign t in
    match unsigned_decimal u with
    | Some (v, []) => if neg then nneg v else v
    | _ => NaN
    end in
  match t with
  | [] => zero
  | c0 :: c1 :: r =>
      if Ascii.eqb c0 "0" then
        if Ascii.eqb c1 "x" || Ascii.eqb c1 "X" then nondecimal 16 is_hex hex_val r
        else if Ascii.eqb c1 "o" || Ascii.eqb c1 "O" then nondecimal 8 is_octal digit_val r
        else if Ascii.eqb c1 "b" || Ascii.eqb c1 "B" then nondecimal 2 is_binary digit_val r
        else decimal
      else decimal
  | _ => decimal
  end.

(** The argument of [updateItem]: [string | number]. *)
Inductive value : Type :=
  | VStr (s : string)
  | VNum (x : num).

(** [Number(v)]: the exact value of the numeric literal a string holds. *)
Definition Number (v : value) : num :=
  match v with
  | VStr s => StringToNumber_chars (list_ascii_of_string s)
  | VNum x => x
  end.

(** *** Predicates on characters and numbers *)

Definition all_digits (l : list ascii) : Prop := Forall (fun c => is_digit c = true) l.

(** [r] is empty or starts with a character outside [p]. *)
Definition stops (p : ascii -> bool) (r : list ascii) : Prop :=
  match r with
  | [] => True
  | c :: _ => p c = false
  end.

(** The [x] or [X] of a hexadecimal prefix. *)
Definition hex_mark (c : ascii) : bool := Ascii.eqb c "x" || Ascii.eqb c "X".

(** Canonicity as a test. *)
Definition wfb (x : num) : bool :=
  match x with
  | Fin m e => if m =? 0 then e =? 0 else negb (m mod 10 =? 0)
  | _ => true
  end.

End JS.

Import JS.

Declare Scope num_scope.
Delimit Scope num_scope with num.
Bind Scope num_scope with num.
Infix "+" := nadd : num_scope.
Infix "-" := nsub : num_scope.
Infix "*" := nmul : num_scope.
Notation "x ||| d" := (nor x d) (at level 50, left associativity) : num_scope.

(** ** The totals calculator *)

Record Item : Type := {
  description : string;
  quantity : num;
  price : num
}.

Definition emptyItem : Item :=
  {| description := ""; quantity := one; price := zero |}.

Record Totals : Type := {
  subtotal : num;
  taxValue : num;
  discountValue : num;
  total : num
}.

Definition calcTotals (items : list Item) (tax discount : num) : Totals :=
  let subtotal :=
    fold_left
      (fun sum item =>
         sum + (parseFloat (String (price item)) ||| zero)
               * (parseInt (String (quantity item)) ||| one))%num
      items zero in
  let taxValue := (div100 (tax ||| zero) * subtotal)%num in
  let discountValue := (div100 (discount ||| zero) * subtotal)%num in
  let total := (subtotal + taxValue - discountValue)%num in
  {| subtotal := subtotal; taxValue := taxValue;
     discountValue := discountValue; total := total |}.

(** The number [InvoicePreview] formats (with [toFixed(2)]) as the total of
    a row. *)
Definition rowTotal (item : Item) : num :=
  ((parseFloat (String (price item)) ||| zero)
   * (parseInt (String (quantity item)) ||| one))%num.

(** The percentage [InvoicePreview] shows beside a tax or discount. *)
Definition shownPercent (p : num) : num := (p ||| zero)%num.

(** ** The application state *)

(** The component's state variables.  Item objects live in [heap] and an
    items array is a list of references into it: [updateItem] assigns to
    the object that [prev.slice()] shares with the arrays recorded in
    [history], while the arrays themselves are never written after they are
    built.  An event handler is one transition of [State]: the values its
    closure reads ([history], [historyIndex], [tax], [discount], [errors])
    are those of the state it is called in, and the state updates it queues
    are applied together. *)

Definition loc : Type := nat.

Inductive Currency : Type := USD | EUR | INR.

Record InvoiceHistory : Type := {
  h_items : list loc;
  h_tax : num;
  h_discount : num
}.

Record State : Type := {
  heap : list Item;
  items : list loc;
  tax : num;
  discount : num;
  currency : Currency;
  title : string;
  invoiceNumber : string;
  date : string;
  history : list InvoiceHistory;
  historyIndex : Z;
  errors : gmap string string
}.

Definition setHeap (h : list Item) (s : State) : State :=
  {| heap := h; items := items s; tax := tax s; discount := discount s;
     currency := currency s; title := title s; invoiceNumber := invoiceNumber s;
     date := date s; history := history s; historyIndex := historyIndex s;
     errors := errors s |}.

Definition setItems (l : list loc) (s : State) : State :=
  {| heap := heap s; items := l; tax := tax s; discount := discount s;
     currency := currency s; title := title s; invoiceNumber := invoiceNumber s;
     date := date s; history := history s; historyIndex := historyIndex s;
     errors := errors s |}.

Definition setTax (t : num) (s : State) : State :=
  {| heap := heap s; items := items s; tax := t; discount := discount s;
     currency := currency s; title := title s; invoiceNumber := invoiceNumber s;
     date := date s; history := history s; historyIndex := historyIndex s;
     errors := errors s |}.

Definition setDiscount (d : num) (s : State) : State :=
  {| heap := heap s; items := items s; tax := tax s; discount := d;
     currency := currency s; title := title s; invoiceNumber := invoiceNumber s;
     date := date s; history := history s; historyIndex := historyIndex s;
     errors := errors s |}.

Definition setCurrency (c : Currency) (s : State) : State :=
  {| heap := heap s; items := items s; tax := tax s; discount := discount s;
     currency := c; title := title s; invoiceNumber := invoiceNumber s;
     date := date s; history := history s; historyIndex := historyIndex s;
     errors := errors s |}.

Definition setTitle (t : string) (s : State) : State :=
  {| heap := heap s; items := items s; tax := tax s; discount := discount s;
     currency := currency s; title := t; invoiceNumber := invoiceNumber s;
     date := date s; history := history s; historyIndex := historyIndex s;
     errors := errors s |}.

Definition setInvoiceNumber (n : string) (s : State) : State :=
  {| heap := heap s; items := items s; tax := tax s; discount := discount s;
     currency := currency s; title := title s; invoiceNumber := n;
     date := date s; history := history s; historyIndex := historyIndex s;
     errors := errors s |}.

Definition setDate (d : string) (s : State) : State :=
  {| heap := heap s; items := items s; tax := tax s; discount := discount s;
     currency := currency s; title := title s; invoiceNumber := invoiceNumber s;
     date := d; history := history s; historyIndex := historyIndex s;
     errors := errors s |}.

Definition setHistory (h : list InvoiceHistory) (s : State) : State :=
  {| heap := heap s; items := items s; tax := tax s; discount := discount s;
     currency := currency s; title := title s; invoiceNumber := invoiceNumber s;
     date := date s; history := h; historyIndex := historyIndex s;
     errors := errors s |}.

Definition setHistoryIndex (i : Z) (s : State) : State :=
  {| heap := heap s; items := items s; tax := tax s; discount := discount s;
     currency := currency s; title := title s; invoiceNumber := invoiceNumber s;
     date := date s; history := history s; historyIndex := i;
     errors := errors s |}.

Definition setErrors (e : gmap string string) (s : State) : State :=
  {| heap := heap s; items := items s; tax := tax s; discount := discount s;
     currency := currency s; title := title s; invoiceNumber := invoiceNumber s;
     date := date s; history := history s; historyIndex := historyIndex s;
     errors := e |}.

(** *** Arrays *)

(** [l.slice(start, end)]: a negative bound counts from the end, and both
    are clamped to the array. *)
Definition slice {A : Type} (l : list A) (start end_ : Z) : list A :=
  let len := Z.of_nat (length l) in
  let k := if start <? 0 then Z.max (len + start) 0 else Z.min start len in
  let final := if end_ <? 0 then Z.max (len + end_) 0 else Z.min end_ len in
  take (Z.to_nat (final - k)) (drop (Z.to_nat k) l).

(** [l.slice(start)]. *)
Definition slice_from {A : Type} (l : list A) (start : Z) : list A :=
  slice l start (Z.of_nat (length l)).

(** [l[i]] for an integer [i]: [None] is [undefined]. *)
Definition at_index {A : Type} (l : list A) (i : Z) : option A :=
  if i <? 0 then None else l !! Z.to_nat i.

(** [l.filter((_, i) => p(i))], with [i] the index of the first element. *)
Fixpoint filter_index {A : Type} (p : nat -> bool) (i : nat) (l : list A) : list A :=
  match l with
  | [] => []
  | x :: t => if p i then x :: filter_index p (S i) t else filter_index p (S i) t
  end.

(** The items an array of references denotes. *)
Definition deref (h : list Item) (l : list loc) : list Item := omap (fun r => h !! r) l.

(** What the component renders as totals. *)
Definition totals (s : State) : Totals :=
  calcTotals (deref (heap s) (items s)) (tax s) (discount s).

(** *** History *)

Definition saveHistory (newItems : list loc) (newTax newDiscount : num)
    (s : State) : State :=
  let newHistory :=
    slice (history s) 0 (historyIndex s + 1)
    ++ [ {| h_items := newItems; h_tax := newTax; h_discount := newDiscount |} ] in
  setHistoryIndex (Z.of_nat (length newHistory) - 1)
    (setHistory
       (if 50 <? Z.of_nat (length newHistory) then slice_from newHistory (-50)
        else newHistory)
       s).

(** [Some s]: the guard fails and nothing is set.  [None]: the snapshot read
    is [undefined] and reading its [items] throws. *)
Definition undo (s : State) : option State :=
  if 0 <? historyIndex s then
    match at_index (history s) (historyIndex s - 1) with
    | Some prevState =>
        Some (setDiscount (h_discount prevState)
                (setTax (h_tax prevState)
                   (setItems (h_items prevState)
                      (setHistoryIndex (historyIndex s - 1) s))))
    | None => None
    end
  else Some s.

Definition redo (s : State) : option State :=
  if historyIndex s <? Z.of_nat (length (history s)) - 1 then
    match at_index (history s) (historyIndex s + 1) with
    | Some nextState =>
        Some (setDiscount (h_discount nextState)
                (setTax (h_tax nextState)
                   (setItems (h_items nextState)
                      (setHistoryIndex (historyIndex s + 1) s))))
    | None => None
    end
  else Some s.

(** *** Item management with validation *)

(** The field and value of an [updateItem] call: the description's value is
    a string, a quantity's or price's is [string | number]. *)
Inductive Edit : Type :=
  | EDescription (v : string)
  | EQuantity (v : value)
  | EPrice (v : value).

Definition apply_edit (e : Edit) (it : Item) : Item :=
  match e with
  | EDescription v =>
      {| description := v; quantity := quantity it; price := price it |}
  | EQuantity v =>
      {| description := description it; quantity := Number v; price := price it |}
  | EPrice v =>
      {| description := description it; quantity := quantity it; price := Number v |}
  end.

(** The keys [`quantity-${idx}`] and [`price-${idx}`]. *)
Definition quantity_key (idx : nat) : string :=
  ("quantity-" +:+ String (of_Z (Z.of_nat idx)))%string.
Definition price_key (idx : nat) : string :=
  ("price-" +:+ String (of_Z (Z.of_nat idx)))%string.

(** [field === "quantity" && Number(value) < 1]. *)
Definition quantity_invalid (e : Edit) : bool :=
  match e with
  | EQuantity v => nlt (Number v) one
  | _ => false
  end.

(** [field === "price" && Number(value) < 0]. *)
Definition price_invalid (e : Edit) : bool :=
  match e with
  | EPrice v => nlt (Number v) zero
  | _ => false
  end.

Definition validate (idx : nat) (e : Edit) (errors : gmap string string)
    : gmap string string :=
  let newErrors := errors in
  let newErrors :=
    if quantity_invalid e
    then <[quantity_key idx := "Quantity must be at least 1"%string]> newErrors
    else delete (quantity_key idx) newErrors in
  let newErrors :=
    if price_invalid e
    then <[price_key idx := "Price cannot be negative"%string]> newErrors
    else delete (price_key idx) newErrors in
  newErrors.

(** [None]: [next[idx]] is [undefined] and the assignment throws. *)
Definition updateItem (idx : nat) (e : Edit) (s : State) : option State :=
  let next := items s in
  match next !! idx with
  | None => None
  | Some r =>
      match heap s !! r with
      | None => None
      | Some it =>
          Some (setItems next
                  (saveHistory next (tax s) (discount s)
                     (setErrors (validate idx e (errors s))
                        (setHeap (<[r := apply_edit e it]> (heap s)) s))))
      end
  end.

Definition addItem (s : State) : State :=
  let r := length (heap s) in
  let newItems := items s ++ [r] in
  setItems newItems
    (saveHistory newItems (tax s) (discount s)
       (setHeap (heap s ++ [emptyItem]) s)).

Definition removeItem (idx : nat) (s : State) : State :=
  if (length (items s) <=? 1)%nat then s
  else
    let newItems := filter_index (fun i => negb (i =? idx)%nat) 0 (items s) in
    setItems newItems
      (setErrors (delete (price_key idx) (delete (quantity_key idx) (errors s)))
         (saveHistory newItems (tax s) (discount s) s)).

(** The tax and discount inputs' [onChange]. *)
Definition changeTax (v : value) (s : State) : State :=
  saveHistory (items s) (Number v) (discount s) (setTax (Number v) s).

Definition changeDiscount (v : value) (s : State) : State :=
  saveHistory (items s) (tax s) (Number v) (setDiscount (Number v) s).

(** *** Start-up *)

(** The record persisted under ["invoiceData"] and shared through the
    [data] parameter of a link. *)
Record InvoiceData : Type := {
  d_items : list Item;
  d_tax : num;
  d_discount : num;
  d_currency : Currency;
  d_title : string;
  d_invoiceNumber : string;
  d_date : string
}.

(** What [JSON.parse] returns, as far as the typed component handles it:
    [null], or a record of the declared shape. *)
Inductive json : Type :=
  | JNull
  | JData (d : InvoiceData).

Inductive exn : Type := SyntaxError | TypeError.

(** How the start-up effect ends: with a state and what was written to the
    console, or with an exception nothing catches. *)
Inductive outcome : Type :=
  | Done (s : State) (console : list string)
  | Uncaught (e : exn).

(** The state variables as [useState] initialises them; [today] is the
    current date in ISO form. *)
Definition initialState (today : string) : State :=
  {| heap := [emptyItem]; items := [0%nat]; tax := zero; discount := zero;
     currency := USD; title := "Invoice"; invoiceNumber := "INV-001";
     date := today; history := []; historyIndex := -1; errors := ∅ |}.

Definition defaults (today : string) : InvoiceData :=
  {| d_items := [emptyItem]; d_tax := zero; d_discount := zero;
     d_currency := USD; d_title := "Invoice"; d_invoiceNumber := "INV-001";
     d_date := today |}.

(** The setters and the [saveHistory] call that end the effect; the parsed
    items are new objects. *)
Definition load (d : InvoiceData) (s : State) : State :=
  let refs := seq 0 (length (d_items d)) in
  saveHistory refs (d_tax d) (d_discount d)
    (setDate (d_date d)
       (setInvoiceNumber (d_invoiceNumber d)
          (setTitle (d_title d)
             (setCurrency (d_currency d)
                (setDiscount (d_discount d)
                   (setTax (d_tax d)
                      (setItems refs (setHeap (d_items d) s)))))))).

(** ToBoolean on [string | null]. *)
Definition present (o : option string) : option string :=
  match o with
  | Some s => if String.eqb s "" then None else Some s
  | None => None
  end.

Section Startup.

(** [JSON.parse]; [None] when it throws a SyntaxError. *)
Variable JSON_parse : string -> option json.

(** The effect that runs once after mounting: [data] is
    [params.get("data")], [savedDataRaw] is
    [localStorage.getItem("invoiceData")]. *)
Definition startup (data savedDataRaw : option string) (today : string) : outcome :=
  let initialData := JData (defaults today) in
  let chosen : exn + json * list string :=
    match present data with
    | Some text =>
        match JSON_parse text with
        | Some v => inr (v, [])
        | None => inr (initialData, ["Invalid URL data"%string])
        end
    | None =>
        let savedData :=
          match present savedDataRaw with
          | Some raw => JSON_parse raw
          | None => Some JNull
          end in
        match savedData with
        | None => inl SyntaxError
        | Some JNull => inr (initialData, [])
        | Some v => inr (v, [])
        end
    end in
  match chosen with
  | inl e => Uncaught e
  | inr (JNull, _) => Uncaught TypeError
  | inr (JData d, console) => Done (load d (initialState today)) console
  end.

End Startup.

(** The state once the component has mounted with the data [d]. *)
Definition mounted (d : InvoiceData) (today : string) : State :=
  load d (initialState today).

(** *** Operations *)

(** One user action on the form. *)
Inductive step : State -> State -> Prop :=
  | step_updateItem idx e s s' : updateItem idx e s = Some s' -> step s s'
  | step_addItem s : step s (addItem s)
  | step_removeItem idx s : step s (removeItem idx s)
  | step_changeTax v s : step s (changeTax v s)
  | step_changeDiscount v s : step s (changeDiscount v s)
  | step_undo s s' : undo s = Some s' -> step s s'
  | step_redo s s' : redo s = Some s' -> step s s'
  | step_setCurrency c s : step s (setCurrency c s)
  | step_setTitle t s : step s (setTitle t s)
  | step_setInvoiceNumber n s : step s (setInvoiceNumber n s)
  | step_setDate d s : step s (setDate d s).

Inductive steps : State -> State -> Prop :=
  | steps_refl s : steps s s
  | steps_step s1 s2 s3 : steps s1 s2 -> step s2 s3 -> steps s1 s3.

(** [record] called once per snapshot of [snaps], in order. *)
Definition record_all (snaps : list InvoiceHistory) (s : State) : State :=
  fold_left
    (fun st x => saveHistory (h_items x) (h_tax x) (h_discount x) st)
    snaps s.

(** The last [n] elements of a list. *)
Definition lastn {A : Type} (n : nat) (l : list A) : list A :=
  drop (length l - n) l.

(** The cursor invariant the history keeps: the cursor is at least [-1] and
    at most the length, which is at most 50. *)
Definition history_ok (s : State) : Prop :=
  -1 <= historyIndex s <= Z.of_nat (length (history s))
  /\ (length (history s) <= 50)%nat.

Definition history_okb (s : State) : bool :=
  (-1 <=? historyIndex s) && (historyIndex s <=? Z.of_nat (length (history s)))
  && (length (history s) <=? 50)%nat.

(** ** Predicates and sample inputs of the properties *)

(** *** Totals *)

(** The sum of price times quantity over the items. *)
Definition lineSum (items : list Item) : num :=
  fold_left (fun sum item => sum + price item * quantity item)%num items zero.

(** A whole number: a canonical decimal with no fraction digits. *)
Definition whole (q : num) : bool :=
  match q with
  | Fin m e => wfb q && (0 <=? e)
  | _ => false
  end.


Definition itemA : Item :=
  {| description := "A"; quantity := of_Z 2; price := of_Z 10 |}.

(** A quantity of [10^21] at a price of 1. *)
Definition itemHuge : Item :=
  {| description := "A"; quantity := Fin 1 21; price := one |}.



(** *** History *)

(** The snapshots of 51 tax edits, the taxes 1 to 51. *)
Definition taxSnapshot (n : nat) : InvoiceHistory :=
  {| h_items := [0%nat]; h_tax := of_Z (Z.of_nat n); h_discount := zero |}.

Definition records51 : list InvoiceHistory := map taxSnapshot (seq 1 51).

(** The tax set to 1, 2, ..., [n] in turn. *)
Definition taxEdits (n : nat) (s : State) : State :=
  fold_left (fun st k => changeTax (VNum (of_Z (Z.of_nat k))) st) (seq 1 n) s.

(** The mounted form after 50 tax edits: 51 records with the one of the
    mount. *)
Definition after50Edits : State :=
  taxEdits 50 (mounted (defaults "2024-01-01") "2024-01-01").

(** The state after mounting with the defaults, adding two items and
    undoing once: three snapshots, the cursor on the middle one. *)
Definition threeSnapshots : State :=
  let s := addItem (addItem (mounted (defaults "2024-01-01") "2024-01-01")) in
  default s (undo s).

(** *** Items *)

(** The items list and every recorded snapshot hold at least one item. *)
Definition items_ok (s : State) : Prop :=
  items s <> [] /\ Forall (fun x => h_items x <> []) (history s).

(** The data of a link or of a stored snapshot whose items list is empty. *)
Definition noItems : InvoiceData :=
  {| d_items := []; d_tax := zero; d_discount := zero; d_currency := USD;
     d_title := "Invoice"; d_invoiceNumber := "INV-001"; d_date := "2024-01-01" |}.

(** *** Validation errors *)

Ltac lookup_other :=
  repeat first [ rewrite lookup_insert_ne by congruence
               | rewrite lookup_delete_ne by congruence ].

(** The mounted form after the quantity of its one row is set to 0, and
    after the price of that row is then set to 5. *)
Definition zeroQuantity : option State :=
  updateItem 0 (EQuantity (VStr "0")) (mounted (defaults "2024-01-01") "2024-01-01").

Definition zeroQuantityThenPrice : option State :=
  zeroQuantity ≫= updateItem 0 (EPrice (VStr "5")).

(** The mounted form after the quantity of its row is set to 0 and then
    back to 1. *)
Definition zeroQuantityThenOne : option State :=
  zeroQuantity ≫= updateItem 0 (EQuantity (VStr "1")).

(** *** Start-up *)

(** [JSON.parse] on the texts of the examples below: [null] parses; the
    empty text and a lone brace are no JSON texts. *)
Definition parse_fragment (text : string) : option json :=
  if String.eqb text "null" then Some JNull else None.

(** The mounted form after its price is set to 5 and the edit undone. *)
Definition priceEditUndone : option State :=
  updateItem 0 (EPrice (VStr "5")) (mounted (defaults "2024-01-01") "2024-01-01")
  ≫= undo.

(** *** Rows, the cursor and repeated operations *)

(** The rows of the form: the item objects the items array holds. *)
Definition rows (s : State) : list Item := deref (heap s) (items s).

(** A list of references holds no reference twice, and each points into the
    heap. *)
Definition refs_ok (h : list Item) (l : list loc) : Prop :=
  NoDup l /\ Forall (fun r => (r < length h)%nat) l.

(** Every reference of the items array and of the recorded snapshots points
    to an item object, and no array holds an object twice. *)
Definition heap_ok (s : State) : Prop :=
  refs_ok (heap s) (items s)
  /\ Forall (fun x => refs_ok (heap s) (h_items x)) (history s).

(** The live items, tax and discount as a snapshot. *)
Definition current (s : State) : InvoiceHistory :=
  {| h_items := items s; h_tax := tax s; h_discount := discount s |}.

(** The screen and the cursor agree: the live items, tax and discount are
    the snapshot under the cursor, or, when the cursor is one past the end of
    a full history, the last snapshot. *)
Definition synced (s : State) : Prop :=
  0 <= historyIndex s
  /\ (at_index (history s) (historyIndex s) = Some (current s)
      \/ (historyIndex s = 50 /\ length (history s) = 50%nat
          /\ last (history s) = Some (current s))).

(** An edit of the list or of a percentage: the operations that record a
    snapshot and write to no item object. *)
Inductive edit : State -> State -> Prop :=
  | edit_addItem s : edit s (addItem s)
  | edit_removeItem idx s : (1 < length (items s))%nat -> edit s (removeItem idx s)
  | edit_changeTax v s : edit s (changeTax v s)
  | edit_changeDiscount v s : edit s (changeDiscount v s).

(** What the recording operations have in common: the history they leave
    is the one of [saveHistory] called with the new items, tax and
    discount. *)
Definition recorded (s s1 : State) : Prop :=
  history s1 = history (saveHistory (items s1) (tax s1) (discount s1) s)
  /\ historyIndex s1 = historyIndex (saveHistory (items s1) (tax s1) (discount s1) s).

(** What holds in every state the operations reach. *)
Definition inv (s : State) : Prop := history_ok s /\ heap_ok s /\ synced s.

(** A decimal of at most 15 significant digits in the normal range of
    binary64.  It is the shortest decimal that reads as the binary64 value
    nearest to it, so the program prints that value with these digits and
    reads them back as the same value. *)
Definition short (x : num) : bool :=
  match x with
  | Fin m e => wfb x && (Z.abs m <? 10 ^ 15) && (-300 <=? e) && (e <=? 290)
  | _ => false
  end.

(** The integer part of a number: its digits before the decimal point. *)
Definition trunc (q : num) : num :=
  match q with
  | Fin m e => if 0 <=? e then q else of_Z (Z.quot m (10 ^ (- e)))
  | _ => q
  end.

(** The first digit of a positive integer. *)
Definition leading_digit (m : Z) : Z := digit_val (hd "0"%char (digits m)).

(** The first significant digit of a number. *)
Definition leading (q : num) : num :=
  match q with
  | Fin m _ => of_Z (leading_digit (Z.abs m))
  | _ => q
  end.

(** [undo] called [k] times in a row. *)
Fixpoint undo_n (k : nat) (s : State) : option State :=
  match k with
  | O => Some s
  | S k' => undo s ≫= undo_n k'
  end.

(** [k] edits in a row. *)
Inductive edits : nat -> State -> State -> Prop :=
  | edits_O s : edits 0 s s
  | edits_S k s s1 s2 : edits k s s1 -> edit s1 s2 -> edits (S k) s s2.

(** The form as it mounts with the defaults. *)
Definition form0 : State := mounted (defaults "2024-01-01") "2024-01-01".

(** A row of 2.5 units at a price of -10. *)
Definition itemFraction : Item :=
  {| description := "hours"; quantity := Fin 25 (-1); price := of_Z (-10) |}.

(** A row of 0.5 units at a price of 10. *)
Definition itemHalf : Item :=
  {| description := "half"; quantity := Fin 5 (-1); price := of_Z 10 |}.

(** A row of 0.0000005 units at a price of 10. *)
Definition itemTiny : Item :=
  {| description := "drops"; quantity := Fin 5 (-7); price := of_Z 10 |}.

(** ** JSON texts *)

Module JSON.

(** A JSON value.  A string is the list of its code units, which an escape
    can put above the 255 of the text model; an object is the list of the
    members of its text, in their order. *)
#[local] Unset Elimination Schemes.
Inductive jvalue : Type :=
  | JVNull
  | JVBool (b : bool)
  | JVNum (x : num)
  | JVStr (units : list N)
  | JVArr (elems : list jvalue)
  | JVObj (members : list (list N * jvalue)).
#[local] Set Elimination Schemes.

(** *** JSON.stringify *)

(** The double quote. *)
Definition dquote : ascii := "034"%char.

Definition hex_char (n : Z) : ascii :=
  if n <? 10 then digit_char n else ascii_of_N (Z.to_N (87 + n)).

(** QuoteJSONString on one code unit below 256: the two-character escapes,
    [\u00XX] for the other control characters, the unit itself
    otherwise. *)
Definition quote_char (c : ascii) : list ascii :=
  if code c =? 8 then ["\"; "b"]%char
  else if code c =? 9 then ["\"; "t"]%char
  else if code c =? 10 then ["\"; "n"]%char
  else if code c =? 12 then ["\"; "f"]%char
  else if code c =? 13 then ["\"; "r"]%char
  else if code c =? 34 then ["\"%char; dquote]
  else if code c =? 92 then ["\"; "\"]%char
  else if code c <? 32 then
    ["\"; "u"; "0"; "0"]%char ++ [hex_char (code c / 16); hex_char (code c mod 16)]
  else [c].

Definition quote (s : string) : list ascii :=
  dquote :: flat_map quote_char (list_ascii_of_string s) ++ [dquote].

(** A number: its [String], or [null] when it is not finite. *)
Definition number_text (x : num) : list ascii :=
  match x with
  | Fin _ _ => list_ascii_of_string (String x)
  | _ => list_ascii_of_string "null"
  end.

(** The texts [xs] with a comma between each two. *)
Fixpoint commas (xs : list (list ascii)) : list ascii :=
  match xs with
  | [] => []
  | [x] => x
  | x :: rest => x ++ ","%char :: commas rest
  end.

Definition array_text (elems : list (list ascii)) : list ascii :=
  "["%char :: commas elems ++ ["]"%char].

(** A member of an object: its quoted name, a colon and the text of its
    value. *)
Definition member_text (m : string * list ascii) : list ascii :=
  quote (fst m) ++ ":"%char :: snd m.

(** An object from its property names and the texts of their values. *)
Definition object_text (members : list (string * list ascii)) : list ascii :=
  "{"%char :: commas (map member_text members) ++ ["}"%char].

(** *** JSON.parse *)

Inductive result (A : Type) : Type :=
  | Ok (a : A) (rest : list ascii)
  | Bad
  | NoFuel.
Arguments Ok {A} a rest.
Arguments Bad {A}.
Arguments NoFuel {A}.

(** JSON white space: tab, line feed, carriage return, space. *)
Definition is_ws (c : ascii) : bool :=
  (code c =? 9) || (code c =? 10) || (code c =? 13) || (code c =? 32).

Fixpoint skip_ws (l : list ascii) : list ascii :=
  match l with
  | c :: t => if is_ws c then skip_ws t else l
  | [] => []
  end.

(** The code unit of [\uXXXX]. *)
Definition hex4 (a b c d : ascii) : option N :=
  if is_hex a && is_hex b && is_hex c && is_hex d
  then Some (Z.to_N (digits_val 16 hex_val [a; b; c; d]))
  else None.

(** The code unit a character stands for after a backslash. *)
Definition escape (e : ascii) : option N :=
  if code e =? 34 then Some 34%N
  else if code e =? 92 then Some 92%N
  else if Ascii.eqb e "/" then Some 47%N
  else if Ascii.eqb e "b" then Some 8%N
  else if Ascii.eqb e "f" then Some 12%N
  else if Ascii.eqb e "n" then Some 10%N
  else if Ascii.eqb e "r" then Some 13%N
  else if Ascii.eqb e "t" then Some 9%N
  else None.

(** A string after its opening quote: its code units and what follows the
    closing quote. *)
Fixpoint parse_string (l : list ascii) : option (list N * list ascii) :=
  match l with
  | [] => None
  | c :: t =>
      if code c =? 34 then Some ([], t)
      else if code c =? 92 then
        match t with
        | [] => None
        | e :: t' =>
            if Ascii.eqb e "u" then
              match t' with
              | a :: b :: c' :: d :: t'' =>
                  match hex4 a b c' d, parse_string t'' with
                  | Some u, Some (us, r) => Some (u :: us, r)
                  | _, _ => None
                  end
              | _ => None
              end
            else
              match escape e, parse_string t' with
              | Some u, Some (us, r) => Some (u :: us, r)
              | _, _ => None
              end
        end
      else if code c <? 32 then None
      else
        match parse_string t with
        | Some (us, r) => Some (N_of_ascii c :: us, r)
        | None => None
        end
  end.

(** The integer part of a number: a lone [0], or digits. *)
Definition int_part (l : list ascii) : list ascii * list ascii :=
  match l with
  | c :: t => if Ascii.eqb c "0" then ([c], t) else span is_digit l
  | [] => ([], [])
  end.

(** The fraction of a number: a dot and at least one digit. *)
Definition frac_part (l : list ascii) : list ascii * list ascii :=
  match l with
  | c :: t =>
      if Ascii.eqb c "." then
        match span is_digit t with
        | ([], _) => ([], l)
        | (ds, r) => (ds, r)
        end
      else ([], l)
  | [] => ([], l)
  end.

(** The longest number without sign at the head of [l]: its value, exactly,
    and what follows. *)
Definition unsigned_number (l : list ascii) : option (num * list ascii) :=
  let '(int, l2) := int_part l in
  match int with
  | [] => None
  | _ =>
      let '(fr, l3) := frac_part l2 in
      let '(ex, l4) := exponent_part l3 in
      Some (norm (dec_val (int ++ fr)) (ex - Z.of_nat (length fr)), l4)
  end.

Definition parse_number (l : list ascii) : option (num * list ascii) :=
  match l with
  | c :: t =>
      if Ascii.eqb c "-" then
        match unsigned_number t with
        | Some (v, r) => Some (nneg v, r)
        | None => None
        end
      else unsigned_number l
  | [] => None
  end.

(** The rest of a literal name. *)
Definition literal (name : string) (v : jvalue) (l : list ascii) : result jvalue :=
  if starts_with (list_ascii_of_string name) l
  then Ok v (drop (String.length name) l) else Bad.

(** A value at the head of [l], the elements of an array after its bracket
    or a comma, and the members of an object after its brace or a comma;
    [fuel] bounds the nesting and the number of elements. *)
Fixpoint parse_value (fuel : nat) (l : list ascii) : result jvalue :=
  match fuel with
  | O => NoFuel
  | S f =>
      match skip_ws l with
      | [] => Bad
      | c :: t =>
          if Ascii.eqb c "n" then literal "ull" JVNull t
          else if Ascii.eqb c "t" then literal "rue" (JVBool true) t
          else if Ascii.eqb c "f" then literal "alse" (JVBool false) t
          else if code c =? 34 then
            match parse_string t with
            | Some (us, r) => Ok (JVStr us) r
            | None => Bad
            end
          else if Ascii.eqb c "[" then
            match skip_ws t with
            | c' :: t' =>
                if Ascii.eqb c' "]" then Ok (JVArr []) t'
                else
                  match parse_elements f (c' :: t') with
                  | Ok vs r => Ok (JVArr vs) r
                  | Bad => Bad
                  | NoFuel => NoFuel
                  end
            | [] => Bad
            end
          else if Ascii.eqb c "{" then
            match skip_ws t with
            | c' :: t' =>
                if Ascii.eqb c' "}" then Ok (JVObj []) t'
                else
                  match parse_members f (c' :: t') with
                  | Ok ms r => Ok (JVObj ms) r
                  | Bad => Bad
                  | NoFuel => NoFuel
                  end
            | [] => Bad
            end
          else if Ascii.eqb c "-" || is_digit c then
            match parse_number (c :: t) with
            | Some (x, r) => Ok (JVNum x) r
            | None => Bad
            end
          else Bad
      end
  end
with parse_elements (fuel : nat) (l : list ascii) : result (list jvalue) :=
  match fuel with
  | O => NoFuel
  | S f =>
      match parse_value f l with
      | Ok v r =>
          match skip_ws r with
          | c :: t =>
              if Ascii.eqb c "," then
                match parse_elements f t with
                | Ok vs r' => Ok (v :: vs) r'
                | Bad => Bad
                | NoFuel => NoFuel
                end
              else if Ascii.eqb c "]" then Ok [v] t
              else Bad
          | [] => Bad
          end
      | Bad => Bad
      | NoFuel => NoFuel
      end
  end
with parse_members (fuel : nat) (l : list ascii) : result (list (list N * jvalue)) :=
  match fuel with
  | O => NoFuel
  | S f =>
      match skip_ws l with
      | c :: t =>
          if code c =? 34 then
            match parse_string t with
            | Some (k, r) =>
                match skip_ws r with
                | c' :: t' =>
                    if Ascii.eqb c' ":" then
                      match parse_value f t' with
                      | Ok v r' =>
                          match skip_ws r' with
                          | c'' :: t'' =>
                              if Ascii.eqb c'' "," then
                                match parse_members f t'' with
                                | Ok ms r'' => Ok ((k, v) :: ms) r''
                                | Bad => Bad
                                | NoFuel => NoFuel
                                end
                              else if Ascii.eqb c'' "}" then Ok [(k, v)] t''
                              else Bad
                          | [] => Bad
                          end
                      | Bad => Bad
                      | NoFuel => NoFuel
                      end
                    else Bad
                | [] => Bad
                end
            | None => Bad
            end
          else Bad
      | [] => Bad
      end
  end.

(** [JSON.parse(text)]; [None] when it throws a SyntaxError. *)
Definition parse (text : string) : option jvalue :=
  let l := list_ascii_of_string text in
  match parse_value (2 * length l + 1) l with
  | Ok v r =>
      match skip_ws r with
      | [] => Some v
      | _ => None
      end
  | _ => None
  end.

(** *** Reading a parsed value *)

Definition units (s : string) : list N := map N_of_ascii (list_ascii_of_string s).

(** The string of a list of code units, when all are below 256. *)
Definition units_string (us : list N) : option string :=
  if forallb (fun u => (u <? 256)%N) us
  then Some (string_of_list_ascii (map ascii_of_N us)) else None.

Fixpoint units_eqb (a b : list N) : bool :=
  match a, b with
  | [], [] => true
  | x :: a', y :: b' => (x =? y)%N && units_eqb a' b'
  | _, _ => false
  end.

(** [object[name]] on the members of a text: a later member of the same
    name replaces an earlier one. *)
Fixpoint member (name : list N) (ms : list (list N * jvalue)) : option jvalue :=
  match ms with
  | [] => None
  | (k, v) :: rest =>
      match member name rest with
      | Some v' => Some v'
      | None => if units_eqb k name then Some v else None
      end
  end.

End JSON.

Import JSON.

(** ** Persistence *)

(** The record the component stores and shares: the rows and the other
    state variables. *)
Definition snapshot (s : State) : InvoiceData :=
  {| d_items := rows s; d_tax := tax s; d_discount := discount s;
     d_currency := currency s; d_title := title s;
     d_invoiceNumber := invoiceNumber s; d_date := date s |}.

(** The string a currency is in the running program. *)
Definition currency_code (c : Currency) : string :=
  match c with
  | USD => "USD"
  | EUR => "EUR"
  | INR => "INR"
  end.

(** [JSON.stringify] on an item object; its properties are in the order
    [emptyItem] gives them. *)
Definition item_text (it : Item) : list ascii :=
  JSON.object_text
    [ ("description"%string, JSON.quote (description it));
      ("quantity"%string, JSON.number_text (quantity it));
      ("price"%string, JSON.number_text (price it)) ].

(** [JSON.stringify({ items, tax, discount, currency, title, invoiceNumber,
    date })]. *)
Definition data_text (d : InvoiceData) : string :=
  string_of_list_ascii
    (JSON.object_text
       [ ("items"%string, JSON.array_text (map item_text (d_items d)));
         ("tax"%string, JSON.number_text (d_tax d));
         ("discount"%string, JSON.number_text (d_discount d));
         ("currency"%string, JSON.quote (currency_code (d_currency d)));
         ("title"%string, JSON.quote (d_title d));
         ("invoiceNumber"%string, JSON.quote (d_invoiceNumber d));
         ("date"%string, JSON.quote (d_date d)) ]).

(** The text the persistence effect stores under ["invoiceData"] once the
    state is [s]; [generateShareLink] passes the same text to
    [URLSearchParams] as the [data] parameter. *)
Definition persisted (s : State) : string := data_text (snapshot s).

(** *** The typed view of a parsed value *)

Definition as_number (v : JSON.jvalue) : option num :=
  match v with
  | JSON.JVNum x => Some x
  | _ => None
  end.

Definition as_string (v : JSON.jvalue) : option string :=
  match v with
  | JSON.JVStr us => JSON.units_string us
  | _ => None
  end.

Definition as_currency (v : JSON.jvalue) : option Currency :=
  match as_string v with
  | Some s =>
      if String.eqb s "USD" then Some USD
      else if String.eqb s "EUR" then Some EUR
      else if String.eqb s "INR" then Some INR
      else None
  | None => None
  end.

(** The property [name] of an object, read as [read] reads it. *)
Definition field {A : Type} (read : JSON.jvalue -> option A) (name : string)
    (ms : list (list N * JSON.jvalue)) : option A :=
  JSON.member (JSON.units name) ms ≫= read.

Definition as_item (v : JSON.jvalue) : option Item :=
  match v with
  | JSON.JVObj ms =>
      d ← field as_string "description" ms;
      q ← field as_number "quantity" ms;
      p ← field as_number "price" ms;
      Some {| description := d; quantity := q; price := p |}
  | _ => None
  end.

Definition as_items (v : JSON.jvalue) : option (list Item) :=
  match v with
  | JSON.JVArr vs => mapM as_item vs
  | _ => None
  end.

(** A parsed value as the typed component takes it: [null], or a record of
    the declared shape; [None] for every other value. *)
Definition as_data (v : JSON.jvalue) : option json :=
  match v with
  | JSON.JVNull => Some JNull
  | JSON.JVObj ms =>
      its ← field as_items "items" ms;
      t ← field as_number "tax" ms;
      d ← field as_number "discount" ms;
      c ← field as_currency "currency" ms;
      ti ← field as_string "title" ms;
      n ← field as_string "invoiceNumber" ms;
      da ← field as_string "date" ms;
      Some (JData {| d_items := its; d_tax := t; d_discount := d; d_currency := c;
                     d_title := ti; d_invoiceNumber := n; d_date := da |})
  | _ => None
  end.

(** The values a number, a string, an item and a record parse back to:
    [null] stands for a number that is not finite. *)
Definition number_value (x : num) : JSON.jvalue :=
  match x with
  | Fin _ _ => JSON.JVNum x
  | _ => JSON.JVNull
  end.

Definition string_value (s : string) : JSON.jvalue := JSON.JVStr (JSON.units s).

Definition item_value (it : Item) : JSON.jvalue :=
  JSON.JVObj
    [ (JSON.units "description", string_value (description it));
      (JSON.units "quantity", number_value (quantity it));
      (JSON.units "price", number_value (price it)) ].

Definition data_value (d : InvoiceData) : JSON.jvalue :=
  JSON.JVObj
    [ (JSON.units "items", JSON.JVArr (map item_value (d_items d)));
      (JSON.units "tax", number_value (d_tax d));
      (JSON.units "discount", number_value (d_discount d));
      (JSON.units "currency", string_value (currency_code (d_currency d)));
      (JSON.units "title", string_value (d_title d));
      (JSON.units "invoiceNumber", string_value (d_invoiceNumber d));
      (JSON.units "date", string_value (d_date d)) ].

(** *** Predicates of the properties *)

(** A character a number can go on with. *)
Definition numeric (c : ascii) : bool :=
  is_digit c || Ascii.eqb c "." || Ascii.eqb c "e" || Ascii.eqb c "E".

(** [txt] reads back as [v]: with [n] units of fuel or more, before every
    rest that does not go on like a number. *)
Definition prints (n : nat) (txt : list ascii) (v : JSON.jvalue) : Prop :=
  forall f rest, (n <= f)%nat -> stops numeric rest ->
    JSON.parse_value f (txt ++ rest) = JSON.Ok v rest.

(** A text that starts with a brace. *)
Definition braced (txt : list ascii) : Prop := exists t, txt = "{"%char :: t.

(** The numbers of an item and of a record are in canonical form. *)
Definition item_wf (it : Item) : Prop := wf (quantity it) /\ wf (price it).

Definition data_wf (d : InvoiceData) : Prop :=
  Forall item_wf (d_items d) /\ wf (d_tax d) /\ wf (d_discount d).

(** A number other than [NaN] and the infinities. *)
Definition finite (x : num) : bool :=
  match x with
  | Fin _ _ => true
  | _ => false
  end.

(** A number the text holds: a short decimal, or a number that is not
    finite, which the text holds as [null]. *)
Definition printable (x : num) : bool := short x || negb (finite x).

(** A record whose numbers the text holds. *)
Definition data_printable (d : InvoiceData) : bool :=
  forallb (fun it => printable (quantity it) && printable (price it)) (d_items d)
  && printable (d_tax d) && printable (d_discount d).

(** A record whose numbers the text holds as they are: short decimals. *)
Definition storable (d : InvoiceData) : bool :=
  forallb (fun it => short (quantity it) && short (price it)) (d_items d)
  && short (d_tax d) && short (d_discount d).

(** A record of two rows, a tax of 7.5 percent and no discount. *)
Definition sampleData : InvoiceData :=
  {| d_items := [ {| description := "Logo design"; quantity := Fin 25 (-1);
                     price := of_Z 1200 |};
                  {| description := "Hosting, 1 year"; quantity := one;
                     price := Fin 9999 (-2) |} ];
     d_tax := Fin 75 (-1); d_discount := zero; d_currency := EUR;
     d_title := "Invoice"; d_invoiceNumber := "INV-042"; d_date := "2024-01-01" |}.

(** * Proofs *)

(** ** JavaScript numbers *)

(** *** Canonical representations *)

Lemma strip10_spec fuel : forall m e,
  m <> 0 -> Z.abs m < 2 ^ Z.of_nat fuel ->
  let '(m', e') := strip10 fuel m e in
  e <= e' /\ m = m' * 10 ^ (e' - e) /\ m' mod 10 <> 0.
Proof.
  induction fuel as [|f IH]; intros m e Hm Hlt.
  - change (2 ^ Z.of_nat 0) with 1 in Hlt. lia.
  - cbn [strip10]. destruct (Z.eqb_spec (m mod 10) 0) as [H0|H0].
    + assert (Hd : m = 10 * (m / 10)).
      { pose proof (Z.div_mod m 10). lia. }
      assert (Hq : m / 10 <> 0) by lia.
      assert (Hb : Z.abs (m / 10) < 2 ^ Z.of_nat f).
      { rewrite Nat2Z.inj_succ, Z.pow_succ_r in Hlt by lia. lia. }
      specialize (IH (m / 10) (e + 1) Hq Hb).
      destruct (strip10 f (m / 10) (e + 1)) as [m' e'].
      destruct IH as (Hle & Hv & Hnd). repeat split; [lia | | exact Hnd].
      replace (e' - e) with (Z.succ (e' - (e + 1))) by lia.
      rewrite Z.pow_succ_r by lia. rewrite Hd at 1. rewrite Hv at 1. ring.
    + replace (e - e) with 0 by lia. rewrite Z.pow_0_r. lia.
Qed.

Lemma canon_spec m e :
  m <> 0 ->
  let '(m', e') := canon m e in
  e <= e' /\ m = m' * 10 ^ (e' - e) /\ m' mod 10 <> 0.
Proof.
  intros Hm. unfold canon. destruct (Z.eqb_spec m 0) as [|_]; [lia|].
  apply strip10_spec; [exact Hm|].
  rewrite Nat2Z.inj_succ, Z2Nat.id by apply Z.log2_nonneg.
  assert (0 < Z.abs m) by lia.
  pose proof (Z.log2_spec (Z.abs m)). lia.
Qed.

(** A number has one canonical mantissa and exponent. *)
Lemma canon_unique m1 a m2 b :
  0 <= a -> 0 <= b -> m1 mod 10 <> 0 -> m2 mod 10 <> 0 ->
  m1 * 10 ^ a = m2 * 10 ^ b -> m1 = m2 /\ a = b.
Proof.
  assert (H : forall m1 a m2 b, 0 <= a <= b -> m1 mod 10 <> 0 ->
            m1 * 10 ^ a = m2 * 10 ^ b -> m1 = m2 /\ a = b).
  { clear. intros m1 a m2 b Hab H1 Heq.
    assert (Hp : 0 < 10 ^ a) by (apply Z.pow_pos_nonneg; lia).
    replace b with (a + (b - a)) in Heq by lia.
    rewrite Z.pow_add_r in Heq by lia.
    assert (Hm : m1 = m2 * 10 ^ (b - a)) by nia.
    destruct (Z.eq_dec a b) as [->|Hne].
    - rewrite Z.sub_diag, Z.pow_0_r in Hm. lia.
    - exfalso. apply H1. replace (b - a) with (Z.succ (b - a - 1)) in Hm by lia.
      rewrite Z.pow_succ_r in Hm by lia. subst m1.
      replace (m2 * (10 * 10 ^ (b - a - 1))) with ((m2 * 10 ^ (b - a - 1)) * 10) by ring.
      apply Z.mod_mul. lia. }
  intros Ha Hb H1 H2 Heq.
  destruct (Z.le_ge_cases a b) as [Hab|Hab].
  - apply H; [lia | assumption | assumption].
  - symmetry in Heq. destruct (H m2 b m1 a) as [-> ->]; auto; lia.
Qed.

Lemma canon_wf m e : wf (Fin m e) -> canon m e = (m, e).
Proof.
  unfold wf. destruct (Z.eqb_spec m 0) as [->|Hm]; intros Hw.
  - subst e. reflexivity.
  - pose proof (canon_spec m e Hm) as Hs.
    destruct (canon m e) as [m' e']. destruct Hs as (Hle & Hv & Hnd).
    destruct (canon_unique m 0 m' (e' - e)) as [-> He]; try lia; try assumption.
    f_equal. lia.
Qed.

Lemma norm_wf m e : wf (Fin m e) -> norm m e = Fin m e.
Proof. intros H. unfold norm. now rewrite canon_wf. Qed.

(** Scaling the mantissa by a power of ten is moving the exponent. *)
Lemma canon_scale m j e : 0 <= j -> canon (m * 10 ^ j) e = canon m (e + j).
Proof.
  intros Hj. destruct (Z.eq_dec m 0) as [->|Hm]; [reflexivity|].
  assert (Hp : 0 < 10 ^ j) by (apply Z.pow_pos_nonneg; lia).
  assert (Hmj : m * 10 ^ j <> 0) by nia.
  pose proof (canon_spec _ e Hmj) as H1. pose proof (canon_spec m (e + j) Hm) as H2.
  destruct (canon (m * 10 ^ j) e) as [m1 e1], (canon m (e + j)) as [m2 e2].
  destruct H1 as (Hl1 & Hv1 & Hn1), H2 as (Hl2 & Hv2 & Hn2).
  assert (Heq : m1 * 10 ^ (e1 - e) = m2 * 10 ^ (e2 - e)).
  { rewrite <- Hv1. rewrite Hv2 at 1.
    replace (e2 - e) with ((e2 - (e + j)) + j) by lia.
    rewrite Z.pow_add_r by lia. ring. }
  destruct (canon_unique m1 (e1 - e) m2 (e2 - e)) as [-> He]; try lia; try assumption.
  f_equal. lia.
Qed.

Lemma norm_scale m j e : 0 <= j -> norm (m * 10 ^ j) e = norm m (e + j).
Proof. intros H. unfold norm. now rewrite canon_scale. Qed.

Lemma wf_norm m e : wf (norm m e).
Proof.
  unfold norm. destruct (Z.eq_dec m 0) as [->|Hm]; [reflexivity|].
  pose proof (canon_spec m e Hm) as H. destruct (canon m e) as [m' e'].
  destruct H as (_ & _ & Hn). unfold wf.
  destruct (Z.eqb_spec m' 0) as [->|_]; [now rewrite Z.mod_0_l in Hn|exact Hn].
Qed.

Lemma mod10_opp m : m mod 10 <> 0 -> (- m) mod 10 <> 0.
Proof.
  intros H Hc. apply H. revert Hc. Z.div_mod_to_equations. lia.
Qed.

Lemma wf_nneg x : wf x -> wf (nneg x).
Proof.
  destruct x as [| b | m e]; simpl; auto.
  destruct (Z.eqb_spec m 0) as [->|Hm]; simpl; auto.
  destruct (Z.eqb_spec (- m) 0); [lia|]. apply mod10_opp.
Qed.

(** *** Digit strings *)

Lemma digit_char_spec d :
  0 <= d < 10 -> is_digit (digit_char d) = true /\ digit_val (digit_char d) = d.
Proof.
  intros H.
  assert (Hd : d = 0 \/ d = 1 \/ d = 2 \/ d = 3 \/ d = 4 \/ d = 5 \/ d = 6
               \/ d = 7 \/ d = 8 \/ d = 9) by lia.
  decompose [or] Hd; subst d; split; reflexivity.
Qed.

(** What separates a digit from the other characters the parsers test. *)
Lemma digit_other c :
  is_digit c = true ->
  is_space c = false /\ Ascii.eqb c "-" = false /\ Ascii.eqb c "+" = false /\
  Ascii.eqb c "." = false /\ Ascii.eqb c "e" = false /\ Ascii.eqb c "E" = false /\
  Ascii.eqb "I" c = false /\ Ascii.eqb c "x" = false /\ Ascii.eqb c "X" = false.
Proof.
  destruct c as [[] [] [] [] [] [] [] []]; intros H;
    first [ discriminate H | repeat split; reflexivity ].
Qed.

Lemma digits_val_acc r val l : forall a,
  fold_left (fun acc c => r * acc + val c) l a
  = a * r ^ Z.of_nat (length l) + digits_val r val l.
Proof.
  unfold digits_val. induction l as [|c t IH]; intros a.
  - cbn [fold_left length]. change (Z.of_nat 0) with 0. rewrite Z.pow_0_r. lia.
  - cbn [fold_left length]. rewrite IH, (IH (r * 0 + val c)).
    rewrite Nat2Z.inj_succ, Z.pow_succ_r by lia. ring.
Qed.

Lemma dec_val_app l1 l2 :
  dec_val (l1 ++ l2) = dec_val l1 * 10 ^ Z.of_nat (length l2) + dec_val l2.
Proof.
  unfold dec_val at 1. unfold digits_val. rewrite fold_left_app.
  now rewrite digits_val_acc.
Qed.

Lemma dec_val_cons c l :
  dec_val (c :: l) = digit_val c * 10 ^ Z.of_nat (length l) + dec_val l.
Proof.
  change (c :: l) with ([c] ++ l). rewrite dec_val_app.
  replace (dec_val [c]) with (digit_val c); [reflexivity|].
  unfold dec_val, digits_val. cbn [fold_left]. lia.
Qed.

Lemma length_zeros n : 0 <= n -> Z.of_nat (length (zeros n)) = n.
Proof. intros H. unfold zeros. rewrite repeat_length. lia. Qed.

Lemma all_digits_zeros n : all_digits (zeros n).
Proof.
  unfold zeros. induction (Z.to_nat n); constructor; [reflexivity | assumption].
Qed.

Lemma dec_val_zeros n : dec_val (zeros n) = 0.
Proof.
  unfold zeros. induction (Z.to_nat n) as [|k IH]; [reflexivity|].
  cbn [repeat]. rewrite dec_val_cons, IH. change (digit_val "0") with 0. lia.
Qed.

Lemma digits_aux_spec f : forall n acc,
  0 <= n < 2 ^ Z.of_nat (S f) ->
  exists ds, digits_aux (S f) n acc = ds ++ acc /\ all_digits ds /\ dec_val ds = n
             /\ (1 <= length ds)%nat
             /\ (0 < n -> 10 ^ (Z.of_nat (length ds) - 1) <= n).
Proof.
  induction f as [|f IH]; intros n acc Hn.
  - change (2 ^ Z.of_nat 1) with 2 in Hn. cbn [digits_aux].
    destruct (Z.ltb_spec n 10) as [_|?]; [|lia].
    assert (Hm : n mod 10 = n) by (apply Z.mod_small; lia). rewrite Hm.
    destruct (digit_char_spec n) as [Hd Hv]; [lia|].
    exists [digit_char n]. repeat split.
    + constructor; [exact Hd | constructor].
    + rewrite dec_val_cons. cbn. lia.
    + cbn. lia.
    + cbn. lia.
  - remember (S f) as f'. cbn [digits_aux].
    destruct (digit_char_spec (n mod 10)) as [Hd Hv]; [apply Z.mod_pos_bound; lia|].
    destruct (Z.ltb_spec n 10) as [Hlt|Hge].
    + assert (Hm : n mod 10 = n) by (apply Z.mod_small; lia). rewrite Hm in *.
      exists [digit_char n]. repeat split.
      * constructor; [exact Hd | constructor].
      * rewrite dec_val_cons. cbn. lia.
      * cbn. lia.
      * cbn. lia.
    + assert (Hq : 0 <= n / 10 < 2 ^ Z.of_nat f').
      { rewrite Nat2Z.inj_succ, Z.pow_succ_r in Hn by lia.
        split; [apply Z.div_pos; lia|].
        apply Z.div_lt_upper_bound; lia. }
      subst f'. destruct (IH (n / 10) (digit_char (n mod 10) :: acc) Hq)
        as (ds & Heq & Hall & Hval & Hlen & Hlow).
      exists (ds ++ [digit_char (n mod 10)]). repeat split.
      * rewrite Heq. now rewrite <- app_assoc.
      * apply Forall_app. split; [exact Hall|]. constructor; [exact Hd | constructor].
      * rewrite dec_val_app, Hval, dec_val_cons, Hv. cbn.
        pose proof (Z.div_mod n 10). lia.
      * rewrite length_app. cbn. lia.
      * intros _. rewrite length_app. cbn [length].
        assert (Hpos : 0 < n / 10) by (apply Z.div_str_pos; lia).
        specialize (Hlow Hpos).
        replace (Z.of_nat (length ds + 1) - 1) with (Z.succ (Z.of_nat (length ds) - 1)) by lia.
        rewrite Z.pow_succ_r by lia. pose proof (Z.div_mod n 10).
        pose proof (Z.mod_pos_bound n 10). lia.
Qed.

Lemma digits_spec n :
  0 <= n ->
  all_digits (digits n) /\ dec_val (digits n) = n /\ (1 <= length (digits n))%nat
  /\ (0 < n -> 10 ^ (Z.of_nat (length (digits n)) - 1) <= n).
Proof.
  intros Hn. unfold digits.
  destruct (digits_aux_spec (Z.to_nat (Z.log2 n)) n [])
    as (ds & Heq & H); [|rewrite Heq, app_nil_r; exact H].
  split; [exact Hn|]. rewrite Nat2Z.inj_succ, Z2Nat.id by apply Z.log2_nonneg.
  destruct (Z.eq_dec n 0) as [->|Hne]; [reflexivity|].
  pose proof (Z.log2_spec n). lia.
Qed.

(** *** Lexing *)

Lemma span_app p ds r :
  Forall (fun c => p c = true) ds -> stops p r -> span p (ds ++ r) = (ds, r).
Proof.
  intros Hall Hr. induction Hall as [|c t Hc _ IH].
  - destruct r as [|c r]; [reflexivity|]. cbn in *. now rewrite Hr.
  - cbn. now rewrite Hc, IH.
Qed.

Lemma span_all p ds : Forall (fun c => p c = true) ds -> span p ds = (ds, []).
Proof. intros H. rewrite <- (app_nil_r ds) at 1. now apply span_app. Qed.

Lemma not_infinity c l :
  is_digit c = true -> starts_with (list_ascii_of_string "Infinity") (c :: l) = false.
Proof.
  intros H. apply digit_other in H as (_ & _ & _ & _ & _ & _ & HI & _).
  change (list_ascii_of_string "Infinity")
    with ("I"%char :: list_ascii_of_string "nfinity").
  cbn [starts_with]. now rewrite HI.
Qed.

(** An integer literal: digits followed by no digit and no dot. *)
Lemma unsigned_decimal_int d1 r :
  all_digits d1 -> d1 <> [] ->
  stops (fun c => is_digit c || Ascii.eqb c ".") r ->
  unsigned_decimal (d1 ++ r)
  = let '(ex, r3) := exponent_part r in Some (norm (dec_val d1) ex, r3).
Proof.
  intros Hall Hne Hr. unfold unsigned_decimal.
  assert (Hr1 : stops is_digit r).
  { destruct r as [|c r]; [exact I|]. cbn in *. now apply orb_false_iff in Hr. }
  destruct d1 as [|c d1]; [congruence|].
  rewrite <- app_comm_cons, not_infinity by (now inversion Hall).
  rewrite app_comm_cons, span_app by assumption.
  assert (Hdot : match r with
                 | c0 :: t => if Ascii.eqb c0 "." then span is_digit t else ([], r)
                 | [] => ([], r)
                 end = ([], r)).
  { destruct r as [|c0 r]; [reflexivity|]. cbn in Hr.
    apply orb_false_iff in Hr as [_ ->]. reflexivity. }
  rewrite Hdot, app_nil_r. cbn [length]. change (Z.of_nat 0) with 0.
  destruct (exponent_part r) as [ex r3]. now rewrite Z.sub_0_r.
Qed.

(** A literal with a fraction: digits, a dot, digits. *)
Lemma unsigned_decimal_frac d1 d2 r :
  all_digits d1 -> d1 <> [] -> all_digits d2 -> stops is_digit r ->
  unsigned_decimal (d1 ++ "."%char :: d2 ++ r)
  = let '(ex, r3) := exponent_part r in
    Some (norm (dec_val (d1 ++ d2)) (ex - Z.of_nat (length d2)), r3).
Proof.
  intros H1 Hne H2 Hr. unfold unsigned_decimal.
  destruct d1 as [|c d1]; [congruence|].
  rewrite <- app_comm_cons, not_infinity by (now inversion H1).
  rewrite app_comm_cons, span_app; [|assumption|reflexivity].
  change (Ascii.eqb "." ".") with true. cbv iota.
  rewrite span_app by assumption.
  rewrite <- app_comm_cons. now destruct (exponent_part r) as [ex r3].
Qed.

Lemma exponent_part_digits ex :
  exponent_part ("e"%char :: (if ex <? 0 then "-"%char else "+"%char) :: digits (Z.abs ex))
  = (ex, []).
Proof.
  destruct (digits_spec (Z.abs ex)) as (Hall & Hval & Hlen & _); [lia|].
  unfold exponent_part. change (Ascii.eqb "e" "e" || Ascii.eqb "e" "E") with true.
  cbv iota.
  destruct (Z.ltb_spec ex 0) as [Hneg|Hpos]; cbn [split_sign];
    [change (Ascii.eqb "-" "-") with true
    |change (Ascii.eqb "+" "-") with false; change (Ascii.eqb "+" "+") with true];
    cbv iota; rewrite span_all by assumption;
    (destruct (digits (Z.abs ex)) as [|c t]; [cbn in Hlen; lia|]);
    f_equal; lia.
Qed.

(** *** Printing a number and reading it back *)

Lemma unsigned_chars_head m e :
  0 < m -> exists c t, unsigned_chars m e = c :: t /\ is_digit c = true.
Proof.
  intros Hm. destruct (digits_spec m) as (Hall & _ & Hlen & _); [lia|].
  unfold unsigned_chars. destruct (digits m) as [|c s]; [cbn in Hlen; lia|].
  assert (Hc : is_digit c = true) by (now inversion Hall).
  cbv zeta. set (k := Z.of_nat (length (c :: s))). set (n := k + e).
  destruct ((k <=? n) && (n <=? 21)); [rewrite <- app_comm_cons; eauto|].
  destruct ((0 <? n) && (n <=? 21)) eqn:Hb.
  { apply andb_true_iff in Hb as [Hb _]. apply Z.ltb_lt in Hb.
    destruct (Z.to_nat n) as [|j] eqn:Hj; [lia|].
    cbn [take]. rewrite <- app_comm_cons. eauto. }
  destruct ((-6 <? n) && (n <=? 0)); [eauto|].
  destruct s; eauto.
Qed.

Lemma unsigned_roundtrip m e :
  0 < m -> m mod 10 <> 0 ->
  unsigned_decimal (unsigned_chars m e) = Some (Fin m e, []).
Proof.
  intros Hm Hnd.
  assert (Hwf : wf (Fin m e)).
  { unfold wf. destruct (Z.eqb_spec m 0); [lia | assumption]. }
  destruct (digits_spec m) as (Hall & Hval & Hlen & _); [lia|].
  unfold unsigned_chars. remember (digits m) as s eqn:Hs. clear Hs.
  cbv zeta.
  destruct ((Z.of_nat (length s) <=? Z.of_nat (length s) + e)
            && (Z.of_nat (length s) + e <=? 21)) eqn:Ha.
  { (* digits and zeros *)
    apply andb_true_iff in Ha as [Ha1 Ha2]. apply Z.leb_le in Ha1, Ha2.
    rewrite <- (app_nil_r (s ++ zeros _)).
    rewrite unsigned_decimal_int; [| | |exact I].
    - cbn [exponent_part]. rewrite dec_val_app, dec_val_zeros, length_zeros, Hval by lia.
      rewrite Z.add_0_r, norm_scale by lia.
      replace (0 + _) with e by lia. now rewrite norm_wf.
    - apply Forall_app. split; [assumption | apply all_digits_zeros].
    - destruct s; [cbn in Hlen; lia | discriminate]. }
  destruct ((0 <? Z.of_nat (length s) + e) && (Z.of_nat (length s) + e <=? 21)) eqn:Hb.
  { (* a dot inside the digits *)
    apply andb_true_iff in Hb as [Hb1 Hb2]. apply Z.ltb_lt in Hb1. apply Z.leb_le in Hb2.
    apply andb_false_iff in Ha as [Ha|Ha]; [apply Z.leb_gt in Ha | apply Z.leb_gt in Ha; lia].
    rewrite <- (app_nil_r (drop _ s)).
    rewrite unsigned_decimal_frac; [| | | |exact I].
    - cbn [exponent_part]. rewrite take_drop, Hval, length_drop.
      replace (0 - _) with e by lia. now rewrite norm_wf.
    - now apply Forall_take.
    - destruct s as [|c s]; [cbn in Hlen; lia|].
      destruct (Z.to_nat (Z.of_nat (length (c :: s)) + e)) eqn:Hj; [lia | discriminate].
    - now apply Forall_drop. }
  destruct ((-6 <? Z.of_nat (length s) + e) && (Z.of_nat (length s) + e <=? 0)) eqn:Hc.
  { (* leading zeros after the dot *)
    apply andb_true_iff in Hc as [Hc1 Hc2]. apply Z.ltb_lt in Hc1. apply Z.leb_le in Hc2.
    change ("0"%char :: "."%char :: zeros (- (Z.of_nat (length s) + e)) ++ s)
      with (["0"%char] ++ "."%char :: zeros (- (Z.of_nat (length s) + e)) ++ s).
    rewrite <- (app_nil_r s) at 2. rewrite app_assoc.
    rewrite unsigned_decimal_frac; [| | | |exact I].
    - cbn [exponent_part]. rewrite length_app, Nat2Z.inj_add, length_zeros by lia.
      cbn [app]. rewrite dec_val_cons, dec_val_app, dec_val_zeros, Hval.
      change (digit_val "0") with 0.
      rewrite <- (norm_wf m e Hwf). do 3 f_equal; lia.
    - constructor; [reflexivity | constructor].
    - discriminate.
    - apply Forall_app. split; [apply all_digits_zeros | assumption]. }
  (* exponent notation *)
  destruct s as [|d [|d' rest]]; [cbn in Hlen; lia | |].
  - change (d :: "e"%char :: ?r) with ([d] ++ "e"%char :: r).
    rewrite unsigned_decimal_int; [| assumption | discriminate | reflexivity].
    rewrite exponent_part_digits, Hval. cbn [length].
    replace (Z.of_nat 1 + e - 1) with e by lia. now rewrite norm_wf.
  - match goal with
    | |- context [d :: "."%char :: ?a ++ ?b] =>
        change (d :: "."%char :: a ++ b) with ([d] ++ "."%char :: a ++ b)
    end.
    rewrite unsigned_decimal_frac; [| | discriminate | | reflexivity].
    + rewrite exponent_part_digits. cbn [app]. rewrite Hval.
      replace (_ - 1 - _) with e by (cbn [length]; lia). now rewrite norm_wf.
    + constructor; [now inversion Hall | constructor].
    + now inversion Hall.
Qed.

(** Reading back what [String] printed gives the number itself. *)
Lemma parseFloat_String x : wf x -> parseFloat (String x) = x.
Proof.
  intros Hwf. unfold parseFloat, String.
  rewrite list_ascii_of_string_of_list_ascii.
  destruct x as [| [|] | m e]; try reflexivity.
  unfold num_chars. rewrite (canon_wf _ _ Hwf).
  unfold wf in Hwf. destruct (Z.eqb_spec m 0) as [->|Hm0].
  - subst e. reflexivity.
  - destruct (Z.ltb_spec m 0) as [Hneg|Hpos].
    + unfold parseFloat_chars. cbn [trim_start]. change (is_space "-") with false.
      cbv iota. cbn [split_sign]. change (Ascii.eqb "-" "-") with true. cbv iota.
      rewrite unsigned_roundtrip by (try apply mod10_opp; try assumption; lia).
      cbn [nneg]. now rewrite Z.opp_involutive.
    + destruct (unsigned_chars_head m e) as (c & t & Heq & Hc); [lia|].
      pose proof (unsigned_roundtrip m e ltac:(lia) Hwf) as Hrt.
      rewrite Heq in *. apply digit_other in Hc as (Hsp & Hmi & Hpl & _).
      unfold parseFloat_chars. cbn [trim_start]. rewrite Hsp.
      cbn [split_sign]. rewrite Hmi, Hpl. now rewrite Hrt.
Qed.

(** [String] tells canonical numbers apart. *)
Lemma String_inj x y : wf x -> wf y -> String x = String y -> x = y.
Proof.
  intros Hx Hy H. rewrite <- (parseFloat_String x Hx), <- (parseFloat_String y Hy).
  now rewrite H.
Qed.

(** A whole number below [10^21] prints in plain digits, and [parseInt]
    reads it back. *)
Lemma parseInt_String_int m e :
  wf (Fin m e) -> 0 < m -> 0 <= e -> m * 10 ^ e < 10 ^ 21 ->
  parseInt (String (Fin m e)) = Fin m e.
Proof.
  intros Hwf Hm He Hlt. unfold parseInt, String.
  rewrite list_ascii_of_string_of_list_ascii.
  unfold num_chars. rewrite (canon_wf _ _ Hwf).
  destruct (Z.eqb_spec m 0) as [|_]; [lia|].
  destruct (Z.ltb_spec m 0) as [|_]; [lia|].
  destruct (digits_spec m) as (Hall & Hval & Hlen & Hlow); [lia|].
  specialize (Hlow Hm). unfold unsigned_chars. cbv zeta.
  assert (Hn : Z.of_nat (length (digits m)) + e <= 21).
  { assert (Hp : 10 ^ (Z.of_nat (length (digits m)) - 1 + e) < 10 ^ 21).
    { rewrite Z.pow_add_r by lia.
      assert (0 < 10 ^ e) by (apply Z.pow_pos_nonneg; lia). nia. }
    apply Z.pow_lt_mono_r_iff in Hp; lia. }
  destruct (Z.leb_spec (Z.of_nat (length (digits m))) (Z.of_nat (length (digits m)) + e));
    [|lia].
  destruct (Z.leb_spec (Z.of_nat (length (digits m)) + e) 21); [|lia].
  cbn [andb]. replace (_ + e - _) with e by lia.
  assert (Hds : all_digits (digits m ++ zeros e)).
  { apply Forall_app. split; [assumption | apply all_digits_zeros]. }
  assert (Hv : dec_val (digits m ++ zeros e) = m * 10 ^ e).
  { rewrite dec_val_app, dec_val_zeros, length_zeros, Hval by lia. lia. }
  remember (digits m ++ zeros e) as t eqn:Ht.
  assert (Hne : t <> []).
  { subst t. destruct (digits m); [cbn in Hlen; lia | discriminate]. }
  unfold parseInt_chars.
  destruct t as [|c0 t]; [congruence|].
  assert (Hc0 : is_digit c0 = true) by (now inversion Hds).
  apply digit_other in Hc0 as (Hsp & Hmi & Hpl & _).
  cbn [trim_start]. rewrite Hsp. cbn [split_sign]. rewrite Hmi, Hpl.
  unfold read_integer.
  assert (Hhex : match c0 :: t with
                 | c0 :: c1 :: r =>
                     if Ascii.eqb c0 "0" && (Ascii.eqb c1 "x" || Ascii.eqb c1 "X")
                     then (true, r) else (false, c0 :: t)
                 | _ => (false, c0 :: t)
                 end = (false, c0 :: t)).
  { destruct t as [|c1 r]; [reflexivity|].
    assert (Hc1 : is_digit c1 = true) by (inversion Hds as [|? ? _ Hr]; now inversion Hr).
    apply digit_other in Hc1 as (_ & _ & _ & _ & _ & _ & _ & -> & ->).
    now rewrite andb_false_r. }
  rewrite Hhex, span_all by assumption.
  rewrite Hv. unfold of_Z. rewrite norm_scale by lia. now rewrite norm_wf.
Qed.






Lemma unsigned_decimal_wf l v r : unsigned_decimal l = Some (v, r) -> wf v.
Proof.
  unfold unsigned_decimal.
  destruct (starts_with _ l); [intros [= <- _]; exact I|].
  destruct (span is_digit l) as [d1 r1].
  destruct (match r1 with
            | c :: t => if Ascii.eqb c "." then span is_digit t else ([], r1)
            | [] => ([], r1)
            end) as [d2 r2].
  destruct (d1 ++ d2); [discriminate|].
  destruct (exponent_part r2) as [ex r3]. intros [= <- _]. apply wf_norm.
Qed.

(** Every number read from a string is in canonical form. *)
Lemma Number_wf s : wf (Number (VStr s)).
Proof.
  assert (Hnd : forall r p val l, wf (nondecimal r p val l)).
  { intros r p val l. unfold nondecimal. destruct l; [exact I|].
    destruct (forallb p _); [apply wf_norm | exact I]. }
  assert (Hdec : forall t, wf (let '(neg, u) := split_sign t in
                               match unsigned_decimal u with
                               | Some (v, []) => if neg then nneg v else v
                               | _ => NaN
                               end)).
  { intros t. destruct (split_sign t) as [neg u].
    destruct (unsigned_decimal u) as [[v [|c r]]|] eqn:Hu; try exact I.
    apply unsigned_decimal_wf in Hu. destruct neg; [now apply wf_nneg | exact Hu]. }
  unfold Number, StringToNumber_chars. cbv zeta.
  destruct (trim (list_ascii_of_string s)) as [|c0 [|c1 r]] eqn:Ht.
  - reflexivity.
  - apply (Hdec [c0]).
  - destruct (Ascii.eqb c0 "0"); [|apply (Hdec (c0 :: c1 :: r))].
    destruct (_ || _); [apply Hnd|].
    destruct (_ || _); [apply Hnd|].
    destruct (_ || _); [apply Hnd|].
    apply (Hdec (c0 :: c1 :: r)).
Qed.

Lemma wfb_wf x : wfb x = true -> wf x.
Proof.
  destruct x as [| b | m e]; cbn; auto.
  destruct (m =? 0); [apply Z.eqb_eq|].
  intros H Hc. apply Z.eqb_eq in Hc. now rewrite Hc in H.
Qed.

(** *** The conversions on known values *)

Example String_samples :
  String (of_Z 1000000000000000000000) = "1e+21"%string
  /\ String (of_Z 123456789012345680000) = "123456789012345680000"%string
  /\ String (Fin 123456 (-3)) = "123.456"%string
  /\ String (Fin 1 (-6)) = "0.000001"%string
  /\ String (Fin 1 (-7)) = "1e-7"%string
  /\ String (Fin 15 (-8)) = "1.5e-7"%string
  /\ String (Fin (-25) 20) = "-2.5e+21"%string
  /\ String (of_Z (-120)) = "-120"%string
  /\ String zero = "0"%string
  /\ String NaN = "NaN"%string
  /\ String (Inf true) = "-Infinity"%string.
Proof. repeat split; vm_compute; reflexivity. Qed.

Example parseInt_samples :
  parseInt "1e+21" = one
  /\ parseInt "42px" = of_Z 42
  /\ parseInt "  -12.7" = of_Z (-12)
  /\ parseInt "0.5" = zero
  /\ parseInt "0x1F" = of_Z 31
  /\ parseInt "" = NaN
  /\ parseInt "abc" = NaN
  /\ parseInt "Infinity" = NaN.
Proof. repeat split; vm_compute; reflexivity. Qed.

Example parseFloat_samples :
  parseFloat "12.50abc" = Fin 125 (-1)
  /\ parseFloat ".5" = Fin 5 (-1)
  /\ parseFloat "5." = of_Z 5
  /\ parseFloat "1e+21" = Fin 1 21
  /\ parseFloat "1e" = one
  /\ parseFloat "-Infinity" = Inf true
  /\ parseFloat "0x10" = zero
  /\ parseFloat "." = NaN
  /\ parseFloat "abc" = NaN.
Proof. repeat split; vm_compute; reflexivity. Qed.

Example Number_samples :
  Number (VStr "") = zero
  /\ Number (VStr " 12 ") = of_Z 12
  /\ Number (VStr "12px") = NaN
  /\ Number (VStr "1e21") = Fin 1 21
  /\ Number (VStr "0x10") = of_Z 16
  /\ Number (VStr "-0x10") = NaN
  /\ Number (VStr "0b101") = of_Z 5
  /\ Number (VStr "-.5") = Fin (-5) (-1)
  /\ Number (VStr "abc") = NaN.
Proof. repeat split; vm_compute; reflexivity. Qed.

Example arithmetic_samples :
  (Fin 5 (-1) + Fin 25 (-2))%num = Fin 75 (-2)
  /\ (of_Z 20 + of_Z 2 - one)%num = of_Z 21
  /\ (div100 (of_Z 10) * of_Z 20)%num = of_Z 2
  /\ (Inf false * zero)%num = NaN
  /\ (Inf false - Inf false)%num = NaN
  /\ nlt NaN one = false
  /\ nlt zero one = true
  /\ (NaN ||| zero)%num = zero
  /\ (zero ||| one)%num = one.
Proof. repeat split; vm_compute; reflexivity. Qed.

(** ** Properties of the totals calculator *)

Lemma nmul_one_r x : wf x -> (x * one)%num = x.
Proof.
  destruct x as [| b | m e]; intros Hwf; [reflexivity | now destruct b |].
  unfold nmul, one. rewrite Z.mul_1_r, Z.add_0_r. now apply norm_wf.
Qed.

Lemma price_reads_back p :
  wfb p = true -> nge p zero = true -> (parseFloat (String p) ||| zero)%num = p.
Proof.
  intros Hwf Hge. apply wfb_wf in Hwf. rewrite parseFloat_String by assumption.
  destruct p as [| b | m e]; try discriminate; try reflexivity.
  unfold nor, truthy. destruct (Z.eqb_spec m 0) as [->|_]; [|reflexivity].
  cbn in Hwf. now subst e.
Qed.

Lemma quantity_bounds m e :
  0 <= e -> nge (Fin m e) one = true -> nlt (Fin m e) (Fin 1 21) = true ->
  0 < m /\ m * 10 ^ e < 10 ^ 21.
Proof.
  intros He Hge Hlt. unfold nge, nlt, one in *.
  apply negb_true_iff, Z.ltb_ge in Hge. apply Z.ltb_lt in Hlt.
  rewrite Z.min_r in Hge by lia.
  rewrite !Z.sub_0_r, Z.pow_0_r in Hge.
  assert (Hp : 0 < 10 ^ e) by (apply Z.pow_pos_nonneg; lia).
  split; [nia|].
  destruct (Z.le_ge_cases e 21) as [Hle|Hle].
  - rewrite Z.min_l, Z.sub_diag, Z.pow_0_r in Hlt by lia.
    assert (Hs : 10 ^ 21 = 10 ^ (21 - e) * 10 ^ e).
    { rewrite <- Z.pow_add_r by lia. f_equal. lia. }
    rewrite Hs. nia.
  - rewrite Z.min_r, Z.sub_diag, Z.pow_0_r in Hlt by lia.
    assert (0 < 10 ^ (e - 21)) by (apply Z.pow_pos_nonneg; lia). nia.
Qed.

(** The totals of one item of quantity 2 and price 10 with a tax of 10 and
    a discount of 5 percent: 20, 2, 1 and 21. *)
Example calcTotals_scenario :
  calcTotals [itemA] (of_Z 10) (of_Z 5)
  = {| subtotal := of_Z 20; taxValue := of_Z 2;
       discountValue := of_Z 1; total := of_Z 21 |}.
Proof. vm_compute. reflexivity. Qed.

(** C1, where the code departs from it: [calcTotals] reads a quantity
    through [parseInt(String(quantity))].  A quantity of [10^21], a whole
    number above 1, at a price of 1: [String] prints it as ["1e+21"],
    [parseInt] reads 1, and the subtotal is the price, 1, where the sum of
    price times quantity is [10^21]. *)
Lemma calcTotals_huge_quantity :
  wfb (price itemHuge) && nge (price itemHuge) zero
  && whole (quantity itemHuge) && nge (quantity itemHuge) one = true
  /\ String (quantity itemHuge) = "1e+21"%string
  /\ parseInt (String (quantity itemHuge)) = one
  /\ subtotal (calcTotals [itemHuge] zero zero) = one
  /\ lineSum [itemHuge] = Fin 1 21
  /\ subtotal (calcTotals [itemHuge] zero zero) <> lineSum [itemHuge].
Proof. repeat split; try (vm_compute; reflexivity). vm_compute. discriminate. Qed.



(** C10: the subtotal is the sum of the preview's row totals; a row whose
    parsed quantity is falsy (0 or NaN, as for a quantity of 0) counts its
    parsed price once, which for a quantity of 0 and a price [p >= 0] is
    [p]; a NaN tax or discount gives the totals of a tax or discount of 0,
    and the preview shows it as 0. *)
Theorem falsy_values_defaulted :
  (forall items tax discount,
     subtotal (calcTotals items tax discount)
     = fold_left (fun sum item => sum + rowTotal item)%num items zero)
  /\ (forall item,
        truthy (parseInt (String (quantity item))) = false ->
        rowTotal item = ((parseFloat (String (price item)) ||| zero) * one)%num)
  /\ (forall item,
        quantity item = zero \/ quantity item = NaN \/ quantity item = Fin 5 (-1) ->
        truthy (parseInt (String (quantity item))) = false)
  /\ (forall item,
        quantity item = zero ->
        wfb (price item) = true -> nge (price item) zero = true ->
        rowTotal item = price item)
  /\ (forall items discount,
        calcTotals items NaN discount = calcTotals items zero discount)
  /\ (forall items tax,
        calcTotals items tax NaN = calcTotals items tax zero)
  /\ shownPercent NaN = zero.
Proof.
  split; [|split; [|split; [|split; [|split; [|split]]]]].
  - intros items tax discount. reflexivity.
  - intros item H. unfold rowTotal, nor at 2. now rewrite H.
  - intros item [H | [H | H]]; rewrite H; vm_compute; reflexivity.
  - intros item Hq Hwf Hge. unfold rowTotal.
    rewrite price_reads_back, Hq by assumption.
    change (parseInt (String zero) ||| one)%num with one.
    apply nmul_one_r. now apply wfb_wf.
  - intros items discount. reflexivity.
  - intros items tax. reflexivity.
  - reflexivity.
Qed.

(** A row with quantity 0 and price 7 counts 7. *)
Lemma falsy_values_defaulted_witness :
  rowTotal {| description := ""; quantity := zero; price := of_Z 7 |} = of_Z 7.
Proof.
  apply (proj1 (proj2 (proj2 (proj2 falsy_values_defaulted)))
           {| description := ""; quantity := zero; price := of_Z 7 |});
    vm_compute; reflexivity.
Defined.

(** ** Properties of the history *)

Lemma history_okb_ok s : history_okb s = true -> history_ok s.
Proof.
  unfold history_okb, history_ok. intros H.
  apply andb_true_iff in H as [H H3]. apply andb_true_iff in H as [H1 H2].
  apply Z.leb_le in H1, H2. apply Nat.leb_le in H3. lia.
Qed.

Lemma slice_prefix {A : Type} (l : list A) (i : Z) :
  -1 <= i -> slice l 0 (i + 1) = take (Z.to_nat (i + 1)) l.
Proof.
  intros Hi. unfold slice. cbv zeta.
  destruct (Z.ltb_spec 0 0) as [|_]; [lia|].
  destruct (Z.ltb_spec (i + 1) 0) as [|_]; [lia|].
  rewrite (Z.min_l 0) by lia. rewrite Z.sub_0_r.
  change (Z.to_nat 0) with 0%nat. rewrite drop_0.
  destruct (Z.le_ge_cases (i + 1) (Z.of_nat (length l))) as [H|H].
  - now rewrite Z.min_l by lia.
  - rewrite Z.min_r by lia. rewrite Nat2Z.id, !take_ge; [reflexivity | lia | lia].
Qed.

Lemma slice_from_last {A : Type} (l : list A) :
  (50 < length l)%nat -> slice_from l (-50) = drop (length l - 50) l.
Proof.
  intros H. unfold slice_from, slice. cbv zeta.
  destruct (Z.ltb_spec (-50) 0) as [_|]; [|lia].
  destruct (Z.ltb_spec (Z.of_nat (length l)) 0) as [|_]; [lia|].
  rewrite Z.max_l, Z.min_id by lia.
  replace (Z.to_nat (Z.of_nat (length l) + -50)) with (length l - 50)%nat by lia.
  apply take_ge. rewrite length_drop. lia.
Qed.

Lemma lastn_short {A : Type} n (l : list A) : (length l <= n)%nat -> lastn n l = l.
Proof. intros H. unfold lastn. now replace (length l - n)%nat with 0%nat by lia. Qed.

Lemma length_lastn {A : Type} n (l : list A) : length (lastn n l) = Nat.min n (length l).
Proof. unfold lastn. rewrite length_drop. lia. Qed.

Lemma lastn_snoc {A : Type} n (l : list A) x :
  (0 < n)%nat -> lastn n (lastn n l ++ [x]) = lastn n (l ++ [x]).
Proof.
  intros Hn. destruct (Nat.le_gt_cases (length l) n) as [H|H].
  - now rewrite (lastn_short n l).
  - unfold lastn. rewrite !length_app, length_drop. cbn [length].
    rewrite !drop_app_le by (rewrite ?length_drop; lia).
    rewrite drop_drop. do 2 f_equal. lia.
Qed.

Lemma lastn_app_r {A : Type} n (l k : list A) :
  (n <= length k)%nat -> lastn n (l ++ k) = lastn n k.
Proof.
  intros H. unfold lastn. rewrite length_app.
  replace (length l + length k - n)%nat with (length l + (length k - n))%nat by lia.
  now rewrite drop_app_add.
Qed.

(** What one [saveHistory] call leaves: the entries up to the cursor and the
    new snapshot, cut to the last 50; the cursor is the last index of the
    list before the cut. *)
Lemma saveHistory_spec newItems newTax newDiscount s :
  -1 <= historyIndex s ->
  let newHistory :=
    take (Z.to_nat (historyIndex s + 1)) (history s)
    ++ [ {| h_items := newItems; h_tax := newTax; h_discount := newDiscount |} ] in
  history (saveHistory newItems newTax newDiscount s) = lastn 50 newHistory
  /\ historyIndex (saveHistory newItems newTax newDiscount s)
     = Z.of_nat (length newHistory) - 1.
Proof.
  intros Hi. cbv zeta. unfold saveHistory. cbn [history historyIndex setHistory setHistoryIndex].
  rewrite slice_prefix by assumption. split; [|reflexivity].
  match goal with |- context [50 <? ?n] => destruct (Z.ltb_spec 50 n) as [H|H] end.
  - rewrite slice_from_last by lia. reflexivity.
  - rewrite lastn_short by lia. reflexivity.
Qed.

Lemma history_ok_saveHistory newItems newTax newDiscount s :
  history_ok s -> history_ok (saveHistory newItems newTax newDiscount s).
Proof.
  intros [Hi Hl]. destruct (saveHistory_spec newItems newTax newDiscount s) as [Hh Hx]; [lia|].
  unfold history_ok. rewrite Hh, Hx, length_lastn, !length_app, length_take. cbn [length]. lia.
Qed.

(** Recording a run of snapshots. *)
Lemma record_all_spec xs : forall s,
  (length (history s) <= 50)%nat -> -1 <= historyIndex s -> xs <> [] ->
  let all := take (Z.to_nat (historyIndex s + 1)) (history s) ++ xs in
  history (record_all xs s) = lastn 50 all
  /\ historyIndex (record_all xs s) = Z.min (Z.of_nat (length all)) 51 - 1.
Proof.
  induction xs as [|x xs IH] using rev_ind; intros s Hl Hi Hne; [congruence|].
  cbv zeta. unfold record_all. rewrite fold_left_app. cbn [fold_left].
  fold (record_all xs s). destruct xs as [|x0 xs0].
  - cbn [record_all fold_left app].
    destruct (saveHistory_spec (h_items x) (h_tax x) (h_discount x) s Hi) as [Hh Hx].
    rewrite Hh, Hx. destruct x. cbn [h_items h_tax h_discount]. split; [reflexivity|].
    rewrite length_app, length_take. cbn [length]. lia.
  - remember (x0 :: xs0) as xs eqn:Hxs.
    assert (Hne' : xs <> []) by (subst xs; discriminate).
    destruct (IH s Hl Hi Hne') as [Hh Hx]. clear IH.
    remember (record_all xs s) as s1 eqn:Hs1.
    set (all := take (Z.to_nat (historyIndex s + 1)) (history s) ++ xs) in *.
    assert (Hi1 : -1 <= historyIndex s1) by lia.
    destruct (saveHistory_spec (h_items x) (h_tax x) (h_discount x) s1 Hi1) as [Hh' Hx'].
    rewrite Hh', Hx'. destruct x as [xi xt xd]. cbn [h_items h_tax h_discount].
    assert (Htake : take (Z.to_nat (historyIndex s1 + 1)) (history s1) = lastn 50 all).
    { rewrite Hh. apply take_ge. rewrite length_lastn. lia. }
    rewrite Htake, app_assoc. fold all. split.
    + apply lastn_snoc. lia.
    + rewrite !length_app, length_lastn. cbn [length]. lia.
Qed.

(** More than 50 records in a row: the history is the last 50 of them, and
    the cursor is 50, one past its last index. *)
Lemma record_all_overflow xs s :
  (length (history s) <= 50)%nat -> -1 <= historyIndex s ->
  (50 < length xs)%nat ->
  history (record_all xs s) = lastn 50 xs
  /\ historyIndex (record_all xs s) = 50.
Proof.
  intros Hl Hi Hn.
  destruct (record_all_spec xs s Hl Hi) as [Hh Hx]; [destruct xs; [cbn in Hn; lia | discriminate]|].
  rewrite Hh, Hx. split.
  - apply lastn_app_r. lia.
  - rewrite length_app. lia.
Qed.

Lemma at_index_Some {A : Type} (l : list A) i :
  0 <= i < Z.of_nat (length l) -> exists x, at_index l i = Some x.
Proof.
  intros H. unfold at_index. destruct (Z.ltb_spec i 0); [lia|].
  apply lookup_lt_is_Some. lia.
Qed.

Lemma at_index_None {A : Type} (l : list A) i :
  Z.of_nat (length l) <= i -> at_index l i = None.
Proof.
  intros H. unfold at_index. destruct (Z.ltb_spec i 0); [reflexivity|].
  apply lookup_ge_None. lia.
Qed.

Lemma last_lastn_snoc {A : Type} n (l : list A) x :
  (0 < n)%nat -> last (lastn n (l ++ [x])) = Some x.
Proof.
  intros Hn. unfold lastn. rewrite length_app. cbn [length].
  rewrite drop_app_le by lia. apply last_snoc.
Qed.

Lemma saveHistory_last newItems newTax newDiscount s :
  last (history (saveHistory newItems newTax newDiscount s))
  = Some {| h_items := newItems; h_tax := newTax; h_discount := newDiscount |}.
Proof.
  unfold saveHistory. cbn [history setHistory setHistoryIndex].
  match goal with |- context [50 <? ?n] => destruct (Z.ltb_spec 50 n) as [H|H] end.
  - rewrite slice_from_last by lia. apply (last_lastn_snoc 50). lia.
  - apply last_snoc.
Qed.

(** C2, where the code departs from it: after 51 records (the mount and 50
    tax edits) the history holds the last 50 snapshots, but the cursor is
    50, the length of the history: it indexes no snapshot and is outside
    [-1, length - 1].  The first [undo] then loads the newest snapshot, the
    live state itself. *)
Theorem history_cursor_past_end :
  map h_tax (history after50Edits) = map (fun k => of_Z (Z.of_nat k)) (seq 1 50)
  /\ length (history after50Edits) = 50%nat
  /\ historyIndex after50Edits = 50
  /\ at_index (history after50Edits) (historyIndex after50Edits) = None
  /\ ~ historyIndex after50Edits <= Z.of_nat (length (history after50Edits)) - 1
  /\ tax after50Edits = of_Z 50
  /\ (fun s => (historyIndex s, tax s)) <$> undo after50Edits = Some (49, of_Z 50).
Proof.
  assert (Hlen : length (history after50Edits) = 50%nat) by (vm_compute; reflexivity).
  assert (Hidx : historyIndex after50Edits = 50) by (vm_compute; reflexivity).
  split; [vm_compute; reflexivity|]. split; [exact Hlen|]. split; [exact Hidx|].
  split; [apply at_index_None; rewrite Hlen, Hidx; lia|].
  split; [rewrite Hlen, Hidx; lia|].
  split; vm_compute; reflexivity.
Qed.

(** C4: [undo] at a cursor of 0 or less and [redo] at the last index or
    beyond leave the state as it is; otherwise [undo] moves the cursor down
    by one, [redo] up by one, and the live items, tax and discount become
    those of the snapshot under the new cursor. *)
Theorem undo_redo_spec s :
  history_ok s ->
  (historyIndex s <= 0 -> undo s = Some s)
  /\ (Z.of_nat (length (history s)) - 1 <= historyIndex s -> redo s = Some s)
  /\ (0 < historyIndex s ->
      exists snap s',
        at_index (history s) (historyIndex s - 1) = Some snap
        /\ undo s = Some s'
        /\ historyIndex s' = historyIndex s - 1
        /\ items s' = h_items snap /\ tax s' = h_tax snap
        /\ discount s' = h_discount snap)
  /\ (historyIndex s < Z.of_nat (length (history s)) - 1 ->
      exists snap s',
        at_index (history s) (historyIndex s + 1) = Some snap
        /\ redo s = Some s'
        /\ historyIndex s' = historyIndex s + 1
        /\ items s' = h_items snap /\ tax s' = h_tax snap
        /\ discount s' = h_discount snap).
Proof.
  intros [Hi Hl]. repeat split.
  - intros H. unfold undo. destruct (Z.ltb_spec 0 (historyIndex s)); [lia | reflexivity].
  - intros H. unfold redo.
    destruct (Z.ltb_spec (historyIndex s) (Z.of_nat (length (history s)) - 1));
      [lia | reflexivity].
  - intros H. destruct (at_index_Some (history s) (historyIndex s - 1)) as [snap Hs]; [lia|].
    exists snap. eexists. split; [exact Hs|]. unfold undo.
    destruct (Z.ltb_spec 0 (historyIndex s)); [|lia]. rewrite Hs.
    repeat split.
  - intros H. destruct (at_index_Some (history s) (historyIndex s + 1)) as [snap Hs]; [lia|].
    exists snap. eexists. split; [exact Hs|]. unfold redo.
    destruct (Z.ltb_spec (historyIndex s) (Z.of_nat (length (history s)) - 1)); [|lia].
    rewrite Hs. repeat split.
Qed.

Lemma undo_redo_spec_witness :
  (historyIndex threeSnapshots <= 0 -> undo threeSnapshots = Some threeSnapshots)
  /\ (Z.of_nat (length (history threeSnapshots)) - 1 <= historyIndex threeSnapshots ->
      redo threeSnapshots = Some threeSnapshots)
  /\ (0 < historyIndex threeSnapshots ->
      exists snap s',
        at_index (history threeSnapshots) (historyIndex threeSnapshots - 1) = Some snap
        /\ undo threeSnapshots = Some s'
        /\ historyIndex s' = historyIndex threeSnapshots - 1
        /\ items s' = h_items snap /\ tax s' = h_tax snap
        /\ discount s' = h_discount snap)
  /\ (historyIndex threeSnapshots < Z.of_nat (length (history threeSnapshots)) - 1 ->
      exists snap s',
        at_index (history threeSnapshots) (historyIndex threeSnapshots + 1) = Some snap
        /\ redo threeSnapshots = Some s'
        /\ historyIndex s' = historyIndex threeSnapshots + 1
        /\ items s' = h_items snap /\ tax s' = h_tax snap
        /\ discount s' = h_discount snap).
Proof.
  apply (undo_redo_spec threeSnapshots).
  apply history_okb_ok. vm_compute. reflexivity.
Defined.

(** C6: a record at any cursor keeps the snapshots up to the cursor, appends
    the new one and drops every snapshot after the cursor; a [redo] right
    after it changes nothing. *)
Theorem record_discards_redo s newItems newTax newDiscount :
  history_ok s ->
  let snap := {| h_items := newItems; h_tax := newTax; h_discount := newDiscount |} in
  let kept := take (Z.to_nat (historyIndex s + 1)) (history s) in
  let s' := saveHistory newItems newTax newDiscount s in
  history s' = lastn 50 (kept ++ [snap])
  /\ (historyIndex s + 1 < Z.of_nat (length (history s)) -> history s' = kept ++ [snap])
  /\ redo s' = Some s'.
Proof.
  intros [Hi Hl]. cbv zeta.
  destruct (saveHistory_spec newItems newTax newDiscount s) as [Hh Hx]; [lia|].
  split; [exact Hh|]. split.
  - intros Hlt. rewrite Hh. apply lastn_short.
    rewrite length_app, length_take. cbn [length]. lia.
  - unfold redo. rewrite Hh, Hx, length_lastn.
    match goal with |- context [?a <? ?b] => destruct (Z.ltb_spec a b) as [H|H] end;
      [lia | reflexivity].
Qed.

Lemma record_discards_redo_witness :
  let s := threeSnapshots in
  let snap := {| h_items := [0%nat]; h_tax := of_Z 7; h_discount := zero |} in
  let kept := take (Z.to_nat (historyIndex s + 1)) (history s) in
  let s' := saveHistory [0%nat] (of_Z 7) zero s in
  history s' = lastn 50 (kept ++ [snap])
  /\ (historyIndex s + 1 < Z.of_nat (length (history s)) -> history s' = kept ++ [snap])
  /\ redo s' = Some s'.
Proof.
  apply (record_discards_redo threeSnapshots).
  apply history_okb_ok. vm_compute. reflexivity.
Defined.

(** C9: [undo] and [redo] leave the currency, title, invoice number, date
    and the history log as they are (and the item objects and validation
    errors too); the snapshot [saveHistory] appends holds the items, tax and
    discount it was given, and the history it leaves does not depend on the
    currency, title, invoice number or date. *)
Theorem history_frame :
  (forall s s',
     undo s = Some s' \/ redo s = Some s' ->
     currency s' = currency s /\ title s' = title s
     /\ invoiceNumber s' = invoiceNumber s /\ date s' = date s
     /\ history s' = history s /\ heap s' = heap s /\ errors s' = errors s)
  /\ (forall newItems newTax newDiscount s,
        last (history (saveHistory newItems newTax newDiscount s))
        = Some {| h_items := newItems; h_tax := newTax; h_discount := newDiscount |})
  /\ (forall newItems newTax newDiscount c t n d s,
        history (saveHistory newItems newTax newDiscount
                   (setDate d (setInvoiceNumber n (setTitle t (setCurrency c s)))))
        = history (saveHistory newItems newTax newDiscount s)).
Proof.
  split; [|split].
  - intros s s' [H|H].
    + unfold undo in H. destruct (0 <? historyIndex s).
      * destruct (at_index (history s) (historyIndex s - 1)); [|discriminate].
        injection H as <-. repeat split.
      * injection H as <-. repeat split.
    + unfold redo in H.
      destruct (historyIndex s <? Z.of_nat (length (history s)) - 1).
      * destruct (at_index (history s) (historyIndex s + 1)); [|discriminate].
        injection H as <-. repeat split.
      * injection H as <-. repeat split.
  - apply saveHistory_last.
  - intros. reflexivity.
Qed.

Lemma history_frame_witness :
  let s := threeSnapshots in
  let s' := default s (undo s) in
  currency s' = currency s /\ title s' = title s
  /\ invoiceNumber s' = invoiceNumber s /\ date s' = date s
  /\ history s' = history s /\ heap s' = heap s /\ errors s' = errors s.
Proof.
  apply (proj1 history_frame threeSnapshots (default threeSnapshots (undo threeSnapshots))).
  left. vm_compute. reflexivity.
Defined.

(** ** Properties of item management *)

Lemma filter_index_all {A : Type} (l : list A) : forall k idx,
  (idx < k)%nat -> filter_index (fun i => negb (i =? idx)%nat) k l = l.
Proof.
  induction l as [|x t IH]; intros k idx H; [reflexivity|].
  cbn [filter_index]. destruct (Nat.eqb_spec k idx); [lia|].
  cbn [negb]. now rewrite IH by lia.
Qed.

(** Filtering out one index is deleting the element at it. *)
Lemma filter_index_delete {A : Type} (l : list A) : forall k idx,
  (k <= idx)%nat ->
  filter_index (fun i => negb (i =? idx)%nat) k l = delete (idx - k)%nat l.
Proof.
  induction l as [|x t IH]; intros k idx H; [reflexivity|].
  cbn [filter_index]. destruct (Nat.eqb_spec k idx) as [->|Hne]; cbn [negb].
  - rewrite Nat.sub_diag. cbn. apply filter_index_all. lia.
  - rewrite IH by lia. replace (idx - k)%nat with (S (idx - S k)) by lia. reflexivity.
Qed.

Lemma Forall_slice {A : Type} (P : A -> Prop) (l : list A) a b :
  Forall P l -> Forall P (slice l a b).
Proof. intros H. unfold slice. now apply Forall_take, Forall_drop. Qed.

Lemma items_ok_saveHistory newItems newTax newDiscount s :
  newItems <> [] -> Forall (fun x => h_items x <> []) (history s) ->
  Forall (fun x => h_items x <> []) (history (saveHistory newItems newTax newDiscount s)).
Proof.
  intros Hne Hall. unfold saveHistory. cbn [history setHistory setHistoryIndex].
  assert (Hnew : Forall (fun x => h_items x <> [])
            (slice (history s) 0 (historyIndex s + 1)
             ++ [ {| h_items := newItems; h_tax := newTax; h_discount := newDiscount |} ])).
  { apply Forall_app. split; [now apply Forall_slice|]. now constructor. }
  destruct (50 <? _); [now apply Forall_slice | exact Hnew].
Qed.

Lemma at_index_Forall {A : Type} (P : A -> Prop) (l : list A) i x :
  Forall P l -> at_index l i = Some x -> P x.
Proof.
  intros Hall H. unfold at_index in H. destruct (i <? 0); [discriminate|].
  exact (Forall_lookup_1 _ _ _ _ Hall H).
Qed.

Lemma items_ok_step s s' : items_ok s -> step s s' -> items_ok s'.
Proof.
  intros [Hi Hh] Hstep. destruct Hstep as
    [idx e s s' H | s | idx s | v s | v s | s s' H | s s' H | c s | t s | n s | d s].
  - unfold updateItem in H. destruct (items s !! idx); [|discriminate].
    destruct (heap s !! l); [|discriminate]. injection H as <-.
    split; [exact Hi|]. cbn [history setItems]. now apply items_ok_saveHistory.
  - assert (Hne : items s ++ [length (heap s)] <> []) by (now destruct (items s)).
    split; [exact Hne|]. unfold addItem. cbn [history setItems].
    now apply items_ok_saveHistory.
  - unfold removeItem. destruct (Nat.leb_spec (length (items s)) 1) as [|Hlen];
      [now split|].
    rewrite filter_index_delete by lia. rewrite Nat.sub_0_r.
    assert (Hne : delete idx (items s) <> []).
    { intros Hc. apply (f_equal length) in Hc.
      rewrite delete_take_drop, length_app, length_take, length_drop in Hc.
      cbn [length] in Hc. lia. }
    split; [exact Hne|]. cbn [history setItems setErrors].
    now apply items_ok_saveHistory.
  - split; [exact Hi|]. unfold changeTax. now apply items_ok_saveHistory.
  - split; [exact Hi|]. unfold changeDiscount. now apply items_ok_saveHistory.
  - unfold undo in H. destruct (0 <? historyIndex s); [|now injection H as <-].
    destruct (at_index (history s) (historyIndex s - 1)) as [snap|] eqn:Hs; [|discriminate].
    injection H as <-. split; [|exact Hh]. cbn. exact (at_index_Forall _ _ _ _ Hh Hs).
  - unfold redo in H.
    destruct (historyIndex s <? Z.of_nat (length (history s)) - 1); [|now injection H as <-].
    destruct (at_index (history s) (historyIndex s + 1)) as [snap|] eqn:Hs; [|discriminate].
    injection H as <-. split; [|exact Hh]. cbn. exact (at_index_Forall _ _ _ _ Hh Hs).
  - now split.
  - now split.
  - now split.
  - now split.
Qed.

Lemma items_ok_mounted d today : d_items d <> [] -> items_ok (mounted d today).
Proof.
  intros Hne.
  assert (Hrefs : seq 0 (length (d_items d)) <> []) by (now destruct (d_items d)).
  split; [exact Hrefs|]. unfold mounted, load. now apply items_ok_saveHistory.
Qed.

(** C7: with one item [removeItem] returns the state as it is, for every
    index; from a start with at least one item no operation empties the
    items list; with more than one item [removeItem] deletes the item at the
    index, records the new list in the history, and deletes the quantity and
    price error keys of that index and no other. *)
Theorem removeItem_spec :
  (forall idx s, length (items s) = 1%nat -> removeItem idx s = s)
  /\ (forall s s', items_ok s -> step s s' -> items_ok s')
  /\ (forall d today s,
        d_items d <> [] -> steps (mounted d today) s -> items s <> [])
  /\ (forall idx s,
        (1 < length (items s))%nat ->
        let newItems := delete idx (items s) in
        let s' := removeItem idx s in
        items s' = newItems
        /\ history s' = history (saveHistory newItems (tax s) (discount s) s)
        /\ historyIndex s' = historyIndex (saveHistory newItems (tax s) (discount s) s)
        /\ last (history s')
           = Some {| h_items := newItems; h_tax := tax s; h_discount := discount s |}
        /\ errors s' = delete (price_key idx) (delete (quantity_key idx) (errors s))
        /\ (forall key, key <> quantity_key idx -> key <> price_key idx ->
            errors s' !! key = errors s !! key)
        /\ heap s' = heap s /\ tax s' = tax s /\ discount s' = discount s
        /\ currency s' = currency s /\ title s' = title s
        /\ invoiceNumber s' = invoiceNumber s /\ date s' = date s).
Proof.
  split; [|split; [|split]].
  - intros idx s H. unfold removeItem. now rewrite H.
  - exact items_ok_step.
  - intros d today s Hne Hsteps.
    assert (Hok : items_ok s); [|now destruct Hok].
    remember (mounted d today) as s0 eqn:Hs0.
    induction Hsteps as [s1 | s1 s2 s3 _ IH Hstep];
      [subst s1; now apply items_ok_mounted|].
    eapply items_ok_step; [apply IH; exact Hs0 | exact Hstep].
  - intros idx s Hlen. cbv zeta. unfold removeItem.
    destruct (Nat.leb_spec (length (items s)) 1); [lia|].
    rewrite filter_index_delete, Nat.sub_0_r by lia.
    cbn [items history historyIndex errors heap tax discount currency title
         invoiceNumber date setItems setErrors].
    split; [reflexivity|]. split; [reflexivity|]. split; [reflexivity|].
    split; [apply saveHistory_last|]. split; [reflexivity|].
    split; [|repeat split].
    intros key Hq Hp. cbn. now rewrite !lookup_delete_ne by congruence.
Qed.

Lemma removeItem_spec_witness :
  removeItem 0 (mounted (defaults "2024-01-01") "2024-01-01")
  = mounted (defaults "2024-01-01") "2024-01-01"
  /\ items (addItem (mounted (defaults "2024-01-01") "2024-01-01")) <> [].
Proof.
  split.
  - apply (proj1 removeItem_spec 0%nat (mounted (defaults "2024-01-01") "2024-01-01")).
    vm_compute. reflexivity.
  - apply (proj1 (proj2 (proj2 removeItem_spec)) (defaults "2024-01-01") "2024-01-01").
    + discriminate.
    + eapply steps_step; [apply steps_refl | apply step_addItem].
Defined.

(** C7 as stated fails when the form starts from data without items, which
    the start-up effect loads as it finds it: Add Item makes a list of one
    item, on which [removeItem] does nothing, and the undo that follows
    restores the empty list recorded at the start. *)
Lemma undo_empties_items :
  let s0 := mounted noItems "2024-01-01" in
  let s1 := addItem s0 in
  items s0 = []
  /\ step s0 s1
  /\ deref (heap s1) (items s1) = [emptyItem]
  /\ removeItem 0 s1 = s1
  /\ (exists s2, undo s1 = Some s2 /\ step s1 s2 /\ items s2 = []).
Proof.
  cbv zeta. split; [vm_compute; reflexivity|].
  split; [apply step_addItem|]. split; [vm_compute; reflexivity|].
  split; [vm_compute; reflexivity|].
  destruct (undo (addItem (mounted noItems "2024-01-01"))) as [s2|] eqn:Hu;
    [|vm_compute in Hu; discriminate].
  exists s2. split; [reflexivity|]. split; [now apply step_undo|].
  vm_compute in Hu. injection Hu as <-. reflexivity.
Qed.

(** ** Validation errors *)

Lemma key_prefix_differs a b : quantity_key a <> price_key b.
Proof. unfold quantity_key, price_key. cbn. discriminate. Qed.

Lemma append_inj_r (p a b : string) : (p +:+ a = p +:+ b)%string -> a = b.
Proof.
  induction p as [|c p IH]; cbn; intros H; [exact H|].
  injection H as H. now apply IH.
Qed.

Lemma index_key_inj a b : String (of_Z (Z.of_nat a)) = String (of_Z (Z.of_nat b)) -> a = b.
Proof.
  intros H. apply String_inj in H; try apply wf_norm.
  assert (Hv : forall n, exists m e, of_Z (Z.of_nat n) = Fin m e
                 /\ 0 <= e /\ Z.of_nat n = m * 10 ^ e).
  { intros n. unfold of_Z, norm. destruct (Z.eq_dec (Z.of_nat n) 0) as [Hz|Hz].
    - rewrite Hz. exists 0, 0. cbn. repeat split; lia.
    - pose proof (canon_spec (Z.of_nat n) 0 Hz) as Hs.
      destruct (canon (Z.of_nat n) 0) as [m e]. destruct Hs as (He & Hs & _).
      exists m, e. rewrite Z.sub_0_r in Hs. repeat split; [exact He | exact Hs]. }
  destruct (Hv a) as (m1 & e1 & Ha & _ & Hva), (Hv b) as (m2 & e2 & Hb & _ & Hvb).
  rewrite Ha, Hb in H. injection H as -> ->. lia.
Qed.

Lemma quantity_key_inj a b : quantity_key a = quantity_key b -> a = b.
Proof. intros H. apply append_inj_r in H. now apply index_key_inj. Qed.

Lemma price_key_inj a b : price_key a = price_key b -> a = b.
Proof. intros H. apply append_inj_r in H. now apply index_key_inj. Qed.

(** What one [updateItem] call does to the error entries: the edited row's
    two keys are written, whichever field was edited, and no other key. *)
Lemma validate_spec idx e (errs : gmap string string) :
  validate idx e errs !! quantity_key idx
  = (if quantity_invalid e then Some "Quantity must be at least 1"%string else None)
  /\ validate idx e errs !! price_key idx
     = (if price_invalid e then Some "Price cannot be negative"%string else None)
  /\ (forall key, key <> quantity_key idx -> key <> price_key idx ->
      validate idx e errs !! key = errs !! key)
  /\ (forall j, j <> idx ->
      validate idx e errs !! quantity_key j = errs !! quantity_key j
      /\ validate idx e errs !! price_key j = errs !! price_key j).
Proof.
  pose proof (key_prefix_differs idx idx) as Hqp.
  assert (Hother : forall key, key <> quantity_key idx -> key <> price_key idx ->
                   validate idx e errs !! key = errs !! key).
  { intros key Hq Hp. unfold validate. cbv zeta.
    destruct (price_invalid e), (quantity_invalid e); lookup_other; reflexivity. }
  split; [|split; [|split]].
  - unfold validate. cbv zeta.
    destruct (price_invalid e), (quantity_invalid e); lookup_other;
      rewrite ?lookup_insert_eq, ?lookup_delete_eq; reflexivity.
  - unfold validate. cbv zeta.
    destruct (price_invalid e), (quantity_invalid e);
      rewrite ?lookup_insert_eq, ?lookup_delete_eq; reflexivity.
  - exact Hother.
  - intros j Hj. split; apply Hother.
    + intros H. now apply quantity_key_inj in H.
    + apply key_prefix_differs.
    + intros H. symmetry in H. now apply key_prefix_differs in H.
    + intros H. now apply price_key_inj in H.
Qed.

(** C5, where the code departs from it: setting the quantity to 0 puts the
    entry under ["quantity-0"]; editing the price of the same row deletes
    it, although the quantity is still 0.  Every edit of a row's price or
    description leaves no quantity entry for the row, and every edit of its
    quantity or description no price entry. *)
Theorem price_edit_clears_quantity_error :
  quantity_key 0 = "quantity-0"%string
  /\ (fun s => errors s !! quantity_key 0) <$> zeroQuantity
     = Some (Some "Quantity must be at least 1"%string)
  /\ (fun s => (deref (heap s) (items s), errors s !! quantity_key 0))
       <$> zeroQuantityThenPrice
     = Some ([ {| description := ""; quantity := zero; price := of_Z 5 |} ], None)
  /\ nlt zero one = true
  /\ (forall idx e (errs : gmap string string),
        (forall v, e <> EQuantity v) -> validate idx e errs !! quantity_key idx = None)
  /\ (forall idx e (errs : gmap string string),
        (forall v, e <> EPrice v) -> validate idx e errs !! price_key idx = None).
Proof.
  split; [vm_compute; reflexivity|]. split; [vm_compute; reflexivity|].
  split; [vm_compute; reflexivity|]. split; [reflexivity|]. split.
  - intros idx e errs He. destruct (validate_spec idx e errs) as (-> & _).
    destruct e as [d | v | v]; [reflexivity | now destruct (He v) | reflexivity].
  - intros idx e errs He. destruct (validate_spec idx e errs) as (_ & -> & _).
    destruct e as [d | v | v]; [reflexivity | reflexivity | now destruct (He v)].
Qed.



(** A quantity set to 0 puts the error under the row's key, and setting it
    back to 1 removes it. *)
Theorem quantity_error_scenario :
  (fun s => errors s !! quantity_key 0) <$> zeroQuantity
  = Some (Some "Quantity must be at least 1"%string)
  /\ (fun s => errors s !! quantity_key 0) <$> zeroQuantityThenOne = Some None.
Proof. split; vm_compute; reflexivity. Qed.

(** ** Start-up *)

Lemma present_nonempty raw : raw <> ""%string -> present (Some raw) = Some raw.
Proof.
  intros H. unfold present. destruct (String.eqb_spec raw ""); [contradiction | reflexivity].
Qed.

(** C3, where the code departs from it: a stored snapshot that is no JSON
    text makes [JSON.parse] throw outside any [try], and the effect ends
    with the SyntaxError uncaught; the same text as the link's [data] is
    caught, logged, and the defaults are used. *)
Theorem startup_saved_parse_failure (JSON_parse : string -> option json) raw today :
  raw <> ""%string -> JSON_parse raw = None ->
  startup JSON_parse None (Some raw) today = Uncaught SyntaxError
  /\ (forall saved,
        startup JSON_parse (Some raw) saved today
        = Done (mounted (defaults today) today) ["Invalid URL data"%string]).
Proof.
  intros Hne Hparse. unfold startup. cbv zeta.
  rewrite present_nonempty by assumption. cbn [present]. rewrite Hparse.
  split; [reflexivity|]. intros saved. reflexivity.
Qed.

Lemma startup_saved_parse_failure_witness :
  startup parse_fragment None (Some "{"%string) "2024-01-01" = Uncaught SyntaxError
  /\ (forall saved,
        startup parse_fragment (Some "{"%string) saved "2024-01-01"
        = Done (mounted (defaults "2024-01-01") "2024-01-01")
            ["Invalid URL data"%string]).
Proof.
  apply (startup_saved_parse_failure parse_fragment "{" "2024-01-01").
  - discriminate.
  - reflexivity.
Defined.

(** ** Further properties *)

Lemma history_ok_step s s' : history_ok s -> step s s' -> history_ok s'.
Proof.
  intros IH Hstep. destruct Hstep as
    [idx e s s' H | s | idx s | v s | v s | s s' H | s s' H | c s | t s | n s | x s].
  - unfold updateItem in H. destruct (items s !! idx); [|discriminate].
    destruct (heap s !! l); [|discriminate]. injection H as <-.
    apply (history_ok_saveHistory _ _ _ (setErrors _ (setHeap _ s))). exact IH.
  - apply (history_ok_saveHistory _ _ _ (setHeap _ s)). exact IH.
  - unfold removeItem. destruct (length (items s) <=? 1)%nat; [exact IH|].
    apply (history_ok_saveHistory _ (tax s) (discount s) s). exact IH.
  - apply (history_ok_saveHistory _ _ _ (setTax _ s)). exact IH.
  - apply (history_ok_saveHistory _ _ _ (setDiscount _ s)). exact IH.
  - destruct IH as [Hi Hl]. unfold undo in H.
    destruct (Z.ltb_spec 0 (historyIndex s)); [|now injection H as <-].
    destruct (at_index (history s) (historyIndex s - 1)); [|discriminate].
    injection H as <-. unfold history_ok. cbn. lia.
  - destruct IH as [Hi Hl]. unfold redo in H.
    destruct (Z.ltb_spec (historyIndex s) (Z.of_nat (length (history s)) - 1));
      [|now injection H as <-].
    destruct (at_index (history s) (historyIndex s + 1)); [|discriminate].
    injection H as <-. unfold history_ok. cbn. lia.
  - exact IH.
  - exact IH.
  - exact IH.
  - exact IH.
Qed.

Lemma history_ok_reachable d today s : steps (mounted d today) s -> history_ok s.
Proof.
  intros Hsteps. remember (mounted d today) as s0 eqn:Hs0.
  induction Hsteps as [s1 | s1 s2 s3 _ IH Hstep].
  - subst s1. unfold mounted, load. apply history_ok_saveHistory.
    apply history_okb_ok. reflexivity.
  - eapply history_ok_step; [apply IH; exact Hs0 | exact Hstep].
Qed.

Lemma undo_redo_defined s : history_ok s -> is_Some (undo s) /\ is_Some (redo s).
Proof.
  intros [Hi Hl]. split.
  - unfold undo. destruct (Z.ltb_spec 0 (historyIndex s)); [|eauto].
    destruct (at_index_Some (history s) (historyIndex s - 1)) as [x ->]; [lia | eauto].
  - unfold redo.
    destruct (Z.ltb_spec (historyIndex s) (Z.of_nat (length (history s)) - 1)); [|eauto].
    destruct (at_index_Some (history s) (historyIndex s + 1)) as [x ->]; [lia | eauto].
Qed.

(** The cursor invariant the code keeps, one wider than [-1, length - 1]:
    every operation keeps the cursor between [-1] and the length of the
    history, and the history at most 50 long. *)
Theorem history_ok_steps d today s :
  steps (mounted d today) s -> history_ok s.
Proof. apply history_ok_reachable. Qed.

Lemma history_ok_steps_witness :
  history_ok (addItem (mounted (defaults "2024-01-01") "2024-01-01")).
Proof.
  apply (history_ok_steps (defaults "2024-01-01") "2024-01-01").
  eapply steps_step; [apply steps_refl | apply step_addItem].
Defined.

(** In every state the operations reach, [undo] and [redo] return: the
    snapshot they read exists. *)
Theorem undo_redo_total d today s :
  steps (mounted d today) s -> is_Some (undo s) /\ is_Some (redo s).
Proof. intros H. apply undo_redo_defined. eapply history_ok_reachable. exact H. Qed.

Lemma undo_redo_total_witness :
  is_Some (undo (addItem (mounted (defaults "2024-01-01") "2024-01-01")))
  /\ is_Some (redo (addItem (mounted (defaults "2024-01-01") "2024-01-01"))).
Proof.
  apply (undo_redo_total (defaults "2024-01-01") "2024-01-01").
  eapply steps_step; [apply steps_refl | apply step_addItem].
Defined.

(** More than 50 records in a row, from a history of at most 50 entries:
    the history is the last 50 of the recorded snapshots and the cursor
    is 50. *)
Theorem record_overflow xs s :
  (length (history s) <= 50)%nat -> -1 <= historyIndex s ->
  (50 < length xs)%nat ->
  history (record_all xs s) = lastn 50 xs /\ historyIndex (record_all xs s) = 50.
Proof. apply record_all_overflow. Qed.

Lemma record_overflow_witness :
  history (record_all records51 (initialState "2024-01-01")) = lastn 50 records51
  /\ historyIndex (record_all records51 (initialState "2024-01-01")) = 50.
Proof.
  apply (record_overflow records51 (initialState "2024-01-01")); cbn; lia.
Defined.

(** [updateItem] writes to the item object the recorded snapshots share, so
    undoing a field edit moves the cursor back and leaves the edited value
    in place. *)
Theorem undo_keeps_field_edit :
  deref (heap (mounted (defaults "2024-01-01") "2024-01-01"))
        (items (mounted (defaults "2024-01-01") "2024-01-01"))
  = [ {| description := ""; quantity := one; price := zero |} ]
  /\ (fun s => (historyIndex s, deref (heap s) (items s))) <$> priceEditUndone
     = Some (0, [ {| description := ""; quantity := one; price := of_Z 5 |} ]).
Proof. split; vm_compute; reflexivity. Qed.

(** Two items added and both additions undone: the items list is the
    original single item again. *)
Theorem add_add_undo_undo :
  let s0 := mounted (defaults "2024-01-01") "2024-01-01" in
  (fun s => (items s, deref (heap s) (items s)))
    <$> (undo (addItem (addItem s0)) ≫= undo)
  = Some (items s0, [emptyItem]).
Proof. vm_compute. reflexivity. Qed.

(** The start-up effect branch by branch: a non-empty [data] parameter
    decides alone: its parsed record is loaded, a parse failure of it is
    logged and the defaults loaded, and a parsed [null] ends the effect with
    a TypeError; without one (absent or empty) the stored snapshot is loaded
    when it is present, non-empty and parses to a record, and the defaults
    when it is absent, empty or parses to [null]. *)
Theorem startup_spec (JSON_parse : string -> option json) today :
  (forall text saved d,
     text <> ""%string -> JSON_parse text = Some (JData d) ->
     startup JSON_parse (Some text) saved today = Done (mounted d today) [])
  /\ (forall text saved,
        text <> ""%string -> JSON_parse text = None ->
        startup JSON_parse (Some text) saved today
        = Done (mounted (defaults today) today) ["Invalid URL data"%string])
  /\ (forall text saved,
        text <> ""%string -> JSON_parse text = Some JNull ->
        startup JSON_parse (Some text) saved today = Uncaught TypeError)
  /\ (forall data raw d,
        present data = None -> raw <> ""%string -> JSON_parse raw = Some (JData d) ->
        startup JSON_parse data (Some raw) today = Done (mounted d today) [])
  /\ (forall data raw,
        present data = None -> raw <> ""%string -> JSON_parse raw = Some JNull ->
        startup JSON_parse data (Some raw) today
        = Done (mounted (defaults today) today) [])
  /\ (forall data saved,
        present data = None -> present saved = None ->
        startup JSON_parse data saved today
        = Done (mounted (defaults today) today) []).
Proof.
  unfold startup. repeat split.
  - intros text saved d Hne Hp. cbv zeta. now rewrite present_nonempty, Hp.
  - intros text saved Hne Hp. cbv zeta. now rewrite present_nonempty, Hp.
  - intros text saved Hne Hp. cbv zeta. now rewrite present_nonempty, Hp.
  - intros data raw d Hd Hne Hp. cbv zeta. now rewrite Hd, present_nonempty, Hp.
  - intros data raw Hd Hne Hp. cbv zeta. now rewrite Hd, present_nonempty, Hp.
  - intros data saved Hd Hs. cbv zeta. now rewrite Hd, Hs.
Qed.

Lemma startup_spec_witness :
  startup parse_fragment None (Some "null"%string) "2024-01-01"
  = Done (mounted (defaults "2024-01-01") "2024-01-01") [].
Proof.
  apply (proj1 (proj2 (proj2 (proj2 (proj2 (startup_spec parse_fragment "2024-01-01")))))
           None "null"%string); [reflexivity | discriminate | reflexivity].
Defined.

(** ** Reachable states: rows, the cursor, undo and redo *)

Lemma steps_taxEdits n : forall s0 s, steps s0 s -> steps s0 (taxEdits n s).
Proof.
  unfold taxEdits. induction (seq 1 n) as [|k l IH]; intros s0 s H; [exact H|].
  cbn [fold_left]. apply IH. eapply steps_step; [exact H | apply step_changeTax].
Qed.

Lemma steps_threeSnapshots : steps form0 threeSnapshots.
Proof.
  eapply steps_step.
  - eapply steps_step; [|apply step_addItem].
    eapply steps_step; [apply steps_refl | apply step_addItem].
  - apply step_undo. vm_compute. reflexivity.
Qed.

Lemma deref_cons h r l x : h !! r = Some x -> deref h (r :: l) = x :: deref h l.
Proof. intros H. unfold deref. cbn. now rewrite H. Qed.

Lemma deref_lookup h l : Forall (fun r => (r < length h)%nat) l ->
  forall j, deref h l !! j = l !! j ≫= (fun r => h !! r).
Proof.
  induction 1 as [|r l Hr _ IH]; intros j; [reflexivity|].
  destruct (lookup_lt_is_Some_2 h r Hr) as [x Hx].
  rewrite (deref_cons _ _ _ _ Hx). destruct j as [|j]; cbn; [now rewrite Hx | apply IH].
Qed.

Lemma length_deref h l : Forall (fun r => (r < length h)%nat) l ->
  length (deref h l) = length l.
Proof.
  induction 1 as [|r l Hr _ IH]; [reflexivity|].
  destruct (lookup_lt_is_Some_2 h r Hr) as [x Hx].
  rewrite (deref_cons _ _ _ _ Hx). cbn. now rewrite IH.
Qed.

Lemma deref_app_heap h k l : Forall (fun r => (r < length h)%nat) l ->
  deref (h ++ k) l = deref h l.
Proof.
  induction 1 as [|r l Hr _ IH]; [reflexivity|].
  destruct (lookup_lt_is_Some_2 h r Hr) as [x Hx].
  assert (Hx' : (h ++ k) !! r = Some x) by (now rewrite lookup_app_l).
  now rewrite (deref_cons _ _ _ _ Hx), (deref_cons _ _ _ _ Hx'), IH.
Qed.

Lemma deref_snoc h x l : Forall (fun r => (r < length h)%nat) l ->
  deref (h ++ [x]) (l ++ [length h]) = deref h l ++ [x].
Proof.
  intros H. unfold deref. rewrite omap_app. fold (deref (h ++ [x]) l).
  rewrite deref_app_heap by assumption. f_equal. cbn.
  now rewrite list_lookup_middle.
Qed.

Lemma deref_insert h l idx r x :
  NoDup l -> Forall (fun r => (r < length h)%nat) l -> l !! idx = Some r ->
  deref (<[r := x]> h) l = <[idx := x]> (deref h l).
Proof.
  intros Hnd Hb Hidx.
  assert (Hb' : Forall (fun r0 => (r0 < length (<[r := x]> h))%nat) l)
    by (now rewrite length_insert).
  apply list_eq. intros j. rewrite deref_lookup by assumption.
  destruct (Nat.eq_dec j idx) as [->|Hne].
  - rewrite Hidx. cbn. rewrite list_lookup_insert_eq.
    + rewrite list_lookup_insert_eq; [reflexivity|].
      rewrite length_deref by assumption. now apply lookup_lt_Some in Hidx.
    + exact (Forall_lookup_1 _ _ _ _ Hb Hidx).
  - rewrite list_lookup_insert_ne by congruence. rewrite deref_lookup by assumption.
    destruct (l !! j) as [r'|] eqn:Hj; [|reflexivity]. cbn.
    apply list_lookup_insert_ne. intros ->.
    apply Hne. exact (NoDup_lookup _ _ _ _ Hnd Hj Hidx).
Qed.

Lemma deref_delete h l idx : Forall (fun r => (r < length h)%nat) l ->
  deref h (delete idx l) = delete idx (deref h l).
Proof.
  intros Hb. revert idx.
  induction Hb as [|r l Hr _ IH]; intros idx; [reflexivity|].
  destruct (lookup_lt_is_Some_2 h r Hr) as [x Hx].
  rewrite (deref_cons _ _ _ _ Hx).
  destruct idx as [|idx]; [reflexivity|].
  change (deref h (r :: delete idx l) = x :: delete idx (deref h l)).
  now rewrite (deref_cons _ _ _ _ Hx), IH.
Qed.

Lemma refs_ok_mono h h' l : refs_ok h l -> (length h <= length h')%nat -> refs_ok h' l.
Proof.
  intros [Hnd Hb] Hle. split; [exact Hnd|].
  eapply Forall_impl; [exact Hb|]. cbn. intros r Hr. lia.
Qed.

Lemma Forall_saveHistory (P : InvoiceHistory -> Prop) i t d s :
  P {| h_items := i; h_tax := t; h_discount := d |} -> Forall P (history s) ->
  Forall P (history (saveHistory i t d s)).
Proof.
  intros Hsnap Hall. unfold saveHistory. cbn [history setHistory setHistoryIndex].
  assert (Hnew : Forall P (slice (history s) 0 (historyIndex s + 1)
                           ++ [ {| h_items := i; h_tax := t; h_discount := d |} ])).
  { apply Forall_app. split; [now apply Forall_slice|]. now constructor. }
  destruct (50 <? _); [now apply Forall_slice | exact Hnew].
Qed.

(** Where the cursor is after a record: on the new snapshot, or, when the
    list was cut, one past it. *)
Lemma saveHistory_cursor i t d s :
  history_ok s ->
  let s' := saveHistory i t d s in
  let snap := {| h_items := i; h_tax := t; h_discount := d |} in
  0 <= historyIndex s'
  /\ (at_index (history s') (historyIndex s') = Some snap
      \/ (historyIndex s' = 50 /\ length (history s') = 50%nat
          /\ last (history s') = Some snap)).
Proof.
  intros [Hi Hl]. cbv zeta.
  destruct (saveHistory_spec i t d s) as [Hh Hx]; [lia|].
  rewrite Hh, Hx, length_app, length_take. cbn [length]. split; [lia|].
  set (kept := take (Z.to_nat (historyIndex s + 1)) (history s)).
  assert (Hk : length kept = Nat.min (Z.to_nat (historyIndex s + 1)) (length (history s)))
    by apply length_take.
  fold kept. destruct (Nat.le_gt_cases (length kept + 1) 50) as [Hle|Hgt].
  - left. rewrite lastn_short by (rewrite length_app; cbn [length]; lia).
    unfold at_index.
    match goal with |- context [?a <? 0] => destruct (Z.ltb_spec a 0) as [|_]; [lia|] end.
    apply list_lookup_middle. lia.
  - right. split; [lia|]. split.
    + rewrite length_lastn, length_app. cbn [length]. lia.
    + apply last_lastn_snoc. lia.
Qed.

Lemma recorded_updateItem idx e s s1 : updateItem idx e s = Some s1 -> recorded s s1.
Proof.
  unfold updateItem. destruct (items s !! idx); [|discriminate].
  destruct (heap s !! l); [|discriminate]. intros [= <-]. split; reflexivity.
Qed.

Lemma recorded_edit s s1 : edit s s1 -> recorded s s1.
Proof.
  destruct 1 as [s | idx s Hlen | v s | v s]; try (split; reflexivity).
  unfold removeItem. destruct (Nat.leb_spec (length (items s)) 1); [lia|].
  split; reflexivity.
Qed.

Lemma synced_recorded s s1 : history_ok s -> recorded s s1 -> synced s1.
Proof.
  intros Hok [Hh Hx]. unfold synced. rewrite Hh, Hx.
  apply (saveHistory_cursor (items s1) (tax s1) (discount s1) s Hok).
Qed.

Lemma heap_ok_saveHistory h i t d s :
  refs_ok h i -> Forall (fun x => refs_ok h (h_items x)) (history s) ->
  Forall (fun x => refs_ok h (h_items x)) (history (saveHistory i t d s)).
Proof. intros Hi Hh. now apply (Forall_saveHistory (fun x => refs_ok h (h_items x))). Qed.

Lemma heap_ok_grow h h' (l : list InvoiceHistory) :
  (length h <= length h')%nat ->
  Forall (fun x => refs_ok h (h_items x)) l -> Forall (fun x => refs_ok h' (h_items x)) l.
Proof.
  intros Hle Hall. eapply Forall_impl; [exact Hall|].
  intros x Hx. now apply (refs_ok_mono h).
Qed.

Lemma refs_ok_delete h l idx : refs_ok h l -> refs_ok h (delete idx l).
Proof.
  intros [Hnd Hb]. split; [|now apply Forall_delete].
  eapply sublist_NoDup; [exact Hnd | apply sublist_delete].
Qed.

Lemma refs_ok_snoc h x l : refs_ok h l -> refs_ok (h ++ [x]) (l ++ [length h]).
Proof.
  intros [Hnd Hb]. split.
  - apply NoDup_app. split; [exact Hnd|]. split; [|apply NoDup_singleton].
    intros r Hr Hin. apply list_elem_of_singleton in Hin. subst r.
    rewrite Forall_forall in Hb. specialize (Hb _ Hr). lia.
  - apply Forall_app. split.
    + eapply Forall_impl; [exact Hb|]. cbn. intros r Hr. rewrite length_app. cbn. lia.
    + constructor; [|constructor]. rewrite length_app. cbn. lia.
Qed.

Lemma heap_ok_step s s' : heap_ok s -> step s s' -> heap_ok s'.
Proof.
  intros [Hi Hh] Hstep. destruct Hstep as
    [idx e s s' H | s | idx s | v s | v s | s s' H | s s' H | c s | t s | n s | d s].
  - unfold updateItem in H. destruct (items s !! idx) as [r|]; [|discriminate].
    destruct (heap s !! r) as [it|]; [|discriminate]. injection H as <-.
    assert (Hlen : (length (heap s) <= length (<[r := apply_edit e it]> (heap s)))%nat)
      by (now rewrite length_insert).
    pose proof (refs_ok_mono _ _ _ Hi Hlen) as Hi'.
    split; [exact Hi'|]. cbn [heap history setItems].
    apply (heap_ok_saveHistory _ _ _ _ (setErrors _ (setHeap _ s))); [exact Hi'|].
    cbn [history setErrors setHeap]. now apply (heap_ok_grow (heap s)).
  - pose proof (refs_ok_snoc _ emptyItem _ Hi) as Hi'.
    split; [exact Hi'|]. unfold addItem. cbn [heap history setItems].
    apply (heap_ok_saveHistory _ _ _ _ (setHeap _ s)); [exact Hi'|].
    cbn [history setHeap]. apply (heap_ok_grow (heap s)); [|exact Hh].
    cbn. rewrite length_app. lia.
  - unfold removeItem. destruct (Nat.leb_spec (length (items s)) 1) as [|Hlen];
      [now split|].
    rewrite filter_index_delete by lia. rewrite Nat.sub_0_r.
    pose proof (refs_ok_delete _ _ idx Hi) as Hi'.
    split; [exact Hi'|]. cbn [heap history setItems setErrors].
    now apply heap_ok_saveHistory.
  - split; [exact Hi|]. unfold changeTax.
    now apply (heap_ok_saveHistory _ _ _ _ (setTax _ s)).
  - split; [exact Hi|]. unfold changeDiscount.
    now apply (heap_ok_saveHistory _ _ _ _ (setDiscount _ s)).
  - unfold undo in H. destruct (0 <? historyIndex s); [|now injection H as <-].
    destruct (at_index (history s) (historyIndex s - 1)) as [snap|] eqn:Hs; [|discriminate].
    injection H as <-. split; [|exact Hh].
    exact (at_index_Forall (fun x => refs_ok (heap s) (h_items x)) _ _ _ Hh Hs).
  - unfold redo in H.
    destruct (historyIndex s <? Z.of_nat (length (history s)) - 1); [|now injection H as <-].
    destruct (at_index (history s) (historyIndex s + 1)) as [snap|] eqn:Hs; [|discriminate].
    injection H as <-. split; [|exact Hh].
    exact (at_index_Forall (fun x => refs_ok (heap s) (h_items x)) _ _ _ Hh Hs).
  - now split.
  - now split.
  - now split.
  - now split.
Qed.

Lemma synced_step s s' : history_ok s -> synced s -> step s s' -> synced s'.
Proof.
  intros Hok Hs Hstep. destruct Hstep as
    [idx e s s' H | s | idx s | v s | v s | s s' H | s s' H | c s | t s | n s | d s].
  - eapply synced_recorded; [exact Hok | eapply recorded_updateItem; exact H].
  - eapply synced_recorded; [exact Hok | apply recorded_edit; constructor].
  - destruct (Nat.leb_spec (length (items s)) 1) as [Hlen|Hlen].
    + unfold removeItem. destruct (Nat.leb_spec (length (items s)) 1); [exact Hs | lia].
    + eapply synced_recorded; [exact Hok | apply recorded_edit; now constructor].
  - eapply synced_recorded; [exact Hok | apply recorded_edit; constructor].
  - eapply synced_recorded; [exact Hok | apply recorded_edit; constructor].
  - destruct Hok as [Hi Hl]. unfold undo in H.
    destruct (Z.ltb_spec 0 (historyIndex s)); [|now injection H as <-].
    destruct (at_index (history s) (historyIndex s - 1)) as [snap|] eqn:Hsnap; [|discriminate].
    injection H as <-. split; [cbn; lia|]. left. cbn. rewrite Hsnap. now destruct snap.
  - destruct Hok as [Hi Hl]. pose proof Hs as [Hs0 _]. unfold redo in H.
    destruct (Z.ltb_spec (historyIndex s) (Z.of_nat (length (history s)) - 1));
      [|now injection H as <-].
    destruct (at_index (history s) (historyIndex s + 1)) as [snap|] eqn:Hsnap; [|discriminate].
    injection H as <-. split; [cbn; lia|]. left. cbn. rewrite Hsnap. now destruct snap.
  - exact Hs.
  - exact Hs.
  - exact Hs.
  - exact Hs.
Qed.

Lemma inv_step s s' : inv s -> step s s' -> inv s'.
Proof.
  intros (H1 & H2 & H3) Hstep. split; [|split].
  - eapply history_ok_step; eassumption.
  - eapply heap_ok_step; eassumption.
  - eapply synced_step; eassumption.
Qed.

Lemma inv_mounted d today : inv (mounted d today).
Proof.
  assert (Hok0 : history_ok (initialState today)) by (apply history_okb_ok; reflexivity).
  split; [|split].
  - unfold mounted, load. now apply history_ok_saveHistory.
  - assert (Hrefs : refs_ok (d_items d) (seq 0 (length (d_items d)))).
    { split; [apply NoDup_seq|]. apply Forall_forall. intros r Hr.
      apply elem_of_seq in Hr. lia. }
    split; [exact Hrefs|]. unfold mounted, load.
    apply (heap_ok_saveHistory (d_items d)); [exact Hrefs | constructor].
  - apply (synced_recorded (initialState today)); [exact Hok0|]. split; reflexivity.
Qed.

Lemma inv_reachable d today s : steps (mounted d today) s -> inv s.
Proof.
  intros Hsteps. remember (mounted d today) as s0 eqn:Hs0.
  induction Hsteps as [s1 | s1 s2 s3 _ IH Hstep].
  - subst s1. apply inv_mounted.
  - eapply inv_step; [apply IH; exact Hs0 | exact Hstep].
Qed.

Lemma at_index_lt {A : Type} (l : list A) i x :
  at_index l i = Some x -> 0 <= i < Z.of_nat (length l).
Proof.
  unfold at_index. destruct (Z.ltb_spec i 0); [discriminate|].
  intros Hx. apply lookup_lt_Some in Hx. lia.
Qed.

Lemma saveHistory_fits i t d s :
  history_ok s -> historyIndex s < Z.of_nat (length (history s)) -> historyIndex s < 49 ->
  history (saveHistory i t d s)
  = take (Z.to_nat (historyIndex s + 1)) (history s)
    ++ [ {| h_items := i; h_tax := t; h_discount := d |} ]
  /\ historyIndex (saveHistory i t d s) = historyIndex s + 1.
Proof.
  intros [Hi Hl] Hlt H49.
  destruct (saveHistory_spec i t d s) as [Hh Hx]; [lia|].
  rewrite Hh, Hx, length_app, length_take. cbn [length]. split; [|lia].
  apply lastn_short. rewrite length_app, length_take. cbn [length]. lia.
Qed.

Lemma saveHistory_full i t d s :
  history_ok s -> 49 <= historyIndex s -> (49 < length (history s))%nat ->
  history (saveHistory i t d s)
  = lastn 50 (history s ++ [ {| h_items := i; h_tax := t; h_discount := d |} ])
  /\ historyIndex (saveHistory i t d s) = 50.
Proof.
  intros [Hi Hl] H49 Hlen.
  destruct (saveHistory_spec i t d s) as [Hh Hx]; [lia|].
  rewrite Hh, Hx, take_ge by lia. rewrite length_app. cbn [length]. split; [reflexivity | lia].
Qed.

Lemma undo_recorded s s1 :
  history_ok s -> synced s -> recorded s s1 -> historyIndex s < 49 ->
  undo s1 = Some (setDiscount (discount s)
                    (setTax (tax s)
                       (setItems (items s) (setHistoryIndex (historyIndex s) s1)))).
Proof.
  intros Hok [H0 Hs] [Hh Hx] H49. destruct Hs as [Hs | [Hs _]]; [|lia].
  pose proof (at_index_lt _ _ _ Hs) as Hlt.
  destruct (saveHistory_fits (items s1) (tax s1) (discount s1) s Hok) as [Hh' Hx']; [lia..|].
  rewrite Hh' in Hh. rewrite Hx' in Hx. unfold undo. rewrite Hh, Hx.
  destruct (Z.ltb_spec 0 (historyIndex s + 1)); [|lia].
  replace (historyIndex s + 1 - 1) with (historyIndex s) by lia.
  assert (Hat : at_index (take (Z.to_nat (historyIndex s + 1)) (history s)
                          ++ [ {| h_items := items s1; h_tax := tax s1;
                                  h_discount := discount s1 |} ]) (historyIndex s)
                = Some (current s)).
  { unfold at_index in *. destruct (Z.ltb_spec (historyIndex s) 0); [lia|].
    rewrite lookup_app_l by (rewrite length_take; lia).
    rewrite lookup_take_lt by lia. exact Hs. }
  rewrite Hat. reflexivity.
Qed.

Lemma undo_recorded_full s s1 :
  history_ok s -> synced s -> recorded s s1 -> 49 <= historyIndex s ->
  undo s1 = Some (setHistoryIndex 49 s1) /\ historyIndex s1 = 50.
Proof.
  intros Hok [H0 Hs] [Hh Hx] H49.
  assert (Hlen : (49 < length (history s))%nat).
  { destruct Hs as [Hs | (_ & Hs & _)]; [apply at_index_lt in Hs|]; lia. }
  destruct (saveHistory_full (items s1) (tax s1) (discount s1) s Hok H49 Hlen) as [Hh' Hx'].
  rewrite Hh' in Hh. rewrite Hx' in Hx. split; [|exact Hx].
  assert (Hat : at_index (history s1) 49 = Some (current s1)).
  { rewrite Hh. unfold at_index. cbn [Z.ltb Z.compare].
    pose proof (last_lastn_snoc 50 (history s) (current s1) ltac:(lia)) as Hlast.
    rewrite last_lookup, length_lastn, length_app in Hlast. cbn [length] in Hlast.
    replace (Nat.pred _) with 49%nat in Hlast by lia. exact Hlast. }
  unfold undo. rewrite Hx. cbn [Z.ltb Z.compare]. change (50 - 1) with 49. rewrite Hat.
  destruct s1. reflexivity.
Qed.

Lemma rows_edit s s1 :
  heap_ok s -> edit s s1 -> deref (heap s1) (items s) = rows s.
Proof.
  intros [[_ Hb] _] Hedit. destruct Hedit as [s | idx s Hlen | v s | v s];
    try reflexivity.
  - unfold addItem. cbn [heap setItems saveHistory setHistoryIndex setHistory setHeap].
    now apply deref_app_heap.
  - unfold removeItem. destruct (Nat.leb_spec (length (items s)) 1); reflexivity.
Qed.

(** With the cursor at 49 or 50 (50 snapshots recorded), an operation that
    records leaves the cursor at 50, one past the end, and the [undo] after
    it only moves the cursor to 49: the items, tax and discount stay as the
    operation left them. *)
Theorem undo_when_full d today idx e s s1 :
  steps (mounted d today) s ->
  edit s s1 \/ updateItem idx e s = Some s1 ->
  49 <= historyIndex s ->
  historyIndex s1 = 50 /\ undo s1 = Some (setHistoryIndex 49 s1).
Proof.
  intros Hsteps Hop H49. destruct (inv_reachable _ _ _ Hsteps) as (Hok & Hheap & Hsync).
  assert (Hrec : recorded s s1).
  { destruct Hop as [H|H]; [now apply recorded_edit | eapply recorded_updateItem; exact H]. }
  destruct (undo_recorded_full s s1 Hok Hsync Hrec H49) as [Hu Hx]. now split.
Qed.

Lemma undo_when_full_witness :
  historyIndex (changeTax (VStr "7") after50Edits) = 50
  /\ undo (changeTax (VStr "7") after50Edits)
     = Some (setHistoryIndex 49 (changeTax (VStr "7") after50Edits)).
Proof.
  apply (undo_when_full (defaults "2024-01-01") "2024-01-01" 0%nat (EDescription "")
           after50Edits).
  - apply steps_taxEdits, steps_refl.
  - left. apply edit_changeTax.
  - vm_compute. discriminate.
Defined.

Lemma updateItem_Some idx e s :
  heap_ok s -> (idx < length (items s))%nat ->
  exists r it,
    items s !! idx = Some r /\ heap s !! r = Some it
    /\ updateItem idx e s
       = Some (setItems (items s)
                 (saveHistory (items s) (tax s) (discount s)
                    (setErrors (validate idx e (errors s))
                       (setHeap (<[r := apply_edit e it]> (heap s)) s)))).
Proof.
  intros [[_ Hb] _] Hlt.
  destruct (lookup_lt_is_Some_2 _ _ Hlt) as [r Hr].
  pose proof (Forall_lookup_1 _ _ _ _ Hb Hr) as Hrb. cbn in Hrb.
  destruct (lookup_lt_is_Some_2 _ _ Hrb) as [it Hit].
  exists r, it. split; [exact Hr|]. split; [exact Hit|].
  unfold updateItem, loc in *. cbv zeta. rewrite Hr. cbv beta iota. now rewrite Hit.
Qed.

Lemma updateItem_inv idx e s s1 :
  heap_ok s -> updateItem idx e s = Some s1 ->
  exists r it,
    items s !! idx = Some r /\ heap s !! r = Some it
    /\ rows s !! idx = Some it
    /\ heap s1 = <[r := apply_edit e it]> (heap s)
    /\ items s1 = items s
    /\ rows s1 = <[idx := apply_edit e it]> (rows s).
Proof.
  intros [[Hnd Hb] _] H. unfold updateItem in H.
  destruct (items s !! idx) as [r|] eqn:Hr; [|discriminate].
  destruct (heap s !! r) as [it|] eqn:Hit; [|discriminate]. injection H as <-.
  unfold loc in *. exists r, it. split; [reflexivity|]. split; [exact Hit|]. split.
  - unfold rows. rewrite deref_lookup, Hr by assumption. exact Hit.
  - split; [reflexivity|]. split; [reflexivity|].
    unfold rows. cbn [heap items setItems saveHistory setHistoryIndex setHistory
                       setErrors setHeap].
    now apply deref_insert.
Qed.

(** In every state the operations reach, [updateItem] returns exactly for
    the indices of the rows: an index past the last row reads [undefined]
    and the assignment throws.  Every reference of the items array points
    to an item object. *)
Theorem updateItem_defined d today idx e s :
  steps (mounted d today) s ->
  (is_Some (updateItem idx e s) <-> (idx < length (rows s))%nat)
  /\ length (rows s) = length (items s).
Proof.
  intros Hsteps. destruct (inv_reachable _ _ _ Hsteps) as (Hok & Hheap & Hsync).
  assert (Hlen : length (rows s) = length (items s)).
  { apply length_deref. now destruct Hheap as [[_ Hb] _]. }
  split; [|exact Hlen]. rewrite Hlen. split.
  - intros [s1 H]. unfold updateItem in H.
    destruct (items s !! idx) as [r|] eqn:Hr; [|discriminate].
    now apply lookup_lt_Some in Hr.
  - intros Hlt. destruct (updateItem_Some idx e s Hheap Hlt) as (r & it & _ & _ & ->). eauto.
Qed.

Lemma updateItem_defined_witness :
  (is_Some (updateItem 0 (EPrice (VStr "5")) form0) <-> (0 < length (rows form0))%nat)
  /\ length (rows form0) = length (items form0).
Proof.
  apply (updateItem_defined (defaults "2024-01-01") "2024-01-01"). apply steps_refl.
Defined.

(** [updateItem] changes the addressed row and no other, and of that row
    the edited field only: an edit of the description sets it to the value
    given and keeps quantity and price, an edit of the quantity keeps
    description and price, an edit of the price description and quantity;
    the tax, discount, currency, title, invoice number and date stay. *)
Theorem updateItem_rows d today idx e s s1 :
  steps (mounted d today) s -> updateItem idx e s = Some s1 ->
  exists it it1,
    rows s !! idx = Some it
    /\ rows s1 = <[idx := it1]> (rows s)
    /\ match e with
       | EDescription v =>
           description it1 = v /\ quantity it1 = quantity it /\ price it1 = price it
       | EQuantity _ => description it1 = description it /\ price it1 = price it
       | EPrice _ => description it1 = description it /\ quantity it1 = quantity it
       end
    /\ tax s1 = tax s /\ discount s1 = discount s /\ currency s1 = currency s
    /\ title s1 = title s /\ invoiceNumber s1 = invoiceNumber s /\ date s1 = date s.
Proof.
  intros Hsteps H. destruct (inv_reachable _ _ _ Hsteps) as (Hok & Hheap & Hsync).
  destruct (updateItem_inv idx e s s1 Hheap H) as (r & it & _ & _ & Hrow & _ & _ & Hrows).
  exists it, (apply_edit e it). split; [exact Hrow|]. split; [exact Hrows|].
  split; [destruct e; cbn; auto|].
  unfold updateItem in H. destruct (items s !! idx); [|discriminate].
  destruct (heap s !! l); [|discriminate]. injection H as <-. repeat split.
Qed.

Lemma updateItem_rows_witness :
  let s1 := default form0 (updateItem 0 (EDescription "Design") form0) in
  exists it it1,
    rows form0 !! 0%nat = Some it
    /\ rows s1 = <[0%nat := it1]> (rows form0)
    /\ (description it1 = "Design"%string
        /\ quantity it1 = quantity it /\ price it1 = price it)
    /\ tax s1 = tax form0 /\ discount s1 = discount form0 /\ currency s1 = currency form0
    /\ title s1 = title form0 /\ invoiceNumber s1 = invoiceNumber form0
    /\ date s1 = date form0.
Proof.
  apply (updateItem_rows (defaults "2024-01-01") "2024-01-01" 0%nat
           (EDescription "Design") form0).
  - apply steps_refl.
  - vm_compute. reflexivity.
Defined.

(** [updateItem] assigns to the item object itself, which the recorded
    snapshots share: the [undo] after it leaves every row as the edit left
    it, and every snapshot of the history that holds the object shows the
    edited row. *)
Theorem undo_after_updateItem d today idx e s s1 :
  steps (mounted d today) s -> updateItem idx e s = Some s1 ->
  exists s2,
    undo s1 = Some s2
    /\ rows s2 = rows s1
    /\ is_Some (rows s1 !! idx)
    /\ (forall x j, x ∈ history s2 -> h_items x !! j = items s !! idx ->
        deref (heap s2) (h_items x) !! j = rows s1 !! idx).
Proof.
  intros Hsteps H. destruct (inv_reachable _ _ _ Hsteps) as (Hok & Hheap & Hsync).
  assert (Hinv1 : inv s1).
  { eapply inv_step; [exact (conj Hok (conj Hheap Hsync))|]. eapply step_updateItem. exact H. }
  destruct Hinv1 as (Hok1 & [_ Hh1] & _).
  destruct (updateItem_inv idx e s s1 Hheap H) as (r & it & Hr & Hit & Hrow & Hheap1 & Hitems1 & Hrows).
  pose proof (recorded_updateItem _ _ _ _ H) as Hrec.
  assert (Hundo : exists s2, undo s1 = Some s2 /\ items s2 = items s1 /\ heap s2 = heap s1
                             /\ history s2 = history s1).
  { destruct (Z.lt_ge_cases (historyIndex s) 49) as [H49|H49].
    - eexists. split; [apply (undo_recorded s s1 Hok Hsync Hrec H49)|].
      cbn. now rewrite Hitems1.
    - destruct (undo_recorded_full s s1 Hok Hsync Hrec H49) as [Hu _].
      eexists. split; [exact Hu|]. repeat split. }
  destruct Hundo as (s2 & Hu & Hi2 & Hp2 & Hy2).
  assert (Hrows2 : rows s2 = rows s1) by (unfold rows; now rewrite Hi2, Hp2).
  assert (Hrb : (r < length (heap s))%nat) by (now apply lookup_lt_Some in Hit).
  assert (Hnew : rows s1 !! idx = Some (apply_edit e it)).
  { rewrite Hrows. apply list_lookup_insert_eq. now apply lookup_lt_Some in Hrow. }
  exists s2. split; [exact Hu|]. split; [exact Hrows2|]. split; [now rewrite Hnew|].
  - intros x j Hx Hj. rewrite Hnew. rewrite Hy2 in Hx. rewrite Hp2.
    rewrite Forall_forall in Hh1. destruct (Hh1 x Hx) as [_ Hb].
    rewrite deref_lookup by assumption. unfold loc in *. rewrite Hj, Hr. cbn. rewrite Hheap1.
    now apply list_lookup_insert_eq.
Qed.

Lemma undo_after_updateItem_witness :
  let s1 := default form0 (updateItem 0 (EPrice (VStr "5")) form0) in
  exists s2,
    undo s1 = Some s2
    /\ rows s2 = rows s1
    /\ is_Some (rows s1 !! 0%nat)
    /\ (forall x j, x ∈ history s2 -> h_items x !! j = items form0 !! 0%nat ->
        deref (heap s2) (h_items x) !! j = rows s1 !! 0%nat).
Proof.
  apply (undo_after_updateItem (defaults "2024-01-01") "2024-01-01" 0%nat
           (EPrice (VStr "5")) form0).
  - apply steps_refl.
  - vm_compute. reflexivity.
Defined.

Lemma undo_redo_back s :
  history_ok s -> synced s -> 0 < historyIndex s ->
  exists s1,
    undo s = Some s1
    /\ redo s1 = Some (setHistoryIndex (Z.min (historyIndex s) 49) s).
Proof.
  intros [Hi Hl] [H0 Hs] Hpos. destruct Hs as [Hs | (H50 & Hlen & Hlast)].
  - pose proof (at_index_lt _ _ _ Hs) as Hlt.
    destruct (at_index_Some (history s) (historyIndex s - 1)) as [snap Hsnap]; [lia|].
    eexists. split.
    + unfold undo. destruct (Z.ltb_spec 0 (historyIndex s)); [|lia]. now rewrite Hsnap.
    + unfold redo. cbn [history historyIndex setDiscount setTax setItems setHistoryIndex].
      destruct (Z.ltb_spec (historyIndex s - 1) (Z.of_nat (length (history s)) - 1)); [|lia].
      replace (historyIndex s - 1 + 1) with (historyIndex s) by lia. rewrite Hs.
      rewrite Z.min_l by lia. destruct s. reflexivity.
  - assert (Hat : at_index (history s) 49 = Some (current s)).
    { unfold at_index. cbn [Z.ltb Z.compare]. rewrite last_lookup, Hlen in Hlast. exact Hlast. }
    exists (setHistoryIndex 49 s). split.
    + unfold undo. rewrite H50. cbn [Z.ltb Z.compare]. change (50 - 1) with 49. rewrite Hat.
      destruct s. reflexivity.
    + unfold redo. cbn [history historyIndex setHistoryIndex]. rewrite Hlen, H50.
      reflexivity.
Qed.

Lemma redo_undo_back s :
  history_ok s -> synced s -> historyIndex s < Z.of_nat (length (history s)) - 1 ->
  exists s1, redo s = Some s1 /\ undo s1 = Some s.
Proof.
  intros [Hi Hl] [H0 Hs] Hlt. destruct Hs as [Hs | (H50 & Hlen & _)]; [|lia].
  destruct (at_index_Some (history s) (historyIndex s + 1)) as [snap Hsnap]; [lia|].
  eexists. split.
  - unfold redo.
    destruct (Z.ltb_spec (historyIndex s) (Z.of_nat (length (history s)) - 1)); [|lia].
    now rewrite Hsnap.
  - unfold undo. cbn [history historyIndex setDiscount setTax setItems setHistoryIndex].
    destruct (Z.ltb_spec 0 (historyIndex s + 1)); [|lia].
    replace (historyIndex s + 1 - 1) with (historyIndex s) by lia. rewrite Hs.
    destruct s. reflexivity.
Qed.

(** [undo] followed by [redo], from a cursor above 0: the state is back,
    except that a cursor of 50 has become 49. *)
Theorem undo_then_redo d today s :
  steps (mounted d today) s -> 0 < historyIndex s ->
  exists s1,
    undo s = Some s1
    /\ redo s1 = Some (setHistoryIndex (Z.min (historyIndex s) 49) s)
    /\ (historyIndex s <= 49 -> redo s1 = Some s).
Proof.
  intros Hsteps Hpos. destruct (inv_reachable _ _ _ Hsteps) as (Hok & _ & Hsync).
  destruct (undo_redo_back s Hok Hsync Hpos) as (s1 & Hu & Hr).
  exists s1. split; [exact Hu|]. split; [exact Hr|].
  intros Hle. rewrite Hr, Z.min_l by lia. now destruct s.
Qed.

Lemma undo_then_redo_witness :
  exists s1,
    undo (addItem form0) = Some s1
    /\ redo s1 = Some (setHistoryIndex (Z.min (historyIndex (addItem form0)) 49)
                         (addItem form0))
    /\ (historyIndex (addItem form0) <= 49 -> redo s1 = Some (addItem form0)).
Proof.
  apply (undo_then_redo (defaults "2024-01-01") "2024-01-01").
  - eapply steps_step; [apply steps_refl | apply step_addItem].
  - vm_compute. reflexivity.
Defined.

(** [redo] followed by [undo], from a cursor below the last index: the
    state is back. *)
Theorem redo_then_undo d today s :
  steps (mounted d today) s -> historyIndex s < Z.of_nat (length (history s)) - 1 ->
  exists s1, redo s = Some s1 /\ undo s1 = Some s.
Proof.
  intros Hsteps Hlt. destruct (inv_reachable _ _ _ Hsteps) as (Hok & _ & Hsync).
  now apply redo_undo_back.
Qed.

Lemma redo_then_undo_witness :
  exists s1, redo threeSnapshots = Some s1 /\ undo s1 = Some threeSnapshots.
Proof.
  apply (redo_then_undo (defaults "2024-01-01") "2024-01-01").
  - apply steps_threeSnapshots.
  - vm_compute. reflexivity.
Defined.

(** In every state the operations reach the cursor is at least 0, and the
    live items, tax and discount are the snapshot under it; when the cursor
    is 50, one past the end of the 50 snapshots, they are the last one. *)
Theorem cursor_snapshot d today s :
  steps (mounted d today) s ->
  0 <= historyIndex s
  /\ (at_index (history s) (historyIndex s) = Some (current s)
      \/ (historyIndex s = 50 /\ length (history s) = 50%nat
          /\ last (history s) = Some (current s))).
Proof. intros Hsteps. now destruct (inv_reachable _ _ _ Hsteps) as (_ & _ & Hsync). Qed.

Lemma cursor_snapshot_witness :
  0 <= historyIndex threeSnapshots
  /\ (at_index (history threeSnapshots) (historyIndex threeSnapshots)
      = Some (current threeSnapshots)
      \/ (historyIndex threeSnapshots = 50 /\ length (history threeSnapshots) = 50%nat
          /\ last (history threeSnapshots) = Some (current threeSnapshots))).
Proof.
  apply (cursor_snapshot (defaults "2024-01-01") "2024-01-01"). apply steps_threeSnapshots.
Defined.

Lemma delete_ge' {A : Type} (l : list A) i : (length l <= i)%nat -> delete i l = l.
Proof.
  intros H. rewrite delete_take_drop, take_ge, drop_ge by lia. apply app_nil_r.
Qed.

(** With more than one row [removeItem] deletes the row at the index; the
    rows after it move up by one, while the error entries stay under the
    keys of their old indices; an index past the last row removes nothing
    and still records a snapshot. *)
Theorem removeItem_rows d today idx s :
  steps (mounted d today) s -> (1 < length (items s))%nat ->
  let s' := removeItem idx s in
  rows s' = delete idx (rows s)
  /\ (forall j, (idx <= j)%nat ->
      rows s' !! j = rows s !! S j
      /\ errors s' !! quantity_key (S j) = errors s !! quantity_key (S j)
      /\ errors s' !! price_key (S j) = errors s !! price_key (S j))
  /\ ((length (items s) <= idx)%nat ->
      rows s' = rows s
      /\ history s' = history (saveHistory (items s) (tax s) (discount s) s)
      /\ historyIndex s' = historyIndex (saveHistory (items s) (tax s) (discount s) s)).
Proof.
  intros Hsteps Hlen. cbv zeta.
  destruct (inv_reachable _ _ _ Hsteps) as (Hok & [[_ Hb] _] & Hsync).
  assert (Hitems : items (removeItem idx s) = delete idx (items s)).
  { unfold removeItem. destruct (Nat.leb_spec (length (items s)) 1); [lia|].
    cbn [items setItems]. now rewrite filter_index_delete, Nat.sub_0_r by lia. }
  assert (Hrows : rows (removeItem idx s) = delete idx (rows s)).
  { unfold rows. rewrite Hitems.
    replace (heap (removeItem idx s)) with (heap s).
    - now apply deref_delete.
    - unfold removeItem. now destruct (length (items s) <=? 1)%nat. }
  assert (Herr : forall key, key <> quantity_key idx -> key <> price_key idx ->
                 errors (removeItem idx s) !! key = errors s !! key).
  { intros key Hq Hp. unfold removeItem.
    destruct (Nat.leb_spec (length (items s)) 1); [lia|].
    cbn [errors setItems setErrors]. now rewrite !lookup_delete_ne by congruence. }
  split; [exact Hrows|]. split.
  - intros j Hj. split; [rewrite Hrows; now apply list_lookup_delete_ge|].
    split; apply Herr.
    + intros H. apply quantity_key_inj in H. lia.
    + apply key_prefix_differs.
    + intros H. symmetry in H. now apply key_prefix_differs in H.
    + intros H. apply price_key_inj in H. lia.
  - intros Hidx. split.
    + rewrite Hrows. apply delete_ge'. unfold rows. rewrite length_deref by assumption.
      unfold loc in *. lia.
    + unfold removeItem. destruct (Nat.leb_spec (length (items s)) 1); [lia|].
      rewrite filter_index_delete, Nat.sub_0_r, delete_ge' by lia. split; reflexivity.
Qed.

Lemma removeItem_rows_witness :
  let s := addItem form0 in
  let s' := removeItem 0 s in
  rows s' = delete 0%nat (rows s)
  /\ (forall j, (0 <= j)%nat ->
      rows s' !! j = rows s !! S j
      /\ errors s' !! quantity_key (S j) = errors s !! quantity_key (S j)
      /\ errors s' !! price_key (S j) = errors s !! price_key (S j))
  /\ ((length (items s) <= 0)%nat ->
      rows s' = rows s
      /\ history s' = history (saveHistory (items s) (tax s) (discount s) s)
      /\ historyIndex s' = historyIndex (saveHistory (items s) (tax s) (discount s) s)).
Proof.
  apply (removeItem_rows (defaults "2024-01-01") "2024-01-01" 0%nat (addItem form0)).
  - eapply steps_step; [apply steps_refl | apply step_addItem].
  - vm_compute. lia.
Defined.

Lemma wf_nadd x y : wf (x + y)%num.
Proof.
  destruct x as [| a | m1 e1], y as [| b | m2 e2]; try exact I.
  - cbn. now destruct (eqb a b).
  - apply wf_norm.
Qed.

Lemma nadd_zero_r x : wf x -> (x + zero)%num = x.
Proof.
  destruct x as [| a | m e]; intros Hwf; try reflexivity.
  unfold nadd, zero. rewrite Z.mul_0_l, Z.add_0_r.
  rewrite norm_scale by lia.
  replace (Z.min e 0 + (e - Z.min e 0)) with e by lia. now apply norm_wf.
Qed.

Lemma wf_subtotal (f : Item -> num) l : forall a,
  wf a -> wf (fold_left (fun sum item => sum + f item)%num l a).
Proof.
  induction l as [|x l IH]; intros a Ha; [exact Ha|].
  cbn [fold_left]. apply IH, wf_nadd.
Qed.

Lemma calcTotals_snoc_empty l t d :
  calcTotals (l ++ [emptyItem]) t d = calcTotals l t d.
Proof.
  unfold calcTotals. rewrite fold_left_app. cbn [fold_left].
  change ((parseFloat (String (price emptyItem)) ||| zero)
          * (parseInt (String (quantity emptyItem)) ||| one))%num with zero.
  now rewrite nadd_zero_r by (apply wf_subtotal; reflexivity).
Qed.

(** [addItem] appends a row with no description, quantity 1 and price 0;
    the totals and the error entries stay as they are. *)
Theorem addItem_rows d today s :
  steps (mounted d today) s ->
  rows (addItem s) = rows s ++ [emptyItem]
  /\ totals (addItem s) = totals s
  /\ errors (addItem s) = errors s.
Proof.
  intros Hsteps. destruct (inv_reachable _ _ _ Hsteps) as (_ & [[_ Hb] _] & _).
  assert (Hrows : rows (addItem s) = rows s ++ [emptyItem]).
  { unfold rows, addItem.
    cbn [heap items setItems saveHistory setHistoryIndex setHistory setHeap].
    now apply deref_snoc. }
  split; [exact Hrows|]. split; [|reflexivity].
  unfold totals. fold (rows (addItem s)). rewrite Hrows.
  replace (tax (addItem s)) with (tax s) by reflexivity.
  replace (discount (addItem s)) with (discount s) by reflexivity.
  apply calcTotals_snoc_empty.
Qed.

Lemma addItem_rows_witness :
  rows (addItem form0) = rows form0 ++ [emptyItem]
  /\ totals (addItem form0) = totals form0
  /\ errors (addItem form0) = errors form0.
Proof.
  apply (addItem_rows (defaults "2024-01-01") "2024-01-01"). apply steps_refl.
Defined.

Lemma digit_val_bound c : is_digit c = true -> 0 <= digit_val c <= 9.
Proof.
  unfold is_digit, digit_val. intros H. apply andb_true_iff in H as [H1 H2].
  apply Z.leb_le in H1, H2. lia.
Qed.

Lemma dec_val_bound l : all_digits l -> 0 <= dec_val l < 10 ^ Z.of_nat (length l).
Proof.
  induction 1 as [|c l Hc _ IH]; [cbn; lia|].
  rewrite dec_val_cons. apply digit_val_bound in Hc.
  cbn [length]. rewrite Nat2Z.inj_succ, Z.pow_succ_r by lia. nia.
Qed.

Lemma dec_val_take l j :
  all_digits l -> (j <= length l)%nat ->
  dec_val (take j l) = dec_val l / 10 ^ Z.of_nat (length l - j).
Proof.
  intros Hall Hj. rewrite <- (take_drop j l) at 2. rewrite dec_val_app.
  assert (Hd : all_digits (drop j l)) by (now apply Forall_drop).
  pose proof (dec_val_bound _ Hd) as Hb. rewrite length_drop in *.
  apply Z.div_unique with (r := dec_val (drop j l)); [left; exact Hb | lia].
Qed.

(** The number of digits of a positive integer. *)
Lemma digits_length m :
  0 < m ->
  10 ^ (Z.of_nat (length (digits m)) - 1) <= m < 10 ^ Z.of_nat (length (digits m)).
Proof.
  intros Hm. destruct (digits_spec m) as (Hall & Hval & Hlen & Hlow); [lia|].
  split; [now apply Hlow|]. pose proof (dec_val_bound _ Hall) as Hb. lia.
Qed.

Lemma parseInt_chars_digits ds r :
  all_digits ds -> ds <> [] ->
  stops (fun c => is_digit c || hex_mark c) r ->
  parseInt_chars (ds ++ r) = of_Z (dec_val ds).
Proof.
  intros Hall Hne Hr. destruct ds as [|c0 ds]; [congruence|].
  assert (Hc0 : is_digit c0 = true) by (now inversion Hall).
  assert (Hds : all_digits ds) by (now inversion Hall).
  assert (Hr1 : stops is_digit r).
  { destruct r as [|c r]; [exact I|]. cbn in *. now apply orb_false_iff in Hr. }
  unfold parseInt_chars. rewrite <- app_comm_cons.
  pose proof (digit_other _ Hc0) as (Hsp & Hmi & Hpl & _).
  cbn [trim_start]. rewrite Hsp. cbn [split_sign]. rewrite Hmi, Hpl.
  unfold read_integer.
  assert (Hhex : match c0 :: ds ++ r with
                 | a :: b :: rest =>
                     if Ascii.eqb a "0" && (Ascii.eqb b "x" || Ascii.eqb b "X")
                     then (true, rest) else (false, c0 :: ds ++ r)
                 | _ => (false, c0 :: ds ++ r)
                 end = (false, c0 :: ds ++ r)).
  { destruct ds as [|c1 ds'].
    - destruct r as [|c1 r']; [reflexivity|]. cbn in Hr. apply orb_false_iff in Hr as [_ Hx].
      cbn [app]. unfold hex_mark in Hx. now rewrite Hx, andb_false_r.
    - assert (Hc1 : is_digit c1 = true) by (now inversion Hds).
      apply digit_other in Hc1 as (_ & _ & _ & _ & _ & _ & _ & Hx1 & Hx2).
      rewrite <- app_comm_cons. now rewrite Hx1, Hx2, andb_false_r. }
  rewrite Hhex, app_comm_cons, span_app by assumption. reflexivity.
Qed.

Lemma String_positive m e :
  wf (Fin m e) -> 0 < m ->
  list_ascii_of_string (String (Fin m e)) = unsigned_chars m e.
Proof.
  intros Hwf Hm. unfold String. rewrite list_ascii_of_string_of_list_ascii.
  unfold num_chars. rewrite (canon_wf _ _ Hwf).
  destruct (Z.eqb_spec m 0) as [|_]; [lia|].
  destruct (Z.ltb_spec m 0) as [|_]; [lia | reflexivity].
Qed.

(** A number from 1 up to [10^21] with fraction digits prints with a
    decimal point, and [parseInt] reads the digits before it. *)
Lemma parseInt_String_frac m e :
  wf (Fin m e) -> 0 < m -> e < 0 -> 10 ^ (- e) <= m -> m < 10 ^ (21 - e) ->
  parseInt (String (Fin m e)) = of_Z (m / 10 ^ (- e)).
Proof.
  intros Hwf Hm He Hge Hlt. unfold parseInt. rewrite String_positive by assumption.
  destruct (digits_spec m) as (Hall & Hval & Hlen & _); [lia|].
  pose proof (digits_length m Hm) as [Hlo Hhi].
  unfold unsigned_chars. cbv zeta. set (k := Z.of_nat (length (digits m))) in *.
  assert (Hn1 : 0 < k + e).
  { assert (Hp : 10 ^ (- e) < 10 ^ k) by lia.
    apply Z.pow_lt_mono_r_iff in Hp; lia. }
  assert (Hn2 : k + e <= 21).
  { assert (Hp : 10 ^ (k - 1) < 10 ^ (21 - e)) by lia.
    apply Z.pow_lt_mono_r_iff in Hp; lia. }
  destruct (Z.leb_spec k (k + e)); [lia|]. cbn [andb].
  destruct (Z.ltb_spec 0 (k + e)); [|lia].
  destruct (Z.leb_spec (k + e) 21); [|lia]. cbn [andb].
  rewrite parseInt_chars_digits.
  - rewrite dec_val_take by (try assumption; lia). rewrite Hval. do 3 f_equal. lia.
  - now apply Forall_take.
  - destruct (digits m) as [|c s]; [cbn in Hlen; lia|].
    destruct (Z.to_nat (k + e)) eqn:Hj; [lia | discriminate].
  - reflexivity.
Qed.

(** A number from [10^-6] up to 1 prints as ["0."] and digits, and
    [parseInt] reads 0. *)
Lemma parseInt_String_small m e :
  wf (Fin m e) -> 0 < m -> e < 0 -> m < 10 ^ (- e) -> 10 ^ (- e - 6) <= m ->
  parseInt (String (Fin m e)) = zero.
Proof.
  intros Hwf Hm He Hlt Hge. unfold parseInt. rewrite String_positive by assumption.
  destruct (digits_spec m) as (_ & _ & Hlen & _); [lia|].
  pose proof (digits_length m Hm) as [Hlo Hhi].
  unfold unsigned_chars. cbv zeta. set (k := Z.of_nat (length (digits m))) in *.
  assert (Hn1 : k + e <= 0).
  { assert (Hp : 10 ^ (k - 1) < 10 ^ (- e)) by lia.
    apply Z.pow_lt_mono_r_iff in Hp; lia. }
  assert (Hn2 : -6 < k + e).
  { destruct (Z.le_gt_cases (- e - 6) 0); [lia|].
    assert (Hp : 10 ^ (- e - 6) < 10 ^ k) by lia.
    apply Z.pow_lt_mono_r_iff in Hp; lia. }
  destruct (Z.leb_spec k (k + e)); [lia|]. cbn [andb].
  destruct (Z.ltb_spec 0 (k + e)); [lia|]. cbn [andb].
  destruct (Z.ltb_spec (-6) (k + e)); [|lia].
  destruct (Z.leb_spec (k + e) 0); [|lia]. cbn [andb].
  change ("0"%char :: "."%char :: ?r) with (["0"%char] ++ "."%char :: r).
  rewrite parseInt_chars_digits; [reflexivity | | discriminate | reflexivity].
  constructor; [reflexivity | constructor].
Qed.

Lemma truthy_norm m e : m <> 0 -> truthy (norm m e) = true.
Proof.
  intros Hm. unfold norm. pose proof (canon_spec m e Hm) as Hs.
  destruct (canon m e) as [m' e']. destruct Hs as (_ & _ & Hnd).
  cbn [truthy]. destruct (Z.eqb_spec m' 0) as [->|_]; [|reflexivity].
  now rewrite Z.mod_0_l in Hnd.
Qed.

(** The price the totals read: the stored price, whatever its sign. *)
Lemma price_read p :
  wf p -> is_nan p = false -> (parseFloat (String p) ||| zero)%num = p.
Proof.
  intros Hwf Hnan. rewrite parseFloat_String by assumption.
  destruct p as [| b | m e]; try discriminate; try reflexivity.
  unfold nor, truthy. destruct (Z.eqb_spec m 0) as [->|_]; [|reflexivity].
  cbn in Hwf. now subst e.
Qed.

Lemma range_from_one m e :
  nge (Fin m e) one = true -> nlt (Fin m e) (Fin 1 21) = true -> e < 0 ->
  0 < m /\ 10 ^ (- e) <= m /\ m < 10 ^ (21 - e).
Proof.
  intros Hge Hlt He. unfold nge, nlt, one in *.
  apply negb_true_iff, Z.ltb_ge in Hge. apply Z.ltb_lt in Hlt.
  rewrite Z.min_l in Hge, Hlt by lia.
  rewrite Z.sub_diag, Z.pow_0_r, Z.mul_1_r, Z.mul_1_l in Hge, Hlt.
  replace (0 - e) with (- e) in Hge by lia.
  assert (0 < 10 ^ (- e)) by (apply Z.pow_pos_nonneg; lia). lia.
Qed.

Lemma range_below_one m e :
  wf (Fin m e) ->
  nge (Fin m e) (Fin 1 (-6)) = true -> nlt (Fin m e) one = true ->
  0 < m /\ e < 0 /\ m < 10 ^ (- e) /\ 10 ^ (- e - 6) <= m.
Proof.
  intros Hwf Hge Hlt. unfold nge, nlt, one in *.
  apply negb_true_iff, Z.ltb_ge in Hge. apply Z.ltb_lt in Hlt.
  assert (He : e < 0).
  { destruct (Z.lt_ge_cases e 0) as [|He]; [assumption|].
    rewrite Z.min_r, Z.sub_diag, Z.pow_0_r, Z.sub_0_r in Hlt by lia.
    rewrite Z.min_r in Hge by lia.
    assert (0 < 10 ^ e) by (apply Z.pow_pos_nonneg; lia).
    assert (0 < 10 ^ (e - -6)) by (apply Z.pow_pos_nonneg; lia).
    assert (0 < 10 ^ (-6 - -6)) by (apply Z.pow_pos_nonneg; lia). nia. }
  rewrite Z.min_l in Hlt by lia.
  rewrite Z.sub_diag, Z.pow_0_r, Z.mul_1_r, Z.mul_1_l in Hlt.
  replace (0 - e) with (- e) in Hlt by lia.
  assert (Hm : 0 < m).
  { destruct (Z.le_ge_cases e (-6)) as [H6|H6].
    - rewrite Z.min_l, Z.sub_diag, Z.pow_0_r, Z.mul_1_r, Z.mul_1_l in Hge by lia.
      assert (0 < 10 ^ (-6 - e)) by (apply Z.pow_pos_nonneg; lia). lia.
    - rewrite Z.min_r, Z.sub_diag, Z.pow_0_r in Hge by lia.
      assert (0 < 10 ^ (e - -6)) by (apply Z.pow_pos_nonneg; lia). nia. }
  repeat split; try assumption.
  destruct (Z.le_ge_cases e (-6)) as [H6|H6].
  - rewrite Z.min_l, Z.sub_diag, Z.pow_0_r, Z.mul_1_r, Z.mul_1_l in Hge by lia.
    replace (- e - 6) with (-6 - e) by lia. exact Hge.
  - destruct (Z.eq_dec e (-6)) as [->|Hne]; [cbn; lia|].
    rewrite Z.pow_neg_r by lia. lia.
Qed.

Lemma short_wf x : short x = true -> wf x.
Proof.
  destruct x as [| b | m e]; try discriminate. cbn [short]. intros H.
  repeat (apply andb_true_iff in H as [H _]). now apply wfb_wf.
Qed.

(** A quantity from 1 up to [10^21], whole or not, counts in the totals as
    its integer part: [parseInt] reads the digits before the decimal point
    of its text.  Validation raises no quantity error for it. *)
Theorem fractional_quantity_truncated item :
  short (quantity item) = true ->
  nge (quantity item) one = true -> nlt (quantity item) (Fin 1 21) = true ->
  parseInt (String (quantity item)) = trunc (quantity item)
  /\ (parseInt (String (quantity item)) ||| one)%num = trunc (quantity item)
  /\ quantity_invalid (EQuantity (VNum (quantity item))) = false.
Proof.
  intros Hq Hge Hlt.
  destruct (quantity item) as [| b | m e] eqn:Hqi; try discriminate.
  apply short_wf in Hq.
  assert (Hread : parseInt (String (Fin m e)) = trunc (Fin m e)
                  /\ truthy (trunc (Fin m e)) = true).
  { unfold trunc. destruct (Z.leb_spec 0 e) as [He|He].
    - destruct (quantity_bounds m e He Hge Hlt) as [Hm Hb].
      split; [now apply parseInt_String_int|].
      cbn. destruct (Z.eqb_spec m 0); [lia | reflexivity].
    - destruct (range_from_one m e Hge Hlt He) as (Hm & Hlo & Hhi).
      assert (Hpos : 0 < 10 ^ (- e)) by (apply Z.pow_pos_nonneg; lia).
      rewrite Z.quot_div_nonneg by lia.
      split; [now apply parseInt_String_frac|].
      apply truthy_norm. assert (1 <= m / 10 ^ (- e)); [|lia].
      apply Z.div_le_lower_bound; lia. }
  destruct Hread as [Hread Htruthy]. split; [exact Hread|]. split.
  - rewrite Hread. unfold nor. now rewrite Htruthy.
  - cbn [quantity_invalid Number]. unfold nge in Hge. now apply negb_true_iff in Hge.
Qed.

Lemma fractional_quantity_truncated_witness :
  parseInt (String (quantity itemFraction)) = trunc (quantity itemFraction)
  /\ (parseInt (String (quantity itemFraction)) ||| one)%num = trunc (quantity itemFraction)
  /\ quantity_invalid (EQuantity (VNum (quantity itemFraction))) = false.
Proof.
  apply (fractional_quantity_truncated itemFraction); vm_compute; reflexivity.
Defined.

(** A quantity from [10^-6] up to 1 is billed as 1: validation flags it,
    [parseInt] reads 0 from its text and the default of 1 takes over, so
    that the row counts its price once. *)
Theorem small_quantity_billed_once item :
  short (price item) = true -> short (quantity item) = true ->
  nge (quantity item) (Fin 1 (-6)) = true -> nlt (quantity item) one = true ->
  parseInt (String (quantity item)) = zero
  /\ rowTotal item = price item
  /\ quantity_invalid (EQuantity (VNum (quantity item))) = true.
Proof.
  intros Hp Hq Hge Hlt.
  assert (Hnan : is_nan (price item) = false) by (now destruct (price item)).
  apply short_wf in Hp.
  destruct (quantity item) as [| b | m e] eqn:Hqi; try discriminate.
  apply short_wf in Hq.
  destruct (range_below_one m e Hq Hge Hlt) as (Hm & He & Hhi & Hlo).
  assert (Hread : parseInt (String (Fin m e)) = zero) by (now apply parseInt_String_small).
  split; [exact Hread|]. split; [|exact Hlt].
  unfold rowTotal. rewrite Hqi, Hread, price_read by assumption.
  change (zero ||| one)%num with one. now apply nmul_one_r.
Qed.

Lemma small_quantity_billed_once_witness :
  parseInt (String (quantity itemHalf)) = zero
  /\ rowTotal itemHalf = price itemHalf
  /\ quantity_invalid (EQuantity (VNum (quantity itemHalf))) = true.
Proof.
  apply (small_quantity_billed_once itemHalf); vm_compute; reflexivity.
Defined.

Lemma leading_digit_range m : 0 < m -> 1 <= leading_digit m <= 9.
Proof.
  intros Hm. destruct (digits_spec m) as (Hall & Hval & Hlen & Hlow); [lia|].
  specialize (Hlow Hm). unfold leading_digit.
  destruct (digits m) as [|d rest]; [cbn in Hlen; lia|]. cbn [hd].
  assert (Hd : is_digit d = true) by (now inversion Hall).
  assert (Hrest : all_digits rest) by (now inversion Hall).
  apply digit_val_bound in Hd. pose proof (dec_val_bound _ Hrest) as Hb.
  rewrite dec_val_cons in Hval. cbn [length] in Hlow.
  rewrite Nat2Z.inj_succ in Hlow. replace (Z.succ (Z.of_nat (length rest)) - 1)
    with (Z.of_nat (length rest)) in Hlow by lia.
  split; [|lia]. destruct (Z.eq_dec (digit_val d) 0) as [H0|H0]; [|lia].
  rewrite H0 in Hval. lia.
Qed.

(** A number printed in exponent notation starts with one digit, and
    [parseInt] reads that digit. *)
Lemma parseInt_String_exponent m e :
  wf (Fin m e) -> 0 < m ->
  21 < Z.of_nat (length (digits m)) + e \/ Z.of_nat (length (digits m)) + e <= -6 ->
  parseInt (String (Fin m e)) = of_Z (leading_digit m).
Proof.
  intros Hwf Hm Hn. unfold parseInt. rewrite String_positive by assumption.
  destruct (digits_spec m) as (Hall & _ & Hlen & _); [lia|].
  unfold unsigned_chars, leading_digit. cbv zeta.
  set (k := Z.of_nat (length (digits m))) in *.
  assert (H1 : (k <=? k + e) && (k + e <=? 21) = false).
  { apply andb_false_iff. destruct Hn; [right; apply Z.leb_gt | left; apply Z.leb_gt]; lia. }
  assert (H2 : (0 <? k + e) && (k + e <=? 21) = false).
  { apply andb_false_iff. destruct Hn; [right; apply Z.leb_gt | left; apply Z.ltb_ge]; lia. }
  assert (H3 : (-6 <? k + e) && (k + e <=? 0) = false).
  { apply andb_false_iff. destruct Hn; [right; apply Z.leb_gt | left; apply Z.ltb_ge]; lia. }
  rewrite H1, H2, H3. clear H1 H2 H3.
  destruct (digits m) as [|d rest]; [cbn in Hlen; lia|]. cbn [hd].
  assert (Hd : all_digits [d]) by (constructor; [now inversion Hall | constructor]).
  destruct rest as [|d' rest'].
  - change (d :: "e"%char :: ?r) with ([d] ++ "e"%char :: r).
    rewrite parseInt_chars_digits; [|exact Hd | discriminate | reflexivity].
    unfold dec_val, digits_val. cbn [fold_left]. f_equal; lia.
  - change (d :: "."%char :: ?r) with ([d] ++ "."%char :: r).
    rewrite parseInt_chars_digits; [|exact Hd | discriminate | reflexivity].
    unfold dec_val, digits_val. cbn [fold_left]. f_equal; lia.
Qed.

Lemma range_exponent m e :
  nge (Fin m e) (Fin 1 21) = true
  \/ (nlt zero (Fin m e) = true /\ nlt (Fin m e) (Fin 1 (-6)) = true) ->
  0 < m
  /\ (21 < Z.of_nat (length (digits m)) + e \/ Z.of_nat (length (digits m)) + e <= -6).
Proof.
  intros H.
  assert (Hm : 0 < m).
  { destruct H as [Hge | [Hpos _]].
    - unfold nge, nlt in Hge. apply negb_true_iff, Z.ltb_ge in Hge.
      assert (0 < 10 ^ (21 - Z.min e 21)) by (apply Z.pow_pos_nonneg; lia).
      assert (0 < 10 ^ (e - Z.min e 21)) by (apply Z.pow_pos_nonneg; lia). nia.
    - unfold nlt, zero in Hpos. apply Z.ltb_lt in Hpos.
      assert (0 < 10 ^ (e - Z.min 0 e)) by (apply Z.pow_pos_nonneg; lia). nia. }
  split; [exact Hm|]. pose proof (digits_length m Hm) as [Hlo Hhi].
  set (k := Z.of_nat (length (digits m))) in *.
  assert (Hk : 1 <= k).
  { unfold k. destruct (digits_spec m) as (_ & _ & Hlen & _); lia. }
  destruct H as [Hge | [_ Hlt]].
  - left. unfold nge, nlt in Hge. apply negb_true_iff, Z.ltb_ge in Hge.
    destruct (Z.le_gt_cases e 21) as [He|He]; [|lia].
    rewrite Z.min_l, Z.sub_diag, Z.pow_0_r, Z.mul_1_r, Z.mul_1_l in Hge by lia.
    assert (Hp : 10 ^ (21 - e) < 10 ^ k) by lia.
    apply Z.pow_lt_mono_r_iff in Hp; lia.
  - right. unfold nlt in Hlt. apply Z.ltb_lt in Hlt.
    destruct (Z.lt_ge_cases e (-6)) as [He|He].
    + rewrite Z.min_l, Z.sub_diag, Z.pow_0_r, Z.mul_1_r, Z.mul_1_l in Hlt by lia.
      assert (Hp : 10 ^ (k - 1) < 10 ^ (-6 - e)) by lia.
      apply Z.pow_lt_mono_r_iff in Hp; lia.
    + rewrite Z.min_r, Z.sub_diag, Z.pow_0_r, Z.mul_1_l in Hlt by lia.
      assert (0 < 10 ^ (e - -6)) by (apply Z.pow_pos_nonneg; lia). nia.
Qed.

(** A positive quantity that prints in exponent notation, from [10^21] on
    or below [10^-6], counts in the totals as its first digit, a whole
    number from 1 to 9: [parseInt] stops at the decimal point or the [e] of
    its text.  A quantity of [5e-7] counts as 5, one of [2.5e21] as 2. *)
Theorem exponent_quantity_leading_digit item :
  short (quantity item) = true ->
  nge (quantity item) (Fin 1 21) = true
  \/ (nlt zero (quantity item) = true /\ nlt (quantity item) (Fin 1 (-6)) = true) ->
  parseInt (String (quantity item)) = leading (quantity item)
  /\ (parseInt (String (quantity item)) ||| one)%num = leading (quantity item)
  /\ nge (leading (quantity item)) one = true
  /\ nlt (leading (quantity item)) (of_Z 10) = true.
Proof.
  intros Hq Hr.
  destruct (quantity item) as [| b | m e] eqn:Hqi; try discriminate.
  apply short_wf in Hq. destruct (range_exponent m e Hr) as [Hm Hn].
  pose proof (leading_digit_range m Hm) as Hd.
  assert (Hread : parseInt (String (Fin m e)) = leading (Fin m e)).
  { cbn [leading]. rewrite Z.abs_eq by lia. now apply parseInt_String_exponent. }
  assert (Hcmp : nge (leading (Fin m e)) one = true
                 /\ nlt (leading (Fin m e)) (of_Z 10) = true
                 /\ truthy (leading (Fin m e)) = true).
  { cbn [leading]. rewrite Z.abs_eq by lia. set (d := leading_digit m) in *.
    assert (Hc : d = 1 \/ d = 2 \/ d = 3 \/ d = 4 \/ d = 5 \/ d = 6 \/ d = 7
                 \/ d = 8 \/ d = 9) by lia.
    clearbody d.
    destruct Hc as [-> | [-> | [-> | [-> | [-> | [-> | [-> | [-> | ->]]]]]]]];
      (split; [|split]); vm_compute; reflexivity. }
  destruct Hcmp as (H1 & H2 & H3).
  split; [exact Hread|]. split; [|split; assumption].
  rewrite Hread. unfold nor. now rewrite H3.
Qed.

Lemma exponent_quantity_leading_digit_witness :
  parseInt (String (quantity itemTiny)) = leading (quantity itemTiny)
  /\ (parseInt (String (quantity itemTiny)) ||| one)%num = leading (quantity itemTiny)
  /\ nge (leading (quantity itemTiny)) one = true
  /\ nlt (leading (quantity itemTiny)) (of_Z 10) = true.
Proof.
  apply (exponent_quantity_leading_digit itemTiny).
  - vm_compute. reflexivity.
  - right. split; vm_compute; reflexivity.
Defined.

Lemma step_edit s s1 : edit s s1 -> step s s1.
Proof. destruct 1; constructor. Qed.

Lemma heap_edit s s1 : edit s s1 -> exists ext, heap s1 = heap s ++ ext.
Proof.
  destruct 1 as [s | idx s Hlen | v s | v s].
  - now exists [emptyItem].
  - exists []. rewrite app_nil_r. unfold removeItem.
    now destruct (length (items s) <=? 1)%nat.
  - exists []. now rewrite app_nil_r.
  - exists []. now rewrite app_nil_r.
Qed.

(** After [k] edits from a cursor [c] with [c + k <= 49]: the cursor is
    [c + k], inside the history, the entries up to [c] are as before, and
    the heap has only grown. *)
Lemma edits_history k s s' :
  inv s -> edits k s s' -> historyIndex s + Z.of_nat k <= 49 ->
  inv s'
  /\ historyIndex s' = historyIndex s + Z.of_nat k
  /\ historyIndex s' < Z.of_nat (length (history s'))
  /\ take (Z.to_nat (historyIndex s + 1)) (history s')
     = take (Z.to_nat (historyIndex s + 1)) (history s)
  /\ exists ext, heap s' = heap s ++ ext.
Proof.
  intros Hinv Hedits. induction Hedits as [s | k s s1 s2 Hedits IH Hedit]; intros Hk.
  - split; [exact Hinv|]. split; [lia|]. split.
    + destruct Hinv as (_ & _ & [H0 [Hs | [H50 _]]]); [|lia].
      apply at_index_lt in Hs. lia.
    + split; [reflexivity|]. exists []. now rewrite app_nil_r.
  - destruct (IH Hinv) as (Hinv1 & Hx1 & Hlt1 & Htake1 & ext1 & Hheap1); [lia|].
    pose proof (inv_step _ _ Hinv1 (step_edit _ _ Hedit)) as Hinv2.
    destruct Hinv1 as (Hok1 & _ & _). destruct Hinv as (_ & _ & [H0 _]).
    destruct (recorded_edit _ _ Hedit) as [Hh Hx].
    destruct (saveHistory_fits (items s2) (tax s2) (discount s2) s1 Hok1) as [Hh' Hx'];
      [lia..|].
    rewrite Hh' in Hh. rewrite Hx' in Hx.
    split; [exact Hinv2|]. split; [lia|]. split.
    + rewrite Hh, Hx, length_app, length_take. cbn [length]. lia.
    + split.
      * rewrite Hh, take_app_le by (rewrite length_take; lia).
        rewrite take_take, <- Htake1. f_equal. lia.
      * destruct (heap_edit _ _ Hedit) as [ext2 Hheap2].
        exists (ext1 ++ ext2). now rewrite Hheap2, Hheap1, app_assoc.
Qed.

(** [k] undos from a cursor [c + k] inside the history end on the snapshot
    at [c]. *)
Lemma undo_n_spec k : forall c t,
  0 <= c -> historyIndex t = c + Z.of_nat k ->
  historyIndex t < Z.of_nat (length (history t)) ->
  exists t',
    undo_n k t = Some t'
    /\ historyIndex t' = c /\ history t' = history t /\ heap t' = heap t
    /\ (k = 0%nat -> t' = t)
    /\ (k <> 0%nat -> at_index (history t) c = Some (current t')).
Proof.
  induction k as [|k IH]; intros c t Hc Hx Hlt.
  - exists t. cbn [undo_n]. repeat split; [lia | congruence].
  - destruct (at_index_Some (history t) (historyIndex t - 1)) as [snap Hsnap]; [lia|].
    set (t1 := setDiscount (h_discount snap)
                 (setTax (h_tax snap)
                    (setItems (h_items snap) (setHistoryIndex (historyIndex t - 1) t)))).
    assert (Hu : undo t = Some t1).
    { unfold undo. destruct (Z.ltb_spec 0 (historyIndex t)); [|lia]. now rewrite Hsnap. }
    destruct (IH c t1) as (t' & Hn & Hx' & Hh' & Hp' & H0 & Hk); [lia | cbn; lia | cbn; lia|].
    exists t'. cbn [undo_n]. rewrite Hu. cbn. split; [exact Hn|].
    split; [exact Hx'|]. split; [exact Hh'|]. split; [exact Hp'|].
    split; [discriminate|]. intros _. destruct k as [|k'].
    + rewrite (H0 eq_refl). replace c with (historyIndex t - 1) by lia.
      rewrite Hsnap. now destruct snap.
    + apply Hk. discriminate.
Qed.

(** [k] edits of the list or of a percentage followed by [k] undos: the
    rows, tax, discount and cursor are back, as long as the cursor stays
    below 50 ([historyIndex + k <= 49]). *)
Theorem undo_after_edits d today k s s' :
  steps (mounted d today) s -> edits k s s' ->
  historyIndex s + Z.of_nat k <= 49 ->
  exists s'',
    undo_n k s' = Some s''
    /\ rows s'' = rows s /\ tax s'' = tax s /\ discount s'' = discount s
    /\ historyIndex s'' = historyIndex s.
Proof.
  intros Hsteps Hedits Hk. pose proof (inv_reachable _ _ _ Hsteps) as Hinv.
  destruct (edits_history k s s' Hinv Hedits Hk) as (Hinv' & Hx & Hlt & Htake & ext & Hheap).
  destruct Hinv as (Hok & [[_ Hb] _] & [H0 Hs]).
  destruct Hs as [Hs | [H50 _]]; [|lia].
  destruct (undo_n_spec k (historyIndex s) s' H0 Hx Hlt)
    as (s'' & Hn & Hx'' & Hh'' & Hp'' & Hk0 & Hk1).
  exists s''. split; [exact Hn|].
  assert (Hcur : current s'' = current s).
  { destruct k as [|k'].
    - rewrite (Hk0 eq_refl). inversion Hedits. reflexivity.
    - specialize (Hk1 ltac:(discriminate)).
      assert (Hat : at_index (history s') (historyIndex s) = Some (current s)).
      { pose proof (at_index_lt _ _ _ Hs) as Hlt0. unfold at_index in *.
        destruct (Z.ltb_spec (historyIndex s) 0); [lia|].
        rewrite <- (lookup_take_lt (history s') (Z.to_nat (historyIndex s + 1))) by lia.
        rewrite Htake, lookup_take_lt by lia. exact Hs. }
      congruence. }
  injection Hcur as Hi Ht Hd. split; [|now repeat split].
  unfold rows. rewrite Hp'', Hheap, Hi. now apply deref_app_heap.
Qed.

Lemma undo_after_edits_witness :
  exists s'',
    undo_n 2 (changeTax (VStr "10") (addItem form0)) = Some s''
    /\ rows s'' = rows form0 /\ tax s'' = tax form0 /\ discount s'' = discount form0
    /\ historyIndex s'' = historyIndex form0.
Proof.
  apply (undo_after_edits (defaults "2024-01-01") "2024-01-01" 2 form0).
  - apply steps_refl.
  - eapply edits_S; [eapply edits_S; [apply edits_O | apply edit_addItem]
                    | apply edit_changeTax].
  - vm_compute. discriminate.
Defined.

(** ** Persistence: what is stored loads back *)

Lemma parse_string_quote_char c l :
  parse_string (quote_char c ++ l)
  = match parse_string l with
    | Some (us, r) => Some (N_of_ascii c :: us, r)
    | None => None
    end.
Proof.
  destruct c as [[] [] [] [] [] [] [] []]; reflexivity.
Qed.

Lemma parse_string_quote cs rest :
  parse_string (flat_map quote_char cs ++ dquote :: rest)
  = Some (map N_of_ascii cs, rest).
Proof.
  induction cs as [|c cs IH]; [reflexivity|].
  cbn [flat_map map]. rewrite <- app_assoc, parse_string_quote_char. now rewrite IH.
Qed.

Lemma parse_string_quoted s rest :
  parse_string (flat_map quote_char (list_ascii_of_string s) ++ [dquote] ++ rest)
  = Some (units s, rest).
Proof. apply parse_string_quote. Qed.

Lemma prints_quote s : prints 1 (quote s) (JVStr (units s)).
Proof.
  intros f rest Hf _. destruct f as [|f]; [lia|].
  unfold quote. cbn [parse_value app skip_ws].
  change (is_ws dquote) with false. cbv iota.
  change (Ascii.eqb dquote "n") with false. change (Ascii.eqb dquote "t") with false.
  change (Ascii.eqb dquote "f") with false. change (code dquote =? 34) with true.
  cbv iota. rewrite <- app_assoc. now rewrite parse_string_quoted.
Qed.

(** *** Numbers *)

Lemma digits_head m :
  0 < m ->
  exists c s, digits m = c :: s /\ is_digit c = true /\ Ascii.eqb c "0" = false
              /\ all_digits s.
Proof.
  intros Hm. destruct (digits_spec m) as (Hall & Hval & Hlen & Hlow); [lia|].
  specialize (Hlow Hm). destruct (digits m) as [|c s]; [cbn in Hlen; lia|].
  assert (Hc : is_digit c = true) by (now inversion Hall).
  assert (Hs : all_digits s) by (now inversion Hall).
  exists c, s. split; [reflexivity|]. split; [exact Hc|]. split; [|exact Hs].
  destruct (Ascii.eqb_spec c "0") as [->|]; [|reflexivity].
  rewrite dec_val_cons in Hval. change (digit_val "0") with 0 in Hval.
  pose proof (dec_val_bound s Hs) as Hb. cbn [length] in Hlow.
  replace (Z.of_nat (S (length s)) - 1) with (Z.of_nat (length s)) in Hlow by lia. lia.
Qed.

Lemma stops_numeric r :
  stops numeric r ->
  stops is_digit r /\ stops (fun c => Ascii.eqb c ".") r
  /\ stops (fun c => Ascii.eqb c "e" || Ascii.eqb c "E") r.
Proof.
  destruct r as [|c r]; [now repeat split|]. cbn. unfold numeric. intros H.
  apply orb_false_iff in H as [H HE]. apply orb_false_iff in H as [H He].
  apply orb_false_iff in H as [H Hd]. rewrite He, HE. now repeat split.
Qed.

Lemma int_part_digits c s r :
  is_digit c = true -> Ascii.eqb c "0" = false -> all_digits s -> stops is_digit r ->
  int_part (c :: s ++ r) = (c :: s, r).
Proof.
  intros Hc Hz Hs Hr. unfold int_part. rewrite Hz.
  change (c :: s ++ r) with ((c :: s) ++ r). apply span_app; [|exact Hr].
  now constructor.
Qed.

Lemma frac_part_none r : stops (fun c => Ascii.eqb c ".") r -> frac_part r = ([], r).
Proof. destruct r as [|c r]; [reflexivity|]. cbn. now intros ->. Qed.

Lemma frac_part_digits ds r :
  all_digits ds -> ds <> [] -> stops is_digit r ->
  frac_part ("."%char :: ds ++ r) = (ds, r).
Proof.
  intros Hds Hne Hr. unfold frac_part. change (Ascii.eqb "." ".") with true. cbv iota.
  rewrite span_app by assumption. destruct ds; [congruence | reflexivity].
Qed.

Lemma exponent_part_none r :
  stops (fun c => Ascii.eqb c "e" || Ascii.eqb c "E") r -> exponent_part r = (0, r).
Proof. destruct r as [|c r]; [reflexivity|]. cbn. now intros ->. Qed.

Lemma exponent_part_rest ex r :
  stops is_digit r ->
  exponent_part ("e"%char :: (if ex <? 0 then "-"%char else "+"%char)
                 :: digits (Z.abs ex) ++ r)
  = (ex, r).
Proof.
  intros Hr. destruct (digits_spec (Z.abs ex)) as (Hall & Hval & Hlen & _); [lia|].
  unfold exponent_part. change (Ascii.eqb "e" "e" || Ascii.eqb "e" "E") with true.
  cbv iota.
  destruct (Z.ltb_spec ex 0) as [Hneg|Hpos]; cbn [split_sign];
    [change (Ascii.eqb "-" "-") with true
    |change (Ascii.eqb "+" "-") with false; change (Ascii.eqb "+" "+") with true];
    cbv iota; rewrite span_app by assumption;
    (destruct (digits (Z.abs ex)) as [|c t]; [cbn in Hlen; lia|]);
    f_equal; lia.
Qed.

(** What [Number::toString] prints for a positive number reads back. *)
Lemma unsigned_number_chars m e rest :
  0 < m -> m mod 10 <> 0 -> stops numeric rest ->
  unsigned_number (unsigned_chars m e ++ rest) = Some (Fin m e, rest).
Proof.
  intros Hm Hnd Hrest.
  destruct (stops_numeric _ Hrest) as (Hr1 & Hr2 & Hr3).
  assert (Hwf : wf (Fin m e)).
  { unfold wf. destruct (Z.eqb_spec m 0); [lia | assumption]. }
  destruct (digits_spec m) as (Hall & Hval & Hlen & _); [lia|].
  destruct (digits_head m Hm) as (c & s & Hd & Hc & Hz & Hs).
  unfold unsigned_chars. rewrite Hd in *. clear Hd. cbv zeta.
  set (k := Z.of_nat (length (c :: s))). set (n := k + e).
  assert (Hk : k = Z.of_nat (length s) + 1) by (unfold k; cbn [length]; lia).
  unfold unsigned_number.
  destruct ((k <=? n) && (n <=? 21)) eqn:Ha.
  { (* digits and zeros *)
    apply andb_true_iff in Ha as [Ha1 Ha2]. apply Z.leb_le in Ha1, Ha2.
    rewrite <- app_assoc, <- app_comm_cons, app_assoc.
    rewrite int_part_digits;
      [| assumption | assumption
       | apply Forall_app; split; [assumption | apply all_digits_zeros]
       | assumption].
    rewrite frac_part_none, exponent_part_none by assumption.
    rewrite app_nil_r, app_comm_cons, dec_val_app, dec_val_zeros, length_zeros, Hval by lia.
    cbn [length]. rewrite Z.add_0_r, Z.sub_0_r, norm_scale by lia.
    replace (0 + _) with e by lia. now rewrite norm_wf. }
  destruct ((0 <? n) && (n <=? 21)) eqn:Hb.
  { (* a dot inside the digits *)
    apply andb_true_iff in Hb as [Hb1 Hb2]. apply Z.ltb_lt in Hb1. apply Z.leb_le in Hb2.
    apply andb_false_iff in Ha as [Ha|Ha]; [apply Z.leb_gt in Ha | apply Z.leb_gt in Ha; lia].
    destruct (Z.to_nat n) as [|j] eqn:Hj; [lia|]. cbn [take drop].
    rewrite <- app_assoc, <- !app_comm_cons.
    rewrite int_part_digits;
      [| assumption | assumption | now apply Forall_take | reflexivity].
    rewrite frac_part_digits; [| now apply Forall_drop | | assumption].
    - rewrite exponent_part_none by assumption.
      change (c :: take j s) with (take (S j) (c :: s)).
      change (drop j s) with (drop (S j) (c :: s)).
      rewrite take_drop, Hval, length_drop.
      replace (0 - _) with e by (cbn [length] in *; lia). now rewrite norm_wf.
    - intros Hnil. apply (f_equal length) in Hnil. rewrite length_drop in Hnil.
      cbn [length] in Hnil. lia. }
  destruct ((-6 <? n) && (n <=? 0)) eqn:Hc0.
  { (* leading zeros after the dot *)
    apply andb_true_iff in Hc0 as [Hc1 Hc2]. apply Z.ltb_lt in Hc1. apply Z.leb_le in Hc2.
    rewrite <- !app_comm_cons. unfold int_part. change (Ascii.eqb "0" "0") with true.
    cbv iota.
    rewrite frac_part_digits; [| | | assumption].
    - rewrite exponent_part_none by assumption.
      rewrite length_app, Nat2Z.inj_add, length_zeros by lia.
      cbn [app]. rewrite dec_val_cons, dec_val_app, dec_val_zeros, Hval.
      change (digit_val "0") with 0.
      rewrite <- (norm_wf m e Hwf). do 3 f_equal; lia.
    - apply Forall_app. split; [apply all_digits_zeros | assumption].
    - destruct (zeros (- n)); discriminate. }
  (* exponent notation *)
  destruct s as [|d' rest'].
  - rewrite <- !app_comm_cons.
    change (c :: "e"%char :: ?r) with (c :: [] ++ "e"%char :: r).
    rewrite int_part_digits; [|assumption|assumption|constructor|reflexivity].
    rewrite frac_part_none by reflexivity.
    rewrite <- app_comm_cons, exponent_part_rest by assumption.
    cbn [app length]. rewrite Hval.
    replace (n - 1 - Z.of_nat 0) with e by (unfold n, k; cbn [length]; lia).
    now rewrite norm_wf.
  - rewrite <- !app_comm_cons.
    change (c :: "."%char :: ?r) with (c :: [] ++ "."%char :: r).
    rewrite int_part_digits; [|assumption|assumption|constructor|reflexivity].
    rewrite <- app_assoc, (app_comm_cons rest' _ d').
    rewrite frac_part_digits; [|assumption|discriminate|reflexivity].
    rewrite <- !app_comm_cons, exponent_part_rest by assumption.
    cbn [app]. rewrite Hval.
    replace (n - 1 - _) with e by (unfold n, k; cbn [length]; lia).
    now rewrite norm_wf.
Qed.

Lemma digit_start c :
  is_digit c = true ->
  is_ws c = false /\ Ascii.eqb c "n" = false /\ Ascii.eqb c "t" = false
  /\ Ascii.eqb c "f" = false /\ (code c =? 34) = false /\ Ascii.eqb c "[" = false
  /\ Ascii.eqb c "{" = false /\ Ascii.eqb c "-" = false.
Proof.
  destruct c as [[] [] [] [] [] [] [] []]; intros H;
    first [ discriminate H | repeat split; reflexivity ].
Qed.

Lemma prints_number x : wf x -> prints 1 (number_text x) (number_value x).
Proof.
  intros Hwf f rest Hf Hrest. destruct f as [|f]; [lia|].
  destruct x as [| b | m e]; [reflexivity | reflexivity |].
  destruct (stops_numeric _ Hrest) as (Hr1 & Hr2 & Hr3).
  unfold number_text, number_value, String.
  rewrite list_ascii_of_string_of_list_ascii.
  unfold num_chars. rewrite (canon_wf _ _ Hwf).
  pose proof Hwf as Hwf'. unfold wf in Hwf'.
  destruct (Z.eqb_spec m 0) as [->|Hm0].
  - subst e. cbn [app parse_value skip_ws]. change (is_ws "0") with false. cbv iota.
    change (Ascii.eqb "0" "n") with false. change (Ascii.eqb "0" "t") with false.
    change (Ascii.eqb "0" "f") with false. change (code "0" =? 34) with false.
    change (Ascii.eqb "0" "[") with false. change (Ascii.eqb "0" "{") with false.
    change (Ascii.eqb "0" "-" || is_digit "0") with true. cbv iota.
    unfold parse_number. change (Ascii.eqb "0" "-") with false. cbv iota.
    unfold unsigned_number, int_part. change (Ascii.eqb "0" "0") with true. cbv iota.
    now rewrite frac_part_none, exponent_part_none by assumption.
  - destruct (Z.ltb_spec m 0) as [Hneg|Hpos].
    + rewrite <- app_comm_cons. cbn [parse_value skip_ws].
      change (is_ws "-") with false. cbv iota.
      change (Ascii.eqb "-" "n") with false. change (Ascii.eqb "-" "t") with false.
      change (Ascii.eqb "-" "f") with false. change (code "-" =? 34) with false.
      change (Ascii.eqb "-" "[") with false. change (Ascii.eqb "-" "{") with false.
      change (Ascii.eqb "-" "-" || is_digit "-") with true. cbv iota.
      unfold parse_number. change (Ascii.eqb "-" "-") with true. cbv iota.
      rewrite unsigned_number_chars by (try apply mod10_opp; try assumption; lia).
      cbn [nneg]. now rewrite Z.opp_involutive.
    + destruct (unsigned_chars_head m e) as (c & t & Heq & Hc); [lia|].
      pose proof (unsigned_number_chars m e rest ltac:(lia) Hwf' Hrest) as Hrt.
      rewrite Heq in *. rewrite <- app_comm_cons in *.
      destruct (digit_start c Hc) as (H1 & H2 & H3 & H4 & H5 & H6 & H7 & H8).
      cbn [parse_value skip_ws]. rewrite H1, H2, H3, H4, H5, H6, H7, H8, Hc.
      cbn [orb]. unfold parse_number. now rewrite H8, Hrt.
Qed.

Lemma prints_mono n n' txt v : prints n txt v -> (n <= n')%nat -> prints n' txt v.
Proof. intros H Hle f rest Hf Hr. apply H; [lia | exact Hr]. Qed.

(** *** Objects and arrays *)

Lemma commas_cons x xs :
  xs <> [] -> commas (x :: xs) = x ++ ","%char :: commas xs.
Proof. destruct xs; [congruence | reflexivity]. Qed.

Lemma parse_members_spec n (ms : list (string * list ascii)) (vs : list jvalue) :
  Forall2 (fun m v => prints n (snd m) v) ms vs -> ms <> [] ->
  forall f rest, (n + length ms <= f)%nat ->
    parse_members f (commas (map member_text ms) ++ "}"%char :: rest)
    = Ok (zip (map (fun m => units (fst m)) ms) vs) rest.
Proof.
  induction 1 as [|[k txt] v ms vs Hp Hall IH]; intros Hne f rest Hf; [congruence|].
  destruct f as [|f]; [cbn in Hf; lia|]. cbn [length] in Hf. cbn [snd] in Hp.
  assert (Hhead : forall R,
            stops numeric R ->
            parse_members (S f) (member_text (k, txt) ++ R)
            = match skip_ws R with
              | c'' :: t'' =>
                  if Ascii.eqb c'' ","
                  then match parse_members f t'' with
                       | Ok ms' r'' => Ok ((units k, v) :: ms') r''
                       | Bad => Bad
                       | NoFuel => NoFuel
                       end
                  else if Ascii.eqb c'' "}" then Ok [(units k, v)] t'' else Bad
              | [] => Bad
              end).
  { intros R HR. unfold member_text, quote. cbn [fst snd].
    rewrite <- !app_assoc, <- !app_comm_cons. cbn [parse_members skip_ws].
    change (is_ws dquote) with false. cbv iota.
    change (code dquote =? 34) with true. cbv iota.
    rewrite <- app_assoc, parse_string_quoted.
    cbn [app skip_ws]. change (is_ws ":") with false. cbv iota.
    change (Ascii.eqb ":" ":") with true. cbv iota.
    rewrite (Hp f R) by (try assumption; lia). reflexivity. }
  cbn [map]. destruct ms as [|m' ms'].
  - inversion Hall; subst. cbn [commas map zip zip_with].
    rewrite Hhead by reflexivity. reflexivity.
  - rewrite commas_cons by discriminate. rewrite <- app_assoc, <- app_comm_cons.
    rewrite Hhead by reflexivity. cbn [skip_ws]. change (is_ws ",") with false.
    cbv iota. change (Ascii.eqb "," ",") with true. cbv iota.
    rewrite IH by (try discriminate; cbn [length] in *; lia). reflexivity.
Qed.

Lemma prints_object n (ms : list (string * list ascii)) (vs : list jvalue) :
  Forall2 (fun m v => prints n (snd m) v) ms vs -> ms <> [] ->
  prints (S (n + length ms)) (object_text ms)
    (JVObj (zip (map (fun m => units (fst m)) ms) vs)).
Proof.
  intros Hall Hne f rest Hf _. destruct f as [|f]; [lia|].
  unfold object_text.
  rewrite <- app_comm_cons, <- app_assoc. cbn [app parse_value skip_ws].
  change (is_ws "{") with false. cbv iota.
  change (Ascii.eqb "{" "n") with false. change (Ascii.eqb "{" "t") with false.
  change (Ascii.eqb "{" "f") with false. change (code "{" =? 34) with false.
  change (Ascii.eqb "{" "[") with false. change (Ascii.eqb "{" "{") with true.
  cbv iota.
  pose proof (parse_members_spec n ms vs Hall Hne f rest ltac:(lia)) as Hm.
  destruct ms as [|[k txt] ms']; [congruence|].
  assert (Hq : exists t, commas (map member_text ((k, txt) :: ms')) ++ "}"%char :: rest
                         = dquote :: t).
  { cbn [map]. destruct ms' as [|m' ms''].
    - cbn [commas map]. unfold member_text, quote. cbn [fst].
      rewrite <- !app_comm_cons. eauto.
    - rewrite commas_cons by discriminate. unfold member_text at 1. unfold quote.
      cbn [fst]. rewrite <- !app_comm_cons. eauto. }
  destruct Hq as [t Hq]. rewrite Hq in *. cbn [skip_ws].
  change (is_ws dquote) with false. cbv iota.
  change (Ascii.eqb dquote "}") with false. cbv iota. now rewrite Hm.
Qed.

Lemma parse_elements_spec n (txts : list (list ascii)) (vs : list jvalue) :
  Forall2 (fun txt v => prints n txt v) txts vs -> txts <> [] ->
  forall f rest, (n + length txts <= f)%nat ->
    parse_elements f (commas txts ++ "]"%char :: rest) = Ok vs rest.
Proof.
  induction 1 as [|txt v txts vs Hp Hall IH]; intros Hne f rest Hf; [congruence|].
  destruct f as [|f]; [cbn in Hf; lia|]. cbn [length] in Hf.
  destruct txts as [|txt' txts'].
  - inversion Hall; subst. cbn [commas parse_elements].
    rewrite (Hp f ("]"%char :: rest)) by (try reflexivity; lia). reflexivity.
  - rewrite commas_cons by discriminate. rewrite <- app_assoc, <- app_comm_cons.
    cbn [parse_elements].
    rewrite (Hp f) by (try reflexivity; lia). cbn [skip_ws].
    change (is_ws ",") with false. cbv iota. change (Ascii.eqb "," ",") with true.
    cbv iota. rewrite IH by (try discriminate; cbn [length] in *; lia). reflexivity.
Qed.

Lemma prints_array n (txts : list (list ascii)) (vs : list jvalue) :
  Forall2 (fun txt v => prints n txt v) txts vs -> Forall braced txts ->
  prints (S (n + length txts)) (array_text txts) (JVArr vs).
Proof.
  intros Hall Hbr f rest Hf _. destruct f as [|f]; [lia|].
  unfold array_text. rewrite <- app_comm_cons, <- app_assoc.
  cbn [app parse_value skip_ws].
  change (is_ws "[") with false. cbv iota.
  change (Ascii.eqb "[" "n") with false. change (Ascii.eqb "[" "t") with false.
  change (Ascii.eqb "[" "f") with false. change (code "[" =? 34) with false.
  change (Ascii.eqb "[" "[") with true. cbv iota.
  destruct txts as [|txt txts'].
  - inversion Hall; subst. reflexivity.
  - pose proof (parse_elements_spec n _ vs Hall ltac:(discriminate) f rest ltac:(lia)) as He.
    assert (Hq : exists t, commas (txt :: txts') ++ "]"%char :: rest = "{"%char :: t).
    { inversion Hbr as [|? ? [t ->] _]; subst. destruct txts' as [|txt' txts''].
      - cbn [commas]. rewrite <- app_comm_cons. eauto.
      - rewrite commas_cons by discriminate. rewrite <- !app_comm_cons. eauto. }
    destruct Hq as [t Hq]. rewrite Hq in *. cbn [skip_ws].
    change (is_ws "{") with false. cbv iota.
    change (Ascii.eqb "{" "]") with false. cbv iota. now rewrite He.
Qed.

(** *** Items and records *)

Lemma prints_item it : item_wf it -> prints 5 (item_text it) (item_value it).
Proof.
  intros [Hq Hp].
  apply (prints_object 1
           [ ("description"%string, quote (description it));
             ("quantity"%string, number_text (quantity it));
             ("price"%string, number_text (price it)) ]
           [ string_value (description it); number_value (quantity it);
             number_value (price it) ]); [|discriminate].
  repeat constructor; cbn [snd];
    [apply prints_quote | now apply prints_number | now apply prints_number].
Qed.

Lemma prints_items its :
  Forall item_wf its ->
  prints (6 + length its) (array_text (map item_text its)) (JVArr (map item_value its)).
Proof.
  intros Hall.
  assert (HF : Forall2 (fun txt v => prints 5 txt v)
                 (map item_text its) (map item_value its)).
  { induction Hall as [|it its Hit _ IH]; cbn [map]; constructor;
      [now apply prints_item | exact IH]. }
  pose proof (prints_array 5 (map item_text its) (map item_value its) HF) as H.
  rewrite length_map in H. apply H.
  - apply Forall_map. apply Forall_forall. intros it _. unfold braced, item_text, object_text.
    eauto.
Qed.

Lemma prints_data d :
  data_wf d ->
  prints (14 + length (d_items d)) (list_ascii_of_string (data_text d)) (data_value d).
Proof.
  intros (Hits & Ht & Hd). unfold data_text.
  rewrite list_ascii_of_string_of_list_ascii.
  apply (prints_mono (S (6 + length (d_items d) + 7))); [|lia].
  apply (prints_object (6 + length (d_items d))
           [ ("items"%string, array_text (map item_text (d_items d)));
             ("tax"%string, number_text (d_tax d));
             ("discount"%string, number_text (d_discount d));
             ("currency"%string, quote (currency_code (d_currency d)));
             ("title"%string, quote (d_title d));
             ("invoiceNumber"%string, quote (d_invoiceNumber d));
             ("date"%string, quote (d_date d)) ]
           [ JVArr (map item_value (d_items d)); number_value (d_tax d);
             number_value (d_discount d); string_value (currency_code (d_currency d));
             string_value (d_title d); string_value (d_invoiceNumber d);
             string_value (d_date d) ]); [|discriminate].
  repeat constructor; cbn [snd].
  - now apply prints_items.
  - apply (prints_mono 1); [now apply prints_number | lia].
  - apply (prints_mono 1); [now apply prints_number | lia].
  - apply (prints_mono 1); [apply prints_quote | lia].
  - apply (prints_mono 1); [apply prints_quote | lia].
  - apply (prints_mono 1); [apply prints_quote | lia].
  - apply (prints_mono 1); [apply prints_quote | lia].
Qed.

Lemma length_commas (xs : list (list ascii)) :
  Forall (fun x => x <> []) xs -> (length xs <= length (commas xs))%nat.
Proof.
  induction 1 as [|x xs Hx Hxs IH]; [cbn; lia|].
  destruct xs as [|x' xs'].
  - cbn. destruct x; [congruence | cbn; lia].
  - rewrite commas_cons by discriminate. rewrite length_app. cbn [length] in *. lia.
Qed.

Lemma length_data_text d :
  (length (d_items d) + 7 <= length (list_ascii_of_string (data_text d)))%nat.
Proof.
  unfold data_text. rewrite list_ascii_of_string_of_list_ascii.
  unfold object_text. cbn [map fst snd length].
  rewrite commas_cons by discriminate. rewrite !length_app.
  unfold member_text at 1. cbn [fst snd]. rewrite length_app.
  unfold array_text. cbn [length]. rewrite !length_app.
  pose proof (length_commas (map item_text (d_items d))) as H.
  rewrite length_map in H.
  assert (Hne : Forall (fun x => x <> []) (map item_text (d_items d))).
  { apply Forall_map, Forall_forall. intros it _. discriminate. }
  specialize (H Hne). cbn [length].
  change (length (quote "items")) with 7%nat. lia.
Qed.

(** What is stored parses back to the record's value. *)
Lemma parse_data_text d : data_wf d -> parse (data_text d) = Some (data_value d).
Proof.
  intros Hwf. unfold parse. cbv zeta.
  pose proof (length_data_text d) as Hlen.
  pose proof (prints_data d Hwf (2 * length (list_ascii_of_string (data_text d)) + 1)%nat
                [] ltac:(lia) I) as Hp.
  rewrite app_nil_r in Hp. now rewrite Hp.
Qed.

(** *** The typed view *)

Lemma units_string_units s : units_string (units s) = Some s.
Proof.
  unfold units_string, units.
  assert (H : forall cs, forallb (fun u => (u <? 256)%N) (map N_of_ascii cs) = true
                         /\ map ascii_of_N (map N_of_ascii cs) = cs).
  { induction cs as [|c cs [IH1 IH2]]; [now split|]. cbn [map forallb]. split.
    - rewrite IH1, andb_true_r. apply N.ltb_lt, N_ascii_bounded.
    - now rewrite ascii_N_embedding, IH2. }
  destruct (H (list_ascii_of_string s)) as [-> ->].
  now rewrite string_of_list_ascii_of_string.
Qed.

Lemma as_number_value x : finite x = true -> as_number (number_value x) = Some x.
Proof. now destruct x. Qed.

Lemma as_item_value it :
  finite (quantity it) = true -> finite (price it) = true ->
  as_item (item_value it) = Some it.
Proof.
  intros Hq Hp. unfold as_item, item_value.
  change (field as_string "description" _)
    with (as_string (string_value (description it))).
  change (field as_number "quantity" _) with (as_number (number_value (quantity it))).
  change (field as_number "price" _) with (as_number (number_value (price it))).
  unfold as_string, string_value. rewrite units_string_units, !as_number_value by assumption.
  now destruct it.
Qed.

Lemma as_items_value its :
  forallb (fun it => finite (quantity it) && finite (price it)) its = true ->
  mapM as_item (map item_value its) = Some its.
Proof.
  induction its as [|it its IH]; intros H; [reflexivity|].
  cbn [forallb] in H. apply andb_true_iff in H as [Hit H].
  apply andb_true_iff in Hit as [Hq Hp].
  cbn [map].
  change (mapM as_item (item_value it :: map item_value its))
    with (as_item (item_value it)
          ≫= fun y => mapM as_item (map item_value its) ≫= fun k => mret (y :: k)).
  rewrite as_item_value, IH by assumption. reflexivity.
Qed.

Lemma as_currency_code c : as_currency (string_value (currency_code c)) = Some c.
Proof. now destruct c. Qed.

Lemma short_finite x : short x = true -> finite x = true.
Proof. now destruct x. Qed.

Lemma printable_wf x : printable x = true -> wf x.
Proof.
  unfold printable. intros H. apply orb_true_iff in H as [H|H]; [now apply short_wf|].
  destruct x; [exact I | exact I | discriminate].
Qed.

Lemma data_printable_wf d : data_printable d = true -> data_wf d.
Proof.
  unfold data_printable. intros H.
  apply andb_true_iff in H as [H Hd]. apply andb_true_iff in H as [Hits Ht].
  split; [|split; now apply printable_wf].
  induction (d_items d) as [|it its IH]; [constructor|].
  cbn [forallb] in Hits. apply andb_true_iff in Hits as [Hit Hits].
  apply andb_true_iff in Hit as [Hq Hp].
  constructor; [split; now apply printable_wf | now apply IH].
Qed.

Lemma storable_printable d : storable d = true -> data_printable d = true.
Proof.
  unfold storable, data_printable, printable. intros H.
  apply andb_true_iff in H as [H Hd]. apply andb_true_iff in H as [Hits Ht].
  rewrite Ht, Hd. cbn [orb]. rewrite !andb_true_r.
  induction (d_items d) as [|it its IH]; [reflexivity|].
  cbn [forallb] in *. apply andb_true_iff in Hits as [Hit Hits].
  apply andb_true_iff in Hit as [Hq Hp]. rewrite Hq, Hp. cbn [orb andb]. now apply IH.
Qed.

Lemma storable_wf d : storable d = true -> data_wf d.
Proof. intros H. now apply data_printable_wf, storable_printable. Qed.

Lemma as_data_value d : storable d = true -> as_data (data_value d) = Some (JData d).
Proof.
  unfold storable. intros H.
  apply andb_true_iff in H as [H Hd]. apply andb_true_iff in H as [Hits Ht].
  apply short_finite in Ht, Hd.
  assert (Hits' : forallb (fun it => finite (quantity it) && finite (price it))
                    (d_items d) = true).
  { induction (d_items d) as [|it its IH]; [reflexivity|].
    cbn [forallb] in *. apply andb_true_iff in Hits as [Hit Hits].
    apply andb_true_iff in Hit as [Hq Hp]. apply short_finite in Hq, Hp.
    now rewrite Hq, Hp, IH. }
  unfold as_data, data_value.
  change (field as_items "items" _) with (as_items (JVArr (map item_value (d_items d)))).
  change (field as_number "tax" _) with (as_number (number_value (d_tax d))).
  change (field as_number "discount" _) with (as_number (number_value (d_discount d))).
  change (field as_currency "currency" _)
    with (as_currency (string_value (currency_code (d_currency d)))).
  change (field as_string "title" _) with (as_string (string_value (d_title d))).
  change (field as_string "invoiceNumber" _)
    with (as_string (string_value (d_invoiceNumber d))).
  change (field as_string "date" _) with (as_string (string_value (d_date d))).
  rewrite as_currency_code. unfold as_items, as_string, string_value.
  rewrite as_items_value, !as_number_value, !units_string_units by assumption.
  now destruct d.
Qed.

(** *** Fuel *)

Lemma skip_ws_length l : (length (skip_ws l) <= length l)%nat.
Proof.
  induction l as [|c l IH]; [reflexivity|]. cbn [skip_ws].
  destruct (is_ws c); cbn [length]; lia.
Qed.

Lemma span_length p l : forall a b,
  span p l = (a, b) -> length l = (length a + length b)%nat.
Proof.
  induction l as [|c l IH]; intros a b H; cbn [span] in H.
  - now injection H as <- <-.
  - destruct (p c).
    + destruct (span p l) as [a' b'] eqn:Hs. injection H as <- <-.
      cbn [length]. now rewrite (IH a' b').
    + now injection H as <- <-.
Qed.

Lemma parse_string_length n : forall l us r,
  (length l <= n)%nat -> parse_string l = Some (us, r) -> (length r < length l)%nat.
Proof.
  induction n as [|n IH]; intros l us r Hn H.
  - destruct l; [discriminate | cbn in Hn; lia].
  - destruct l as [|c t]; [discriminate|]. cbn [parse_string length] in *.
    destruct (code c =? 34); [injection H as _ <-; lia|].
    destruct (code c =? 92).
    + destruct t as [|e t']; [discriminate|]. cbn [length] in *.
      destruct (Ascii.eqb e "u").
      * destruct t' as [|a [|b [|c' [|d t'']]]]; try discriminate.
        destruct (hex4 a b c' d); [|discriminate].
        destruct (parse_string t'') as [[us' r']|] eqn:Hs; [|discriminate].
        injection H as _ <-. apply IH in Hs; cbn [length] in *; lia.
      * destruct (escape e); [|discriminate].
        destruct (parse_string t') as [[us' r']|] eqn:Hs; [|discriminate].
        injection H as _ <-. apply IH in Hs; lia.
    + destruct (code c <? 32); [discriminate|].
      destruct (parse_string t) as [[us' r']|] eqn:Hs; [|discriminate].
      injection H as _ <-. apply IH in Hs; lia.
Qed.

Lemma exponent_part_length l ex r :
  exponent_part l = (ex, r) -> (length r <= length l)%nat.
Proof.
  unfold exponent_part. destruct l as [|c t]; [now intros [= _ <-]|].
  destruct (_ || _); [|now intros [= _ <-]].
  destruct (split_sign t) as [neg t'] eqn:Hsg.
  destruct (span is_digit t') as [ds rest] eqn:Hsp.
  assert (Ht : (length t' <= length t)%nat).
  { unfold split_sign in Hsg. destruct t as [|c0 t0]; [now injection Hsg as _ <-|].
    destruct (Ascii.eqb c0 "-"); [injection Hsg as _ <-; cbn; lia|].
    destruct (Ascii.eqb c0 "+"); injection Hsg as _ <-; cbn; lia. }
  apply span_length in Hsp. destruct ds; intros [= _ <-]; cbn [length] in *; lia.
Qed.

Lemma unsigned_number_length l v r :
  unsigned_number l = Some (v, r) -> (length r < length l)%nat.
Proof.
  unfold unsigned_number. destruct (int_part l) as [int l2] eqn:Hint.
  assert (Hl : length l = (length int + length l2)%nat).
  { unfold int_part in Hint. destruct l as [|c t]; [now injection Hint as <- <-|].
    destruct (Ascii.eqb c "0"); [now injection Hint as <- <-|].
    now apply span_length in Hint. }
  destruct int as [|d ds]; [discriminate|].
  destruct (frac_part l2) as [fr l3] eqn:Hfr.
  assert (Hl3 : (length l3 <= length l2)%nat).
  { unfold frac_part in Hfr. destruct l2 as [|c t]; [now injection Hfr as _ <-|].
    destruct (Ascii.eqb c "."); [|now injection Hfr as _ <-].
    destruct (span is_digit t) as [a b] eqn:Hsp. apply span_length in Hsp.
    destruct a; injection Hfr as _ <-; cbn [length] in *; lia. }
  destruct (exponent_part l3) as [ex l4] eqn:Hex. apply exponent_part_length in Hex.
  intros [= _ <-]. cbn [length] in *. lia.
Qed.

Lemma parse_number_length l v r :
  parse_number l = Some (v, r) -> (length r < length l)%nat.
Proof.
  unfold parse_number. destruct l as [|c t]; [discriminate|].
  destruct (Ascii.eqb c "-").
  - destruct (unsigned_number t) as [[v' r']|] eqn:Hu; [|discriminate].
    intros [= _ <-]. apply unsigned_number_length in Hu. cbn [length]. lia.
  - apply unsigned_number_length.
Qed.

Lemma literal_length name v l v' r :
  literal name v l = Ok v' r -> (length r <= length l)%nat.
Proof.
  unfold literal. destruct (starts_with _ l); [|discriminate].
  intros [= _ <-]. rewrite length_drop. lia.
Qed.

(** With fuel above twice the length of the text the parser does not run
    out of it, and a value takes at least one character. *)
Lemma parse_fuel f :
  (forall l, (2 * length l < f)%nat ->
     parse_value f l <> NoFuel
     /\ forall v r, parse_value f l = Ok v r -> (length r < length l)%nat)
  /\ (forall l, (2 * length l + 1 < f)%nat ->
        parse_elements f l <> NoFuel
        /\ forall vs r, parse_elements f l = Ok vs r -> (length r < length l)%nat)
  /\ (forall l, (2 * length l + 1 < f)%nat ->
        parse_members f l <> NoFuel
        /\ forall ms r, parse_members f l = Ok ms r -> (length r < length l)%nat).
Proof.
  induction f as [|f (IHv & IHe & IHm)]; [repeat split; intros; lia|].
  split; [|split].
  - intros l Hf. cbn [parse_value]. pose proof (skip_ws_length l) as Hws.
    destruct (skip_ws l) as [|c t]; [split; [discriminate | intros; discriminate]|].
    cbn [length] in Hws.
    destruct (Ascii.eqb c "n").
    { split; [unfold literal; destruct (starts_with _ t); discriminate|].
      intros v r H. apply literal_length in H. lia. }
    destruct (Ascii.eqb c "t").
    { split; [unfold literal; destruct (starts_with _ t); discriminate|].
      intros v r H. apply literal_length in H. lia. }
    destruct (Ascii.eqb c "f").
    { split; [unfold literal; destruct (starts_with _ t); discriminate|].
      intros v r H. apply literal_length in H. lia. }
    destruct (code c =? 34).
    { destruct (parse_string t) as [[us r0]|] eqn:Hs; [|split; [discriminate | intros; discriminate]].
      apply (parse_string_length (length t)) in Hs; [|lia].
      split; [discriminate|]. intros v r [= _ <-]. lia. }
    destruct (Ascii.eqb c "[").
    { pose proof (skip_ws_length t) as Hws'.
      destruct (skip_ws t) as [|c' t']; [split; [discriminate | intros; discriminate]|].
      cbn [length] in Hws'.
      destruct (Ascii.eqb c' "]"); [split; [discriminate|]; intros v r [= _ <-]; lia|].
      destruct (IHe (c' :: t')) as [Hnf Hlen]; [cbn [length]; lia|].
      destruct (parse_elements f (c' :: t')) as [vs r0| |] eqn:He; [| |congruence].
      - split; [discriminate|]. intros v r [= _ <-].
        specialize (Hlen vs r0 eq_refl). cbn [length] in Hlen. lia.
      - split; [discriminate | intros; discriminate]. }
    destruct (Ascii.eqb c "{").
    { pose proof (skip_ws_length t) as Hws'.
      destruct (skip_ws t) as [|c' t']; [split; [discriminate | intros; discriminate]|].
      cbn [length] in Hws'.
      destruct (Ascii.eqb c' "}"); [split; [discriminate|]; intros v r [= _ <-]; lia|].
      destruct (IHm (c' :: t')) as [Hnf Hlen]; [cbn [length]; lia|].
      destruct (parse_members f (c' :: t')) as [ms r0| |] eqn:He; [| |congruence].
      - split; [discriminate|]. intros v r [= _ <-].
        specialize (Hlen ms r0 eq_refl). cbn [length] in Hlen. lia.
      - split; [discriminate | intros; discriminate]. }
    destruct (_ || _); [|split; [discriminate | intros; discriminate]].
    destruct (parse_number (c :: t)) as [[x r0]|] eqn:Hn;
      [|split; [discriminate | intros; discriminate]].
    apply parse_number_length in Hn. cbn [length] in Hn.
    split; [discriminate|]. intros v r [= _ <-]. lia.
  - intros l Hf. cbn [parse_elements].
    destruct (IHv l) as [Hnf Hlen]; [lia|].
    destruct (parse_value f l) as [v r0| |] eqn:Hv;
      [|split; [discriminate | intros; discriminate]|congruence].
    specialize (Hlen v r0 eq_refl). pose proof (skip_ws_length r0) as Hws.
    destruct (skip_ws r0) as [|c t]; [split; [discriminate | intros; discriminate]|].
    cbn [length] in Hws.
    destruct (Ascii.eqb c ",").
    { destruct (IHe t) as [Hnf' Hlen']; [lia|].
      destruct (parse_elements f t) as [vs r1| |] eqn:He; [| |congruence].
      - split; [discriminate|]. intros vs' r [= _ <-]. specialize (Hlen' vs r1 eq_refl). lia.
      - split; [discriminate | intros; discriminate]. }
    destruct (Ascii.eqb c "]"); [|split; [discriminate | intros; discriminate]].
    split; [discriminate|]. intros vs r [= _ <-]. lia.
  - intros l Hf. cbn [parse_members]. pose proof (skip_ws_length l) as Hws.
    destruct (skip_ws l) as [|c t]; [split; [discriminate | intros; discriminate]|].
    cbn [length] in Hws.
    destruct (code c =? 34); [|split; [discriminate | intros; discriminate]].
    destruct (parse_string t) as [[k r0]|] eqn:Hs; [|split; [discriminate | intros; discriminate]].
    apply (parse_string_length (length t)) in Hs; [|lia].
    pose proof (skip_ws_length r0) as Hws0.
    destruct (skip_ws r0) as [|c' t']; [split; [discriminate | intros; discriminate]|].
    cbn [length] in Hws0.
    destruct (Ascii.eqb c' ":"); [|split; [discriminate | intros; discriminate]].
    destruct (IHv t') as [Hnf Hlen]; [lia|].
    destruct (parse_value f t') as [v r1| |] eqn:Hv;
      [|split; [discriminate | intros; discriminate]|congruence].
    specialize (Hlen v r1 eq_refl). pose proof (skip_ws_length r1) as Hws1.
    destruct (skip_ws r1) as [|c'' t'']; [split; [discriminate | intros; discriminate]|].
    cbn [length] in Hws1.
    destruct (Ascii.eqb c'' ",").
    { destruct (IHm t'') as [Hnf' Hlen']; [lia|].
      destruct (parse_members f t'') as [ms r2| |] eqn:Hm; [| |congruence].
      - split; [discriminate|]. intros ms' r [= _ <-]. specialize (Hlen' ms r2 eq_refl). lia.
      - split; [discriminate | intros; discriminate]. }
    destruct (Ascii.eqb c'' "}"); [|split; [discriminate | intros; discriminate]].
    split; [discriminate|]. intros ms r [= _ <-]. lia.
Qed.

(** The parser on known texts. *)
Example parse_samples :
  parse "[1, 2.5e3 ,-0.5,true,null, {} ,[]]"
  = Some (JVArr [JVNum one; JVNum (Fin 25 2); JVNum (Fin (-5) (-1)); JVBool true;
                 JVNull; JVObj []; JVArr []])
  /\ parse " 1E2 " = Some (JVNum (Fin 1 2))
  /\ parse "-0" = Some (JVNum zero)
  /\ parse "[[[[1]]]]" = Some (JVArr [JVArr [JVArr [JVArr [JVNum one]]]])
  /\ parse "" = None
  /\ parse "01" = None
  /\ parse "1." = None
  /\ parse ".5" = None
  /\ parse "+1" = None
  /\ parse "1e" = None
  /\ parse "[1,]" = None
  /\ parse "[1 2]" = None
  /\ parse "nul" = None
  /\ parse "True" = None
  /\ parse "{" = None
  /\ parse "{a:1}" = None
  /\ parse "NaN" = None.
Proof. repeat match goal with |- _ /\ _ => split end; vm_compute; reflexivity. Qed.

Lemma parse_enough_fuel text :
  parse_value (2 * length (list_ascii_of_string text) + 1) (list_ascii_of_string text)
  <> NoFuel.
Proof. apply (proj1 (parse_fuel _)). lia. Qed.

(** *** Storing and loading *)

Lemma deref_seq (h : list Item) : deref h (seq 0 (length h)) = h.
Proof.
  apply list_eq. intros j. rewrite deref_lookup.
  - destruct (Nat.lt_ge_cases j (length h)) as [Hlt|Hge].
    + rewrite lookup_seq_lt by assumption. reflexivity.
    + rewrite lookup_seq_ge by assumption. symmetry. now apply lookup_ge_None.
  - apply Forall_forall. intros r Hr. apply elem_of_seq in Hr. lia.
Qed.

Lemma data_text_nonempty d : data_text d <> ""%string.
Proof. unfold data_text, object_text. discriminate. Qed.

Lemma bind_Some {A B : Type} (f : A -> option B) x : Some x ≫= f = f x.
Proof. reflexivity. Qed.

(** What [JSON.stringify] writes for a record parses: [JSON.parse] returns
    the object with the same members in the same order, [null] standing for
    a number that is not finite; when every number is a short decimal, the
    typed view of that object is the record itself. *)
Theorem stored_text_parses d :
  data_printable d = true ->
  parse (data_text d) = Some (data_value d)
  /\ (storable d = true -> parse (data_text d) ≫= as_data = Some (JData d)).
Proof.
  intros Hpr. pose proof (parse_data_text d (data_printable_wf d Hpr)) as Hp.
  split; [exact Hp|].
  intros Hs. rewrite Hp, bind_Some. now apply as_data_value.
Qed.

Lemma stored_text_parses_witness :
  parse (data_text sampleData) = Some (data_value sampleData)
  /\ (storable sampleData = true ->
      parse (data_text sampleData) ≫= as_data = Some (JData sampleData)).
Proof.
  apply (stored_text_parses sampleData). vm_compute. reflexivity.
Defined.

(** Reloading.  For a state of a form that started from the defaults, with
    short decimals as numbers: given the text stored for it, or the same
    text as the [data] parameter of a link, the start-up effect ends
    without an exception and logs nothing; the rows, tax, discount,
    currency, title, invoice number and date are those of the state that
    was stored; no error entry is left, and the history holds the one
    snapshot of the start, so that [undo] and [redo] do nothing. *)
Theorem reload_restores (JSON_parse : string -> option json) start s today :
  steps (mounted (defaults start) start) s ->
  JSON_parse (persisted s) = parse (persisted s) ≫= as_data ->
  storable (snapshot s) = true ->
  let s' := mounted (snapshot s) today in
  startup JSON_parse None (Some (persisted s)) today = Done s' []
  /\ (forall saved, startup JSON_parse (Some (persisted s)) saved today = Done s' [])
  /\ rows s' = rows s /\ tax s' = tax s /\ discount s' = discount s
  /\ currency s' = currency s /\ title s' = title s
  /\ invoiceNumber s' = invoiceNumber s /\ date s' = date s
  /\ errors s' = ∅ /\ history s' = [current s'] /\ historyIndex s' = 0
  /\ undo s' = Some s' /\ redo s' = Some s'.
Proof.
  intros _ Hparse Hst. cbv zeta.
  assert (Hp : JSON_parse (persisted s) = Some (JData (snapshot s))).
  { rewrite Hparse. unfold persisted.
    rewrite (parse_data_text _ (storable_wf _ Hst)), bind_Some. now apply as_data_value. }
  assert (Hne : persisted s <> ""%string) by apply data_text_nonempty.
  split; [|split].
  - unfold startup. cbv zeta. rewrite present_nonempty by assumption.
    cbn [present]. now rewrite Hp.
  - intros saved. unfold startup. cbv zeta. rewrite present_nonempty by assumption.
    now rewrite Hp.
  - split.
    + unfold rows, mounted, load.
      cbn [heap items saveHistory setHistoryIndex setHistory setDate setInvoiceNumber
           setTitle setCurrency setDiscount setTax setItems setHeap snapshot d_items].
      apply deref_seq.
    + repeat match goal with |- _ /\ _ => split end; vm_compute; reflexivity.
Qed.

Lemma reload_restores_witness :
  let JSON_parse := fun text => parse text ≫= as_data in
  let s' := mounted (snapshot form0) "2024-02-02" in
  startup JSON_parse None (Some (persisted form0)) "2024-02-02" = Done s' []
  /\ (forall saved,
        startup JSON_parse (Some (persisted form0)) saved "2024-02-02" = Done s' [])
  /\ rows s' = rows form0 /\ tax s' = tax form0 /\ discount s' = discount form0
  /\ currency s' = currency form0 /\ title s' = title form0
  /\ invoiceNumber s' = invoiceNumber form0 /\ date s' = date form0
  /\ errors s' = ∅ /\ history s' = [current s'] /\ historyIndex s' = 0
  /\ undo s' = Some s' /\ redo s' = Some s'.
Proof.
  apply (reload_restores (fun text => parse text ≫= as_data) "2024-01-01" form0
           "2024-02-02").
  - apply steps_refl.
  - reflexivity.
  - vm_compute. reflexivity.
Defined.
